(** * FiveM webhook scanner: a shallow embedding of [fivem_webhook_manager_v11.py]

    The development follows the source class by class:
    - [Py]: the fragment of Python's [str], [list] and [re] that the program uses;
    - [EnhancedScanner]: URL validation, resource attribution and the scan of a file;
    - [WebhookCreator]: channel-name sanitising and the provisioning loop,
      over a model of the guild and of the remote calls;
    - [FileUpdater]: the rewrite of a file with its backup, over a model of
      the file system.

    A Python [str] is a list of code points; the model covers the code
    points below 256, which are the values of Rocq's [ascii].  The character
    classes ([str.isdigit], [str.isalnum], [str.lower], whitespace) are the
    Unicode ones restricted to that range. *)

From Stdlib Require Import Ascii String List ZArith Lia Bool Arith.
From stdpp Require Import gmap strings list fin_maps pretty.

Import ListNotations.
Local Open Scope Z_scope.
Local Open Scope list_scope.

(** ** Python values *)

Module Py.

(** A [str] is a sequence of code points. *)
Definition str : Type := list ascii.

(** String literals of the source are written [lit "..."]. *)
Definition lit (s : string) : str := list_ascii_of_string s.

(** Exceptions the program can meet, and computations that may raise. *)
Inductive exn : Type :=
| IndexError
| ValueError
| OSError
| HTTPException
| OtherException.

Inductive result (A : Type) : Type :=
| Ok (a : A)
| Raise (e : exn).
Arguments Ok {A} a.
Arguments Raise {A} e.

(** Sequencing, written [x ← m; k] with stdpp's notation. *)
Global Instance result_ret : MRet result := fun A a => Ok a.
Global Instance result_bind : MBind result := fun A B k m =>
  match m with
  | Ok a => k a
  | Raise e => Raise e
  end.

(** [try: m except Exception: h] *)
Definition try_except {A : Type} (m : result A) (h : exn -> A) : A :=
  match m with
  | Ok a => a
  | Raise e => h e
  end.

(** *** Characters *)

Definition code (c : ascii) : N := N_of_ascii c.

Definition in_range (lo hi : N) (c : ascii) : bool :=
  ((lo <=? code c) && (code c <=? hi))%N.

(** Membership of a character in a literal, [c in '-_']. *)
Definition in_chars (c : ascii) (set : str) : bool :=
  existsb (Ascii.eqb c) set.

(** Unicode decimal digits below 256: [0-9].  This is the class [\d] of [re]. *)
Definition isdecimal_c (c : ascii) : bool := in_range 48 57 c.

(** [str.isdigit] on one character: decimal digits and the superscripts
    U+00B2, U+00B3, U+00B9. *)
Definition isdigit_c (c : ascii) : bool :=
  isdecimal_c c || in_range 178 179 c || in_range 185 185 c.

(** [str.isalpha] on one character: the letters of Unicode below 256. *)
Definition isalpha_c (c : ascii) : bool :=
  in_range 65 90 c || in_range 97 122 c ||
  in_range 170 170 c || in_range 181 181 c || in_range 186 186 c ||
  in_range 192 214 c || in_range 216 246 c || in_range 248 255 c.

(** [str.isalnum] on one character: letters, digits and the vulgar
    fractions U+00BC..U+00BE, which are numeric. *)
Definition isalnum_c (c : ascii) : bool :=
  isalpha_c c || isdigit_c c || in_range 188 190 c.

(** Whitespace as [str.strip()] and [\s] see it. *)
Definition isspace_c (c : ascii) : bool :=
  in_range 9 13 c || in_range 28 32 c || in_range 133 133 c || in_range 160 160 c.

(** The class [\w] of [re]: alphanumerics and the underscore. *)
Definition isword_c (c : ascii) : bool := isalnum_c c || Ascii.eqb c "_".

(** [str.lower] on one character. *)
Definition lower_c (c : ascii) : ascii :=
  if in_range 65 90 c || in_range 192 214 c || in_range 216 222 c
  then ascii_of_N (code c + 32)
  else c.

(** *** Strings *)

Definition lower (s : str) : str := map lower_c s.

(** [s.isdigit()]: false on the empty string. *)
Definition isdigit (s : str) : bool :=
  match s with
  | [] => false
  | _ => forallb isdigit_c s
  end.

Definition str_eqb (a b : str) : bool := bool_decide (a = b).

(** [s.startswith(p)] *)
Fixpoint startswith (s p : str) {struct p} : bool :=
  match p, s with
  | [], _ => true
  | _ :: _, [] => false
  | x :: p', y :: s' => Ascii.eqb x y && startswith s' p'
  end.

(** [s.endswith(p)] *)
Definition endswith (s p : str) : bool := startswith (rev s) (rev p).

(** [sub in s] *)
Fixpoint contains (sub s : str) : bool :=
  startswith s sub ||
  match s with
  | [] => false
  | _ :: s' => contains sub s'
  end.

(** [s.split(sep)] for a one-character separator: never empty. *)
Fixpoint split (sep : ascii) (s : str) : list str :=
  match s with
  | [] => [[]]
  | c :: s' =>
      if Ascii.eqb c sep then [] :: split sep s'
      else match split sep s' with
           | [] => [[c]]
           | w :: ws => (c :: w) :: ws
           end
  end.

(** [l[i]], with Python's negative indices and its [IndexError]. *)
Definition index {A : Type} (l : list A) (i : Z) : result A :=
  let n := Z.of_nat (length l) in
  let j := if i <? 0 then i + n else i in
  if (j <? 0) || (n <=? j) then Raise IndexError
  else match nth_error l (Z.to_nat j) with
       | Some a => Ok a
       | None => Raise IndexError
       end.

(** [s.strip(chars)] and [s.strip()] *)
Fixpoint lstrip_by (p : ascii -> bool) (s : str) : str :=
  match s with
  | [] => []
  | c :: s' => if p c then lstrip_by p s' else s
  end.

Definition strip_by (p : ascii -> bool) (s : str) : str :=
  rev (lstrip_by p (rev (lstrip_by p s))).

Definition strip_chars (chars s : str) : str := strip_by (fun c => in_chars c chars) s.
Definition strip (s : str) : str := strip_by isspace_c s.

(** [s.count(sub)] and [s.replace(old, new)]: occurrences are taken from the
    left and do not overlap.  The loops run over the text once; after a hit
    at a position, [skip] counts the characters of that occurrence still to
    pass.  For the empty [sub] Python counts (and replaces at) every gap. *)
Fixpoint count_from (sub : str) (skip : nat) (s : str) : nat :=
  match s with
  | [] => 0%nat
  | _ :: s' =>
      match skip with
      | S k => count_from sub k s'
      | O => if startswith s sub
             then S (count_from sub (pred (length sub)) s')
             else count_from sub 0 s'
      end
  end.

Definition count (s sub : str) : nat :=
  match sub with
  | [] => S (length s)
  | _ :: _ => count_from sub 0 s
  end.

Fixpoint replace_from (old new : str) (skip : nat) (s : str) : str :=
  match s with
  | [] => []
  | c :: s' =>
      match skip with
      | S k => replace_from old new k s'
      | O => if startswith s old
             then new ++ replace_from old new (pred (length old)) s'
             else c :: replace_from old new 0 s'
      end
  end.

Definition replace (s old new : str) : str :=
  match old with
  | [] => new ++ flat_map (fun c => c :: new) s
  | _ :: _ => replace_from old new 0 s
  end.

(** Truth value of a string: [not s] holds of the empty string only. *)
Definition truthy (s : str) : bool :=
  match s with
  | [] => false
  | _ :: _ => true
  end.

(** *** Text files

    [open(p, 'r')] reads with universal newlines: CR LF and a lone CR both
    come back as LF.  [open(p, 'w')] writes every LF as [os.linesep]. *)
Definition CR : ascii := ascii_of_nat 13.
Definition LF : ascii := ascii_of_nat 10.

Fixpoint newlines_in (raw : str) : str :=
  match raw with
  | [] => []
  | c :: raw' =>
      if Ascii.eqb c CR then
        match raw' with
        | d :: raw'' => if Ascii.eqb d LF then LF :: newlines_in raw''
                        else LF :: newlines_in raw'
        | [] => [LF]
        end
      else c :: newlines_in raw'
  end.

Definition newlines_out (linesep text : str) : str :=
  flat_map (fun c => if Ascii.eqb c LF then linesep else [c]) text.

(** *** Regular expressions

    The fragment of [re] that the patterns of the program are written in:
    literals, character classes, greedy repetition of a class, an optional
    part, alternation, one capturing group and the word boundary.  Matching
    is Python's: backtracking, the leftmost alternative and the longest
    repetition first. *)
Inductive regex : Type :=
| Eps
| Lit (c : ascii)
| Class (p : ascii -> bool)
| Star (p : ascii -> bool)
| Plus (p : ascii -> bool)
| Opt (r : regex)
| Alt (r1 r2 : regex)
| Seq (r1 r2 : regex)
| Group (r : regex)
| WordB.

(** A position in the subject: the text before it, nearest character
    first, and the text from it on. *)
Record cursor : Type := Cursor {
  before : str;
  rest : str;
  group1 : option str
}.

Definition lit_eqb (icase : bool) (c x : ascii) : bool :=
  if icase then Ascii.eqb (lower_c c) (lower_c x) else Ascii.eqb c x.

Definition is_word_at (o : option ascii) : bool :=
  match o with
  | Some c => isword_c c
  | None => false
  end.

Fixpoint star_k {R : Type} (p : ascii -> bool) (bef rst : str)
    (k : str -> str -> option R) : option R :=
  match rst with
  | c :: rst' =>
      if p c then
        match star_k p (c :: bef) rst' k with
        | Some r => Some r
        | None => k bef rst
        end
      else k bef rst
  | [] => k bef rst
  end.

Fixpoint run {R : Type} (icase : bool) (r : regex) (cur : cursor)
    (k : cursor -> option R) : option R :=
  match r with
  | Eps => k cur
  | Lit c =>
      match rest cur with
      | x :: rst' =>
          if lit_eqb icase c x
          then k (Cursor (x :: before cur) rst' (group1 cur))
          else None
      | [] => None
      end
  | Class p =>
      match rest cur with
      | x :: rst' =>
          if p x then k (Cursor (x :: before cur) rst' (group1 cur)) else None
      | [] => None
      end
  | Star p =>
      star_k p (before cur) (rest cur)
        (fun b rst' => k (Cursor b rst' (group1 cur)))
  | Plus p =>
      match rest cur with
      | x :: rst' =>
          if p x
          then star_k p (x :: before cur) rst'
                 (fun b rst'' => k (Cursor b rst'' (group1 cur)))
          else None
      | [] => None
      end
  | Opt r1 =>
      match run icase r1 cur k with
      | Some res => Some res
      | None => k cur
      end
  | Alt r1 r2 =>
      match run icase r1 cur k with
      | Some res => Some res
      | None => run icase r2 cur k
      end
  | Seq r1 r2 => run icase r1 cur (fun cur' => run icase r2 cur' k)
  | Group r1 =>
      run icase r1 cur (fun cur' =>
        let n := (length (before cur') - length (before cur))%nat in
        k (Cursor (before cur') (rest cur')
             (Some (rev (firstn n (before cur'))))))
  | WordB =>
      if xorb (is_word_at (head (before cur))) (is_word_at (head (rest cur)))
      then k cur
      else None
  end.

(** One match object: [group(0)] and [group(1)]. *)
Record rmatch : Type := RMatch {
  group0 : str;
  captured : option str
}.

(** [pattern.match] at a position: the number of characters matched and the
    group. *)
Definition match_here (icase : bool) (r : regex) (bef rst : str)
    : option (nat * option str) :=
  run icase r (Cursor bef rst None)
    (fun cur' => Some ((length (before cur') - length bef)%nat, group1 cur')).

(** [pattern.finditer(s)]: the matches from left to right, without overlap.
    The patterns of the program never match the empty string. *)
Fixpoint finditer_from (icase : bool) (r : regex) (skip : nat)
    (bef rst : str) : list rmatch :=
  match rst with
  | [] =>
      match skip with
      | O => match match_here icase r bef [] with
             | Some (_, g) => [RMatch [] g]
             | None => []
             end
      | S _ => []
      end
  | c :: rst' =>
      match skip with
      | S k => finditer_from icase r k (c :: bef) rst'
      | O =>
          match match_here icase r bef rst with
          | Some (n, g) =>
              RMatch (firstn n rst) g
                :: finditer_from icase r (pred n) (c :: bef) rst'
          | None => finditer_from icase r 0 (c :: bef) rst'
          end
      end
  end.

Definition finditer (icase : bool) (r : regex) (s : str) : list rmatch :=
  finditer_from icase r 0 [] s.

(** [re.sub(pattern, repl, s)] for a replacement without group references. *)
Fixpoint sub_from (icase : bool) (r : regex) (repl : str) (skip : nat)
    (bef rst : str) : str :=
  match rst with
  | [] =>
      match skip with
      | O => match match_here icase r bef [] with
             | Some _ => repl
             | None => []
             end
      | S _ => []
      end
  | c :: rst' =>
      match skip with
      | S k => sub_from icase r repl k (c :: bef) rst'
      | O =>
          match match_here icase r bef rst with
          | Some (O, _) => repl ++ c :: sub_from icase r repl 0 (c :: bef) rst'
          | Some (S n, _) => repl ++ sub_from icase r repl n (c :: bef) rst'
          | None => c :: sub_from icase r repl 0 (c :: bef) rst'
          end
      end
  end.

Definition re_sub (icase : bool) (r : regex) (repl s : str) : str :=
  sub_from icase r repl 0 [] s.

(** Pattern text: a run of literal characters, and a sequence of parts. *)
Definition lits (s : string) : regex :=
  fold_right (fun c r => Seq (Lit c) r) Eps (list_ascii_of_string s).

Definition seq (rs : list regex) : regex := fold_right Seq Eps rs.

(** *** Programs with state and exceptions

    Methods mutate their object and may raise; a mutation made before an
    exception stays. *)
Definition prog (St A : Type) : Type := St -> St * result A.

Global Instance prog_ret {St} : MRet (prog St) := fun A a s => (s, Ok a).
Global Instance prog_bind {St} : MBind (prog St) := fun A B k m s =>
  match m s with
  | (s', Ok a) => k a s'
  | (s', Raise e) => (s', Raise e)
  end.

Definition raise {St A : Type} (e : exn) : prog St A := fun s => (s, Raise e).
Definition get {St : Type} : prog St St := fun s => (s, Ok s).
Definition modify {St : Type} (f : St -> St) : prog St unit := fun s => (f s, Ok tt).
Definition lift {St A : Type} (r : result A) : prog St A := fun s => (s, r).

(** [try: m except Exception: h] *)
Definition try_ {St A : Type} (m : prog St A) (h : exn -> prog St A) : prog St A :=
  fun s =>
    match m s with
    | (s', Ok a) => (s', Ok a)
    | (s', Raise e) => h e s'
    end.

(** [for x in l: body(x)] *)
Fixpoint for_each {St A : Type} (l : list A) (body : A -> prog St unit) : prog St unit :=
  match l with
  | [] => mret tt
  | x :: l' => body x ≫= fun _ => for_each l' body
  end.

(** [for x in l: acc = body(x, acc)], for a loop that updates a local. *)
Fixpoint for_fold {St A B : Type} (l : list A) (acc : B)
    (body : A -> B -> prog St B) : prog St B :=
  match l with
  | [] => mret acc
  | x :: l' => body x acc ≫= fun acc' => for_fold l' acc' body
  end.

(** A method of a collaborator run on the first component of the state. *)
Definition on_fst {S1 S2 A : Type} (m : prog S1 A) : prog (S1 * S2) A :=
  fun s =>
    match m (fst s) with
    | (s1', r) => ((s1', snd s), r)
    end.

Definition on_snd {S1 S2 A : Type} (m : prog S2 A) : prog (S1 * S2) A :=
  fun s =>
    match m (snd s) with
    | (s2', r) => ((fst s, s2'), r)
    end.

Definition exec {St A : Type} (m : prog St A) (s : St) : St := fst (m s).

(** *** Paths

    A [pathlib.Path] is the list of its parts; [str(p)] and [Path(s)]
    convert between a path and its text and are left implicit. *)
Definition path : Type := list str.

(** [p / name] *)
Definition joinpath (p : path) (name : str) : path := p ++ [name].

(** [p.name] *)
Definition name (p : path) : str := List.last p [].

(** Index of the last dot of a name, [name.rfind('.')]. *)
Fixpoint rfind_dot (s : str) : option nat :=
  match s with
  | [] => None
  | c :: s' =>
      match rfind_dot s' with
      | Some i => Some (S i)
      | None => if Ascii.eqb c "." then Some 0%nat else None
      end
  end.

(** [p.suffix] and [p.stem]: the name is cut at its last dot, unless the dot
    is the first or the last character of the name. *)
Definition cut_point (nm : str) : nat :=
  match rfind_dot nm with
  | Some i => if (0 <? i)%nat && (i <? length nm - 1)%nat then i else length nm
  | None => length nm
  end.

Definition suffix (p : path) : str := skipn (cut_point (name p)) (name p).
Definition stem (p : path) : str := firstn (cut_point (name p)) (name p).

(** [p.relative_to(base)]: raises [ValueError] when [p] is not under [base]. *)
Fixpoint relative_to (p base : path) {struct base} : result path :=
  match base, p with
  | [], _ => Ok p
  | b :: base', x :: p' => if str_eqb b x then relative_to p' base' else Raise ValueError
  | _ :: _, [] => Raise ValueError
  end.

(** *** Dictionaries and sorting

    A [dict] whose order of iteration matters is kept as the list of its
    items in insertion order; [d[k] = v] keeps the place of a key already
    present. *)
Fixpoint dict_set {V : Type} (k : str) (v : V) (d : list (str * V)) : list (str * V) :=
  match d with
  | [] => [(k, v)]
  | (k', v') :: d' => if str_eqb k' k then (k, v) :: d' else (k', v') :: dict_set k v d'
  end.

Fixpoint dict_get {V : Type} (k : str) (d : list (str * V)) : option V :=
  match d with
  | [] => None
  | (k', v') :: d' => if str_eqb k' k then Some v' else dict_get k d'
  end.

(** The order of [str]: by code point, a proper prefix first. *)
Fixpoint str_leb (a b : str) : bool :=
  match a, b with
  | [], _ => true
  | _ :: _, [] => false
  | x :: a', y :: b' =>
      if (code x <? code y)%N then true
      else if (code y <? code x)%N then false
      else str_leb a' b'
  end.

(** [sorted(l)] for items compared by their key. *)
Fixpoint insert_by {A : Type} (key : A -> str) (x : A) (l : list A) : list A :=
  match l with
  | [] => [x]
  | y :: l' => if str_leb (key x) (key y) then x :: l else y :: insert_by key x l'
  end.

Definition sorted_by {A : Type} (key : A -> str) (l : list A) : list A :=
  fold_right (insert_by key) [] l.

(** [str(n)] for a non-negative integer. *)
Definition str_of_nat (n : nat) : str := list_ascii_of_string (pretty n).

End Py.

(** ** The file system

    Files are kept by path with their raw text.  Each operation that can
    fail takes its outcome from [faults], the outcomes the environment has
    in store; when none is left the operation succeeds.  Writing is
    [open(p, 'w')] followed by [f.write(data)]: it may fail on opening,
    which leaves the file as it was, or after the file has been opened and
    truncated, which leaves a prefix of the data. *)
Module OS.
Import Py.

Inductive outcome : Type :=
| Success
| FailOpen
| FailWrite (written : nat).

(** The two places where the program writes. *)
Inductive site : Type :=
| BackupWrite
| InPlaceWrite.

Inductive event : Type :=
| Opened (st : site) (p : path)
| Written (st : site) (p : path) (text : str).

Record World : Type := mkWorld {
  files : gmap path str;
  linesep : str;
  faults : list outcome;
  io_log : list event
}.

Definition next_outcome (w : World) : outcome * World :=
  match faults w with
  | [] => (Success, w)
  | o :: os => (o, mkWorld (files w) (linesep w) os (io_log w))
  end.

Definition set_file (p : path) (raw : str) (w : World) : World :=
  mkWorld (<[p := raw]> (files w)) (linesep w) (faults w) (io_log w).

Definition log_event (e : event) (w : World) : World :=
  mkWorld (files w) (linesep w) (faults w) (io_log w ++ [e]).

(** [p.exists()] *)
Definition exists_ (p : path) (w : World) : bool :=
  bool_decide (is_Some (files w !! p)).

(** [with open(p, 'r', encoding='utf-8', errors='ignore') as f: f.read()] *)
Definition read_text (p : path) : prog World str := fun w =>
  match next_outcome w with
  | (Success, w') =>
      match files w' !! p with
      | Some raw => (w', Ok (newlines_in raw))
      | None => (w', Raise OSError)
      end
  | (_, w') => (w', Raise OSError)
  end.

(** [with open(p, 'w', encoding='utf-8', errors='ignore') as f: f.write(text)] *)
Definition write_text (st : site) (p : path) (text : str) : prog World unit := fun w =>
  match next_outcome w with
  | (Success, w') =>
      let raw := newlines_out (linesep w') text in
      (log_event (Written st p text) (set_file p raw (log_event (Opened st p) w')), Ok tt)
  | (FailOpen, w') => (w', Raise OSError)
  | (FailWrite n, w') =>
      let raw := newlines_out (linesep w') text in
      (set_file p (firstn n raw) (log_event (Opened st p) w'), Raise OSError)
  end.

End OS.

(** ** class EnhancedScanner *)
Module EnhancedScanner.
Import Py OS.

Definition dquote : ascii := ascii_of_nat 34.
Definition squote : ascii := ascii_of_nat 39.

(** The classes of the patterns: a quote, anything but a quote, and the
    characters of a token. *)
Definition quote_c (c : ascii) : bool := Ascii.eqb c dquote || Ascii.eqb c squote.
Definition notquote_c (c : ascii) : bool := negb (quote_c c).
Definition token_c (c : ascii) : bool := isword_c c || Ascii.eqb c "-".
Definition assign_c (c : ascii) : bool := in_chars c (lit ":=").
Definition sep_c (c : ascii) : bool := Ascii.eqb c "_" || isspace_c c || Ascii.eqb c "-".

(** [https?://(?:discord(?:app)?\.com|ptb\.discord\.com)/api/webhooks/\d+/[\w-]+] *)
Definition webhook_url_pattern : regex :=
  seq [lits "http"; Opt (Lit "s"); lits "://";
       Alt (seq [lits "discord"; Opt (lits "app"); lits ".com"])
           (lits "ptb.discord.com");
       lits "/api/webhooks/"; Plus isdecimal_c; Lit "/"; Plus token_c].

(** The common tail [\s*[:=]\s*[Q]([^Q]+)[Q]] of the key-value patterns;
    in the patterns quoted here [Q] stands for the two quote characters. *)
Definition assigned (value : regex) : regex :=
  seq [Star isspace_c; Class assign_c; Star isspace_c;
       Class quote_c; Group value; Class quote_c].

Definition webhook_value_patterns : list regex :=
  [ (* [Q]webhook[_\s-]*url?[Q]\s*[:=]\s*[Q]([^Q]+)[Q] *)
    seq [Class quote_c; lits "webhook"; Star sep_c; lits "ur"; Opt (Lit "l");
         Class quote_c; assigned (Plus notquote_c)];
    (* \bwebhook\s*[:=]\s*[Q]([^Q]+)[Q] *)
    seq [WordB; lits "webhook"; assigned (Plus notquote_c)];
    (* \bwebhook_?url\s*[:=]\s*[Q]([^Q]+)[Q] *)
    seq [WordB; lits "webhook"; Opt (Lit "_"); lits "url"; assigned (Plus notquote_c)];
    (* \bwebhookurl\s*[:=]\s*[Q]([^Q]+)[Q] *)
    seq [WordB; lits "webhookurl"; assigned (Plus notquote_c)];
    (* webhook[Q]?\s*[:=]\s*[Q]([^Q]+)[Q] *)
    seq [lits "webhook"; Opt (Class quote_c); assigned (Plus notquote_c)];
    (* [Q]url[Q]\s*[:=]\s*[Q](https?://discord[^Q]+)[Q] *)
    seq [Class quote_c; lits "url"; Class quote_c;
         assigned (seq [lits "http"; Opt (Lit "s"); lits "://discord"; Plus notquote_c])] ].

Record ScanStats : Type := mkScanStats {
  files_scanned : nat;
  webhooks_found : nat;
  files_with_webhooks : nat;
  resources_found : gset str
}.

Record Scanner : Type := mkScanner {
  base_path : path;
  webhooks_by_resource : gmap str (gset str);
  file_occurrences : gmap str (list (path * str));
  scan_stats : ScanStats
}.

(** [EnhancedScanner()] *)
Definition init (base : path) : Scanner :=
  mkScanner base ∅ ∅ (mkScanStats 0 0 0 ∅).

(** The hosts with the path that a URL must contain. *)
Definition domains : list str :=
  [lit "discord.com/api/webhooks/"; lit "discordapp.com/api/webhooks/"].

(** [_is_valid_webhook] *)
Definition _is_valid_webhook (url : str) : result bool :=
  if negb (truthy url) || (length url <? 50)%nat then Ok false else
  let url_lower := lower url in
  if negb (existsb (fun domain => contains domain url_lower) domains) then Ok false else
  let parts := split "/" url in
  if (length parts <? 7)%nat then Ok false else
  webhook_id ← index parts (-2);
  webhook_token ← index parts (-1);
  if negb (isdigit webhook_id) || (length webhook_id <? 17)%nat then Ok false else
  if (length webhook_token <? 50)%nat
     || negb (forallb (fun c => isalnum_c c || in_chars c (lit "-_")) webhook_token)
  then Ok false
  else Ok true.

(** [parts.index(x)]: the first position of [x]. *)
Fixpoint list_index (x : str) (l : list str) : result nat :=
  match l with
  | [] => Raise ValueError
  | y :: l' => if str_eqb y x then Ok 0%nat else i ← list_index x l'; Ok (S i)
  end.

(** Truth value of a local that is [None] or a string. *)
Definition truthy_opt (o : option str) : bool :=
  match o with
  | Some s => truthy s
  | None => false
  end.

(** The body of [_extract_resource_name] once [parts] is known. *)
Definition resource_of_parts (parts : list str) : result str :=
  if negb (bool_decide (parts <> [])) then Ok (lit "unknown") else
  resource_name ←
    (if existsb (str_eqb (lit "resources")) parts then
       res_idx ← list_index (lit "resources") parts;
       if (res_idx + 1 <? length parts)%nat
       then x ← index parts (Z.of_nat res_idx + 1); Ok (Some x)
       else Ok None
     else Ok None);
  resource_name ←
    (if negb (truthy_opt resource_name) && (1 <=? length parts)%nat then
       first ← index parts 0;
       if startswith first (lit "[") && endswith first (lit "]") then
         if (2 <=? length parts)%nat
         then x ← index parts 1; Ok (Some x)
         else Ok (Some first)
       else Ok (Some first)
     else Ok resource_name);
  match resource_name with
  | Some nm =>
      if truthy nm then
        let nm' := strip (strip_chars (lit "[]") nm) in
        Ok (if truthy nm' then nm' else lit "unknown")
      else Ok (lit "unknown")
  | None => Ok (lit "unknown")
  end.

(** [_extract_resource_name]: any exception gives ['unknown']. *)
Definition _extract_resource_name (base file_path : path) : str :=
  try_except
    (relative ← relative_to file_path base; resource_of_parts relative)
    (fun _ => lit "unknown").

(** The four updates made for a validated match. *)
Definition record_match (file_path : path) (resource_name webhook_url : str)
    (sc : Scanner) : Scanner :=
  let st := scan_stats sc in
  mkScanner (base_path sc)
    (<[resource_name :=
         default ∅ (webhooks_by_resource sc !! resource_name) ∪ {[webhook_url]}]>
       (webhooks_by_resource sc))
    (<[webhook_url :=
         default [] (file_occurrences sc !! webhook_url) ++ [(file_path, resource_name)]]>
       (file_occurrences sc))
    (mkScanStats (files_scanned st) (S (webhooks_found st)) (files_with_webhooks st)
       (resources_found st ∪ {[resource_name]})).

Definition count_file_with_webhooks (sc : Scanner) : Scanner :=
  let st := scan_stats sc in
  mkScanner (base_path sc) (webhooks_by_resource sc) (file_occurrences sc)
    (mkScanStats (files_scanned st) (webhooks_found st) (S (files_with_webhooks st))
       (resources_found st)).

(** The body of both match loops: validate the candidate, record it. A
    group that did not take part is [None], which the validator rejects. *)
Definition scan_candidate (file_path : path) (resource_name : str)
    (candidate : option str) (found_any : bool) : prog (World * Scanner) bool :=
  match candidate with
  | Some webhook_url =>
      valid ← lift (_is_valid_webhook webhook_url);
      if (valid : bool)
      then modify (fun s => (fst s, record_match file_path resource_name webhook_url (snd s)))
             ≫= fun _ => mret true
      else mret found_any
  | None => mret found_any
  end.

(** [_scan_file] *)
Definition _scan_file (file_path : path) : prog (World * Scanner) unit :=
  try_
    (content ← on_fst (read_text file_path);
     s ← get;
     let resource_name := _extract_resource_name (base_path (snd s)) file_path in
     found_any ← for_fold (finditer true webhook_url_pattern content) false
       (fun m found => scan_candidate file_path resource_name (Some (group0 m)) found);
     found_any ← for_fold webhook_value_patterns found_any
       (fun pattern found =>
          for_fold (finditer true pattern content) found
            (fun m found' => scan_candidate file_path resource_name (captured m) found'));
     if (found_any : bool)
     then modify (fun s => (fst s, count_file_with_webhooks (snd s)))
     else mret tt)
    (fun _ => mret tt).

(** The candidates of a text, in the order in which [_scan_file] meets them. *)
Definition candidates (content : str) : list (option str) :=
  map (fun m => Some (group0 m)) (finditer true webhook_url_pattern content)
  ++ flat_map (fun pattern => map captured (finditer true pattern content))
       webhook_value_patterns.

(** [Config.file_extensions] and [Config.skip_folders] *)
Definition file_extensions : list str :=
  map lit [".lua"; ".js"; ".ts"; ".jsx"; ".tsx"; ".json"; ".cfg"; ".config";
           ".txt"; ".md"; ".env"; ".xml"; ".yml"; ".yaml"; ".ini"; ".toml"]%string.

Definition skip_folders : list str :=
  map lit ["node_modules"; ".git"; "__pycache__"; "cache"; "logs"; ".idea";
           ".vscode"; "dist"; "build"; "target"; "obj"; "bin"]%string.

(** What [os.walk] reports of a directory: its sub-directories and its other
    entries, each in the order of the listing.  A sub-directory that is a
    symbolic link is listed but, with [followlinks=False], not entered: it
    carries no tree. *)
Unset Elimination Schemes.
Inductive tree : Type :=
| Node (dirs : list (str * option tree)) (files : list str).
Set Elimination Schemes.

(** [any(skip in d.lower() for skip in config.skip_folders)] *)
Definition skipped (d : str) : bool :=
  existsb (fun skip => contains skip (lower d)) skip_folders.

(** [any(file.lower().endswith(ext) for ext in config.file_extensions)] *)
Definition wanted (file : str) : bool :=
  existsb (fun ext => endswith (lower file) ext) file_extensions.

(** [_get_all_files]: the walk goes top down; the directories taken out of
    [dirs] are not entered; the files of a directory come before those of
    its sub-directories. *)
Fixpoint _get_all_files (root : path) (t : tree) : list path :=
  match t with
  | Node dirs files =>
      map (joinpath root) (List.filter wanted files)
      ++ flat_map (fun d =>
                     if skipped (fst d) then []
                     else match snd d with
                          | Some sub => _get_all_files (joinpath root (fst d)) sub
                          | None => []
                          end) dirs
  end.

(** [self.scan_stats['files_scanned'] = len(files)] *)
Definition set_files_scanned (n : nat) (sc : Scanner) : Scanner :=
  let st := scan_stats sc in
  mkScanner (base_path sc) (webhooks_by_resource sc) (file_occurrences sc)
    (mkScanStats n (webhooks_found st) (files_with_webhooks st) (resources_found st)).

(** [scan], over the tree below [base_path].  The progress callback only
    sends messages and drops its own failures; it is left out. *)
Definition scan (t : tree) : prog (World * Scanner) (gmap str (gset str)) :=
  s ← get;
  let files := _get_all_files (base_path (snd s)) t in
  for_each files _scan_file ≫= fun _ =>
  modify (fun s => (fst s, set_files_scanned (length files) (snd s))) ≫= fun _ =>
  s ← get;
  mret (webhooks_by_resource (snd s)).

End EnhancedScanner.

(** ** The guild

    The remote platform as the program sees it: the channels of the guild,
    and two calls that create a text channel and a webhook.  Each call takes
    the platform's answer from [responses]; when none is left the call
    fails.  A created channel carries the name that was asked for and joins
    the channels of the guild, as the client library caches it. *)
Module Discord.
Import Py.

Inductive channel_kind : Type :=
| CategoryChannel
| TextChannel
| VoiceChannel.

Record Channel : Type := mkChannel {
  ch_id : Z;
  ch_name : str;
  ch_kind : channel_kind;
  ch_category_id : option Z
}.

Inductive response : Type :=
| Failed (e : exn)
| Created (id : Z) (url : str).

Inductive call : Type :=
| CreateTextChannel (nm : str) (category : Z)
| CreateWebhook (channel : Z) (nm : str).

Record Guild : Type := mkGuild {
  channels : list Channel;
  responses : list response;
  calls : list call
}.

Global Instance channel_kind_eq_dec : EqDecision channel_kind.
Proof. solve_decision. Defined.

(** [guild.get_channel(id)] *)
Definition get_channel (g : Guild) (id : Z) : option Channel :=
  find (fun c => bool_decide (ch_id c = id)) (channels g).

(** [guild.text_channels] *)
Definition text_channels (g : Guild) : list Channel :=
  filter (fun c => ch_kind c = TextChannel) (channels g).

(** [discord.utils.get(guild.text_channels, name=nm, category_id=cat)] *)
Definition get_text_channel (g : Guild) (nm : str) (cat : Z) : option Channel :=
  find (fun c => bool_decide (ch_name c = nm) && bool_decide (ch_category_id c = Some cat))
    (text_channels g).

Definition next_response (g : Guild) : response * Guild :=
  match responses g with
  | [] => (Failed HTTPException, g)
  | r :: rs => (r, mkGuild (channels g) rs (calls g))
  end.

Definition log_call (c : call) (g : Guild) : Guild :=
  mkGuild (channels g) (responses g) (calls g ++ [c]).

Definition add_channel (c : Channel) (g : Guild) : Guild :=
  mkGuild (channels g ++ [c]) (responses g) (calls g).

(** [await guild.create_text_channel(name=nm, category=category)] *)
Definition create_text_channel (nm : str) (category : Channel) : prog Guild Channel :=
  fun g =>
    match next_response (log_call (CreateTextChannel nm (ch_id category)) g) with
    | (Created id _, g') =>
        let c := mkChannel id nm TextChannel (Some (ch_id category)) in
        (add_channel c g', Ok c)
    | (Failed e, g') => (g', Raise e)
    end.

(** [await channel.create_webhook(name=nm)], giving [webhook.url] *)
Definition create_webhook (channel : Channel) (nm : str) : prog Guild str :=
  fun g =>
    match next_response (log_call (CreateWebhook (ch_id channel) nm) g) with
    | (Created _ url, g') => (g', Ok url)
    | (Failed e, g') => (g', Raise e)
    end.

End Discord.

(** ** class WebhookCreator *)
Module WebhookCreator.
Import Py Discord.

Record ChannelRecord : Type := mkChannelRecord {
  rec_name : str;
  rec_id : Z;
  rec_resource : str;
  rec_webhook_count : nat
}.

(** What the progress callback is told about a resource. *)
Inductive notice : Type :=
| CategoryNotFound
| Reusing (resource_name : str)
| CreatedChannel (resource_name : str)
| Skipped (resource_name : str) (e : exn).

Record Creator : Type := mkCreator {
  category_id : Z;
  webhook_mappings : list (str * str);
  created_channels : list ChannelRecord;
  notices : list notice
}.

(** [WebhookCreator(guild, category_id)] *)
Definition init (category : Z) : Creator := mkCreator category [] [] [].

Definition State : Type := (Guild * Creator)%type.

Definition add_notice (n : notice) (c : Creator) : Creator :=
  mkCreator (category_id c) (webhook_mappings c) (created_channels c) (notices c ++ [n]).

Definition add_record (r : ChannelRecord) (c : Creator) : Creator :=
  mkCreator (category_id c) (webhook_mappings c) (created_channels c ++ [r]) (notices c).

Definition add_mapping (old_url new_url : str) (c : Creator) : Creator :=
  mkCreator (category_id c) (dict_set old_url new_url (webhook_mappings c))
    (created_channels c) (notices c).

(** [await progress_callback(...)] *)
Definition notify (n : notice) : prog State unit :=
  modify (fun s : State => (fst s, add_notice n (snd s))).

(** [self.created_channels.append(...)] *)
Definition append_channel (r : ChannelRecord) : prog State unit :=
  modify (fun s : State => (fst s, add_record r (snd s))).

(** [self.webhook_mappings[old_url] = new_url] *)
Definition set_mapping (old_url new_url : str) : prog State unit :=
  modify (fun s : State => (fst s, add_mapping old_url new_url (snd s))).

Definition word_of (w : string) : regex := seq [WordB; lits w; WordB].
Definition blank_c (c : ascii) : bool := isspace_c c || Ascii.eqb c "_".
Definition unsafe_c (c : ascii) : bool :=
  negb (in_range 97 122 c || in_range 48 57 c || Ascii.eqb c "-").
Definition hyphen_c (c : ascii) : bool := Ascii.eqb c "-".

(** [_sanitize_name] *)
Definition _sanitize_name (nm : str) : str :=
  let nm := lower nm in
  let nm := re_sub true (word_of "discord") (lit "disc") nm in
  let nm := re_sub true (word_of "clyde") (lit "assistant") nm in
  let nm := re_sub false (Plus blank_c) (lit "-") nm in
  let nm := re_sub false (Class unsafe_c) [] nm in
  let nm := re_sub false (Plus hyphen_c) (lit "-") nm in
  let nm := strip_chars (lit "-") nm in
  if truthy nm then firstn 100 nm else lit "resource-logs".

(** The name of the [webhook_idx]-th webhook of a resource. *)
Definition webhook_name (resource_name : str) (n webhook_idx : nat) : str :=
  if (n =? 1)%nat then resource_name
  else resource_name ++ lit "-" ++ str_of_nat webhook_idx.

(** The inner loop of [create_all], over [enumerate(sorted(old_webhooks), 1)]. *)
Fixpoint create_webhooks (channel : Channel) (resource_name : str) (n : nat)
    (webhook_idx : nat) (urls : list str) : prog State unit :=
  match urls with
  | [] => mret tt
  | old_url :: urls' =>
      new_url ← on_fst (create_webhook channel (webhook_name resource_name n webhook_idx));
      set_mapping old_url new_url ≫= fun _ =>
      create_webhooks channel resource_name n (S webhook_idx) urls'
  end.

(** The [try] block of [create_all] for one resource.  [Some b] stands for
    [return b]; [None] lets the loop go on. *)
Definition provision (resource_name : str) (old_webhooks : gset str)
    : prog State (option bool) :=
  let channel_name := _sanitize_name (resource_name ++ lit "-logs") in
  s ← get;
  match get_channel (fst s) (category_id (snd s)) with
  | None => notify CategoryNotFound ≫= fun _ => mret (Some false)
  | Some category =>
      channel ←
        match get_text_channel (fst s) channel_name (category_id (snd s)) with
        | Some existing_channel =>
            notify (Reusing resource_name) ≫= fun _ => mret existing_channel
        | None =>
            channel ← on_fst (create_text_channel channel_name category);
            notify (CreatedChannel resource_name) ≫= fun _ => mret channel
        end;
      append_channel
        (mkChannelRecord channel_name (ch_id channel) resource_name (size old_webhooks))
        ≫= fun _ =>
      create_webhooks channel resource_name (size old_webhooks) 1
        (sorted_by id (elements old_webhooks)) ≫= fun _ =>
      mret None
  end.

(** One turn of the loop: the [try] block with its two handlers, which both
    report and [continue]. *)
Definition provision_or_skip (item : str * gset str) : prog State (option bool) :=
  try_ (provision (fst item) (snd item))
       (fun e => notify (Skipped (fst item) e) ≫= fun _ => mret None).

(** The loop of [create_all] over the sorted items. *)
Fixpoint create_loop (items : list (str * gset str)) : prog State bool :=
  match items with
  | [] => mret true
  | item :: items' =>
      r ← provision_or_skip item;
      match r with
      | Some b => mret b
      | None => create_loop items'
      end
  end.

(** [create_all] *)
Definition create_all (webhooks_by_resource : gmap str (gset str)) : prog State bool :=
  create_loop (sorted_by fst (map_to_list webhooks_by_resource)).

(** Steps 1 to 3 of the command, seen from the provisioner: with no webhook
    found the command returns before provisioning; when [create_all] gives
    [False] it returns before the rewrite. *)
Inductive stage : Type :=
| NoWebhooksFound
| ProvisioningFailed
| ReadyToRewrite.

Definition provisioning_stage (webhooks_by_resource : gmap str (gset str))
    : prog State stage :=
  if bool_decide (webhooks_by_resource = ∅) then mret NoWebhooksFound
  else
    success ← create_all webhooks_by_resource;
    if (success : bool) then mret ReadyToRewrite else mret ProvisioningFailed.

End WebhookCreator.

(** ** class FileUpdater *)
Module FileUpdater.
Import Py OS.

Record Config : Type := mkConfig {
  create_backups : bool;
  backup_dir : path
}.

Record Stats : Type := mkStats {
  files_updated : nat;
  replacements : nat;
  files_backed_up : nat
}.

(** [FileUpdater()] *)
Definition init : Stats := mkStats 0 0 0.

Definition State : Type := (World * Stats)%type.

(** The loop over [webhook_mappings.items()]: the text and the number of
    replacements so far. *)
Definition replace_one (acc : str * nat) (item : str * str) : str * nat :=
  let '(content, n) := acc in
  let '(old_url, new_url) := item in
  if contains old_url content
  then (replace content old_url new_url, (n + count content old_url)%nat)
  else (content, n).

Definition replace_all (webhook_mappings : list (str * str)) (content : str) : str * nat :=
  fold_left replace_one webhook_mappings (content, 0%nat).

(** The name tried when the counter is [counter]. *)
Definition numbered (dir file_path : path) (counter : nat) : path :=
  joinpath dir (stem file_path ++ lit "_" ++ str_of_nat counter ++ suffix file_path).

(** [while backup_file.exists(): ...], run for at most [fuel] tests. *)
Fixpoint free_backup_file (fuel : nat) (w : World) (dir file_path : path)
    (backup_file : path) (counter : nat) : option path :=
  match fuel with
  | O => None
  | S fuel' =>
      if exists_ backup_file w
      then free_backup_file fuel' w dir file_path (numbered dir file_path counter) (S counter)
      else Some backup_file
  end.

(** The loop needs at most as many tests as there are files, and two more. *)
Definition enough_fuel (w : World) : nat := S (S (size (files w))).

Definition choose_backup_file (dir file_path : path) : prog World path := fun w =>
  match free_backup_file (enough_fuel w) w dir file_path (joinpath dir (name file_path)) 1 with
  | Some backup_file => (w, Ok backup_file)
  | None => (w, Raise OtherException)
  end.

Definition count_backup : prog State unit :=
  modify (fun s : State =>
    (fst s, mkStats (files_updated (snd s)) (replacements (snd s)) (S (files_backed_up (snd s))))).

Definition count_update (n : nat) : prog State unit :=
  modify (fun s : State =>
    (fst s, mkStats (S (files_updated (snd s))) (replacements (snd s) + n) (files_backed_up (snd s)))).

(** The backup of the original text, when backups are wanted. *)
Definition backup (config : Config) (file_path : path) (backup_dir : option path)
    (original : str) : prog State unit :=
  match backup_dir with
  | Some dir =>
      if create_backups config then
        backup_file ← on_fst (choose_backup_file dir file_path);
        on_fst (write_text BackupWrite backup_file original) ≫= fun _ =>
        count_backup
      else mret tt
  | None => mret tt
  end.

(** The [try] block of [_update_file]. *)
Definition update_body (config : Config) (file_path : path)
    (webhook_mappings : list (str * str)) (backup_dir : option path) : prog State unit :=
  content ← on_fst (read_text file_path);
  let original := content in
  let '(content, n) := replace_all webhook_mappings content in
  if (0 <? n)%nat then
    backup config file_path backup_dir original ≫= fun _ =>
    on_fst (write_text InPlaceWrite file_path content) ≫= fun _ =>
    count_update n
  else mret tt.

(** [_update_file]: whatever the block raises is dropped. *)
Definition _update_file (config : Config) (file_path : path)
    (webhook_mappings : list (str * str)) (backup_dir : option path) : prog State unit :=
  try_ (update_body config file_path webhook_mappings backup_dir) (fun _ => mret tt).

(** The loop of [update_all] over the files to update. *)
Definition update_files (config : Config) (files_to_update : list path)
    (webhook_mappings : list (str * str)) (backup_dir : option path) : prog State unit :=
  for_each files_to_update
    (fun file_path => _update_file config file_path webhook_mappings backup_dir).

(** The files in which a mapped URL was found. *)
Definition files_to_update (webhook_mappings : list (str * str))
    (file_occurrences : gmap str (list (path * str))) : gset path :=
  list_to_set
    (flat_map (fun item => map fst (default [] (file_occurrences !! fst item)))
       webhook_mappings).

(** [backup_dir.mkdir(parents=True, exist_ok=True)] *)
Definition mkdir (dir : path) : prog World unit := fun w =>
  match next_outcome w with
  | (Success, w') => (w', Ok tt)
  | (_, w') => (w', Raise OSError)
  end.

(** [update_all]; [now] is the time stamp of the run.  A Python [set] is
    iterated in no particular order; the model takes the order of
    [elements]. *)
Definition update_all (config : Config) (now : str)
    (webhook_mappings : list (str * str))
    (file_occurrences : gmap str (list (path * str))) : prog State unit :=
  dir ←
    (if create_backups config then
       let dir := joinpath (backup_dir config) now in
       on_fst (mkdir dir) ≫= fun _ => mret (Some dir)
     else mret None);
  update_files config (elements (files_to_update webhook_mappings file_occurrences))
    webhook_mappings dir.

End FileUpdater.

(** ** The words of the specification

    What the specification says of a valid URL, of the host of a URL and of
    an occurrence, stated on strings and independent of the code. *)
Module Spec.
Import Py.

(** [sub] occurs in [s]. *)
Definition substring (sub s : str) : Prop := exists a b, s = a ++ sub ++ b.

Definition accepted_hosts : list str := [lit "discord.com"; lit "discordapp.com"].

Definition all_digits (s : str) : Prop := Forall (fun c => isdigit_c c = true) s.

Definition token_char (c : ascii) : Prop :=
  isalnum_c c = true \/ c = "-"%char \/ c = "_"%char.


(** A URL composed of an id and a token. *)
Definition compose (id token : str) : str :=
  lit "https://discord.com/api/webhooks/" ++ id ++ lit "/" ++ token.

(** A path segment holds no slash. *)
Definition segment (s : str) : Prop := Forall (fun c => c <> "/"%char) s.

(** The host of a URL: what stands between [//] and the next slash. *)
Definition hostname (u : str) : option str := nth_error (split "/" u) 2.

End Spec.

(** ** Sample data

    The strings, files and guild of the examples. *)
Module Sample.
Import Py OS Discord Spec.

Definition token_a : str := lit "AAAAAAAAAAAAAAAAAAAAAAAAAAAAAAAAAAAAAAAAAAAAAAAAAA".
Definition token_b : str := lit "BBBBBBBBBBBBBBBBBBBBBBBBBBBBBBBBBBBBBBBBBBBBBBBBBB".
Definition id_a : str := lit "123456789012345678".
Definition id_b : str := lit "987654321098765432".

Definition old_url : str := compose id_a token_a.
Definition new_url : str := compose id_b token_b.

(** A URL of another host whose text ends like a webhook URL. *)
Definition foreign_url : str :=
  lit "https://notdiscord.com/api/webhooks/" ++ id_a ++ lit "/" ++ token_a.

Definition other_url : str := compose id_a token_b.
Definition third_url : str := compose id_b token_a.
Definition new_url2 : str := compose id_b (token_b ++ lit "2").

Definition root : path := [lit "srv"].
Definition config_lua : path := [lit "srv"; lit "resources"; lit "shop"; lit "config.lua"].
Definition alerts_lua : path := [lit "srv"; lit "resources"; lit "shop"; lit "alerts.lua"].

(** [webhook = '<url>'] *)
Definition assignment (url : str) : str := lit "webhook = '" ++ url ++ lit "'".

Definition posix (fs : gmap path str) (faults : list outcome) : World :=
  mkWorld fs [LF] faults [].

(** A guild with the category 1 and nothing else. *)
Definition guild (responses : list response) : Guild :=
  mkGuild [mkChannel 1 (lit "qb-logs") CategoryChannel None] responses [].

(** The configuration and the backup directory of a run. *)
Definition backups : path := [lit "webhook_backups"; lit "20240101_120000"].


(** The same guild once the channel of [shop] exists. *)
Definition category_channel : Channel := mkChannel 1 (lit "qb-logs") CategoryChannel None.
Definition shop_channel : Channel := mkChannel 7 (lit "shop-logs") TextChannel (Some 1).

Definition guild_with_shop (responses : list response) : Guild :=
  mkGuild [category_channel; shop_channel] responses [].

End Sample.

(** ** The words of the specification: attribution *)
Module AttributionSpec.
Import Py.

Definition marker : str := lit "resources".
Definition unknown : str := lit "unknown".

(** The chosen segment without its surrounding brackets and then without its
    surrounding whitespace; the sentinel when nothing is left. *)
Definition clean (segment : str) : str :=
  match strip (strip_chars (lit "[]") segment) with
  | [] => unknown
  | c :: s => c :: s
  end.

(** [[category]]: the segment starts with an opening and ends with a
    closing bracket. *)
Definition bracket_delimited (s : str) : Prop :=
  (exists t, s = lit "[" ++ t) /\ (exists t, s = t ++ lit "]").

(** [x] follows the first segment that is the marker. *)
Definition follows_marker (parts : list str) (x : str) : Prop :=
  exists pre post, parts = pre ++ marker :: x :: post /\ ~ In marker pre.

(** The parts of a [pathlib] path are never empty. *)
Definition well_formed (parts : list str) : Prop := Forall (fun p => p <> []) parts.

End AttributionSpec.

(** ** The matches that a scan records *)
Module ScanSpec.
Import Py EnhancedScanner.

(** The verdict of the validator as a boolean. *)
Definition is_valid (url : str) : bool :=
  match _is_valid_webhook url with
  | Ok b => b
  | Raise _ => false
  end.

(** The candidates that pass the validator, one per match. *)
Definition accepted_of (cands : list (option str)) : list str :=
  flat_map (fun c => match c with
                     | Some url => if is_valid url then [url] else []
                     | None => []
                     end) cands.

Definition accepted (content : str) : list str := accepted_of (candidates content).

(** The number of matches, over all patterns, that yield [url]. *)
Definition matches_of (url content : str) : nat :=
  length (filter (fun u => u = url) (accepted content)).

(** The state after the matches [urls] of one file have been recorded. *)
Definition record_all (file_path : path) (resource_name : str) (urls : list str)
    (sc : Scanner) : Scanner :=
  fold_left (fun sc url => record_match file_path resource_name url sc) urls sc.

Definition has_any (urls : list str) : bool :=
  match urls with
  | [] => false
  | _ :: _ => true
  end.

Definition found (urls : list str) (sc : Scanner) : Scanner :=
  match urls with
  | [] => sc
  | _ :: _ => count_file_with_webhooks sc
  end.

(** The number of entries of a URL in a set: the URL set of a resource
    holds a URL once or not at all. *)
Definition entries (url : str) (urls : gset str) : nat :=
  length (filter (fun u => u = url) (elements urls)).

End ScanSpec.

(** ** The words of the specification: provisioning *)
Module ProvisionSpec.
Import Py Discord WebhookCreator.

(** The channel of a resource. *)
Definition channel_name (resource_name : str) : str :=
  _sanitize_name (resource_name ++ lit "-logs").

(** The mapping after the pairs [items] have been entered in order. *)
Definition set_all (items : list (str * str)) (d : list (str * str)) : list (str * str) :=
  fold_left (fun d item => dict_set (fst item) (snd item) d) items d.

Definition is_channel_creation (c : call) : Prop :=
  match c with
  | CreateTextChannel _ _ => True
  | CreateWebhook _ _ => False
  end.

Definition is_webhook_creation (channel : Z) (c : call) : Prop :=
  exists nm, c = CreateWebhook channel nm.

(** The record that [create_all] appends for a resource. *)
Definition record_of (resource_name : str) (channel : Channel) (old_webhooks : gset str)
    : ChannelRecord :=
  mkChannelRecord (channel_name resource_name) (ch_id channel) resource_name
    (size old_webhooks).

(** The list of provisioned channels has a record for the resource. *)
Definition has_record (resource_name : str) (c : Creator) : Prop :=
  exists r, In r (created_channels c) /\ rec_resource r = resource_name.

(** The guild as a later run finds it: the same channels, other answers. *)
Definition later (g : Guild) (responses : list response) : Guild :=
  mkGuild (channels g) responses [].

(** The URLs of a resource in the order of the inner loop. *)
Definition sorted_urls (old_webhooks : gset str) : list str :=
  sorted_by id (elements old_webhooks).

(** What follows once the channel is known: the record, then the webhooks. *)
Definition record_and_create (r : str) (urls : gset str) (channel : Channel)
    (s : State) : State * result (option bool) :=
  match create_webhooks channel r (size urls) 1 (sorted_urls urls)
          (fst s, add_record (record_of r channel urls) (snd s)) with
  | (s', Ok _) => (s', Ok None)
  | (s', Raise e) => (s', Raise e)
  end.

End ProvisionSpec.

(** ** What a stretch of provisioning may do *)
Module ProvisionInv.
Import Py Discord WebhookCreator ProvisionSpec.

(** From [s] to [s'], while the resources [resources] are provisioned:
    channels and calls are only added; a channel is asked for only under
    the name of one of the resources, and only when no channel of that name
    was found; channels are added by such calls only; and a new record is
    the record of one of the resources, whose channel is then found. *)
Inductive grows (resources : list str) (s s' : State) : Prop :=
| Grows (added : list Channel) (new_calls : list call)
    (same_category : category_id (snd s') = category_id (snd s))
    (channels_grow : channels (fst s') = channels (fst s) ++ added)
    (calls_grow : calls (fst s') = calls (fst s) ++ new_calls)
    (creation_needed :
       forall nm cat, In (CreateTextChannel nm cat) new_calls ->
         exists r, In r resources /\ nm = channel_name r /\
                   get_text_channel (fst s) nm (category_id (snd s)) = None)
    (added_by_creation : added <> [] -> Exists is_channel_creation new_calls)
    (records_found :
       forall rec, In rec (created_channels (snd s')) ->
         In rec (created_channels (snd s)) \/
         (In (rec_resource rec) resources /\
          is_Some (get_text_channel (fst s') (channel_name (rec_resource rec))
                     (category_id (snd s))))).

End ProvisionInv.

(** ** The words of the specification: rewriting *)
Module RewriteSpec.
Import Py OS FileUpdater.



(** The raw text has no carriage return. *)
Definition no_cr (raw : str) : Prop :=
  forallb (fun c => negb (Ascii.eqb c CR)) raw = true.

(** The paths that the events open for a backup. *)
Definition backup_targets (events : list event) : list path :=
  flat_map (fun e => match e with
                     | Opened BackupWrite p => [p]
                     | _ => []
                     end) events.

(** The file is opened for the rewrite itself. *)
Definition opens_in_place (file_path : path) (events : list event) : Prop :=
  In (Opened InPlaceWrite file_path) events.

(** The file is in the directory. *)
Definition inside (dir p : path) : Prop := exists nm, p = joinpath dir nm.

End RewriteSpec.

(** ** What the rewrite of files may do *)
Module UpdateInv.
Import Py OS FileUpdater RewriteSpec.

(** From [s] to [s'], over the rewrite of one file whose [try] block ended
    with [r]: the log grows by [new]; a path opened for a backup was absent
    before, is present after and lies in the backup directory, and there is
    at most one; the file keeps its content unless it was opened for the
    rewrite; every other file that existed keeps its content; no file
    disappears; and when the block raised, the file is not counted as
    updated and, if it had been opened, holds a prefix of some text. *)
Inductive step_effect (backup_dir : option path) (file_path : path) (r : result unit)
    (s s' : State) : Prop :=
| StepEffect (new : list event)
    (same_linesep : linesep (fst s') = linesep (fst s))
    (log_grows : io_log (fst s') = io_log (fst s) ++ new)
    (backup_fresh :
       forall b, In b (backup_targets new) ->
         files (fst s) !! b = None /\ is_Some (files (fst s') !! b) /\
         exists dir, backup_dir = Some dir /\ inside dir b)
    (one_backup : NoDup (backup_targets new))
    (untouched :
       ~ opens_in_place file_path new ->
       files (fst s') !! file_path = files (fst s) !! file_path)
    (others :
       forall q, q <> file_path -> is_Some (files (fst s) !! q) ->
         files (fst s') !! q = files (fst s) !! q)
    (kept : forall q, is_Some (files (fst s) !! q) -> is_Some (files (fst s') !! q))
    (broken :
       forall e, r = Raise e ->
         files_updated (snd s') = files_updated (snd s) /\
         replacements (snd s') = replacements (snd s) /\
         (opens_in_place file_path new ->
          exists text k,
            files (fst s') !! file_path
            = Some (firstn k (newlines_out (linesep (fst s)) text)))).


End UpdateInv.

(** ** The files below a directory *)
Module WalkSpec.
Import Py EnhancedScanner.

(** [rel] leads from a directory to a file below it: the names of the
    sub-directories that are entered, then the name of the file. *)
Inductive leads_to : tree -> list str -> Prop :=
| leads_here (dirs : list (str * option tree)) (files : list str) (file : str) :
    In file files -> leads_to (Node dirs files) [file]
| leads_below (dirs : list (str * option tree)) (files : list str)
    (d : str) (sub : tree) (rel : list str) :
    In (d, Some sub) dirs -> leads_to sub rel -> leads_to (Node dirs files) (d :: rel).

(** In every directory the sub-directories have distinct names, and so have
    the other entries. *)
Inductive distinct_names : tree -> Prop :=
| DistinctNames (dirs : list (str * option tree)) (files : list str) :
    NoDup (map fst dirs) ->
    NoDup files ->
    (forall d sub, In (d, Some sub) dirs -> distinct_names sub) ->
    distinct_names (Node dirs files).

End WalkSpec.

(** ** A sample server tree *)
Module SampleTree.
Import Py EnhancedScanner.

Definition shop : tree := Node [] [lit "config.lua"; lit "README"].
Definition qb_logs : tree := Node [] [lit "config.lua"].

(** [resources/] with the resources [shop] and [qb-logs] and a link. *)
Definition resources : tree :=
  Node [(lit "shop", Some shop); (lit "qb-logs", Some qb_logs); (lit "linked", None)] [].

Definition server : tree := Node [(lit "resources", Some resources)] [lit "server.cfg"].

End SampleTree.

(** ** What a scan keeps true of its indexes *)
Module ScanInv.
Import Py OS EnhancedScanner ScanSpec.

(** The number of entries of all the occurrence lists. *)
Definition count_entries (url : str) (l : list (path * str)) (n : nat) : nat :=
  (length l + n)%nat.

Definition total_occurrences (sc : Scanner) : nat :=
  map_fold count_entries 0%nat (file_occurrences sc).

(** The two indexes agree with each other and with the statistics, once
    the files [scanned] have been scanned. *)
Record indexed (scanned : list path) (sc : Scanner) : Prop := Indexed {
  resources_are_keys :
    resources_found (scan_stats sc) = dom (webhooks_by_resource sc);
  urls_valid :
    forall r u, u ∈ default ∅ (webhooks_by_resource sc !! r) ->
      _is_valid_webhook u = Ok true;
  sets_not_empty :
    forall r urls, webhooks_by_resource sc !! r = Some urls -> urls <> ∅;
  urls_located :
    forall r u, u ∈ default ∅ (webhooks_by_resource sc !! r) <->
      exists p, In (p, r) (default [] (file_occurrences sc !! u));
  lists_not_empty :
    forall u l, file_occurrences sc !! u = Some l -> l <> [];
  entries_attributed :
    forall u p r, In (p, r) (default [] (file_occurrences sc !! u)) ->
      In p scanned /\ r = _extract_resource_name (base_path sc) p;
  found_counted :
    webhooks_found (scan_stats sc) = total_occurrences sc
}.

Definition consistent (scanned : list path) (sc : Scanner) : Prop :=
  indexed scanned sc /\
  (files_with_webhooks (scan_stats sc) <= length scanned)%nat /\
  (files_with_webhooks (scan_stats sc) <= webhooks_found (scan_stats sc))%nat.

End ScanInv.

(** ** What a match may hold *)
Module RegexSpec.
Import Py Spec.

(** The characters that a part of the pattern can pass over. *)
Fixpoint allowed (icase : bool) (r : regex) (x : ascii) : bool :=
  match r with
  | Eps => false
  | Lit c => lit_eqb icase c x
  | Class p => p x
  | Star p => p x
  | Plus p => p x
  | Opt r1 => allowed icase r1 x
  | Alt r1 r2 => allowed icase r1 x || allowed icase r2 x
  | Seq r1 r2 => allowed icase r1 x || allowed icase r2 x
  | Group r1 => allowed icase r1 x
  | WordB => false
  end.

(** The cursor [cur'] is reached from [cur] by passing over the text
    [passed], all of whose characters satisfy [ok]; the group is as before
    or holds a part of that text. *)
Definition reached (ok : ascii -> bool) (cur cur' : cursor) (passed : str) : Prop :=
  rest cur = passed ++ rest cur' /\
  before cur' = rev passed ++ before cur /\
  forallb ok passed = true /\
  (group1 cur' = group1 cur \/ exists g, group1 cur' = Some g /\ substring g passed).

(** The match stands in the text, and its group in the match. *)
Definition stands_in (ok : ascii -> bool) (m : rmatch) (s : str) : Prop :=
  substring (group0 m) s /\
  forallb ok (group0 m) = true /\
  (captured m = None \/ exists g, captured m = Some g /\ substring g (group0 m)).

End RegexSpec.

(** ** The characters of a webhook URL *)
Module UrlSpec.
Import Py EnhancedScanner.

(** The characters that can stand in a match of the URL pattern: those of
    a token, and the colon, the slash and the dot. *)
Definition url_char (c : ascii) : bool := token_c c || in_chars c (lit ":/.").

(** The text does not end with a character of a URL. *)
Definition ends_clear (pre : str) : Prop :=
  forall pre' d, pre = pre' ++ [d] -> url_char d = false.

(** The text does not begin with a character of a token. *)
Definition begins_clear (post : str) : Prop :=
  forall c post', post = c :: post' -> token_c c = false.

End UrlSpec.

(** ** What the records of a run say *)
Module RecordInv.
Import Py Discord WebhookCreator ProvisionSpec.

(** Every record names a channel that is found under its name in the
    category, with the identifier of the record. *)
Definition records_found (s : State) : Prop :=
  forall rec, In rec (created_channels (snd s)) ->
    rec_name rec = channel_name (rec_resource rec) /\
    exists ch, get_text_channel (fst s) (rec_name rec) (category_id (snd s)) = Some ch /\
               ch_id ch = rec_id rec.

(** The keys of a mapping. *)
Definition keys (d : list (str * str)) : list str := map fst d.

(** The URLs of all the resources of a list of items. *)
Definition urls_of (items : list (str * gset str)) : list str :=
  flat_map (fun item => elements (snd item)) items.

(** The platform accepts the call. *)
Definition is_created (r : response) : Prop :=
  match r with
  | Created _ _ => True
  | Failed _ => False
  end.

(** The calls that the items can take: a channel for each resource and a
    webhook for each of its URLs. *)
Definition calls_needed (items : list (str * gset str)) : nat :=
  (length items + length (urls_of items))%nat.

End RecordInv.

(** ** The shape of a channel name *)
Module SanitizeSpec.
Import Py WebhookCreator.

(** The characters of a channel name: [a-z0-9-]. *)
Definition safe_c (c : ascii) : bool :=
  in_range 97 122 c || in_range 48 57 c || Ascii.eqb c "-".

(** The characters of the class that stand at the head of a text. *)
Fixpoint run_of (p : ascii -> bool) (s : str) : str :=
  match s with
  | c :: s' => if p c then c :: run_of p s' else []
  | [] => []
  end.

(** A text in which every run of characters of the class is replaced by
    [repl]; [inrun] tells that the text goes on a run already replaced. *)
Fixpoint squeeze_from (p : ascii -> bool) (repl : str) (inrun : bool) (s : str) : str :=
  match s with
  | [] => []
  | c :: s' =>
      if p c then
        if inrun then squeeze_from p repl true s'
        else repl ++ squeeze_from p repl true s'
      else c :: squeeze_from p repl false s'
  end.

(** No two hyphens stand side by side. *)
Fixpoint single_hyphens (s : str) : bool :=
  match s with
  | c :: s' =>
      match s' with
      | d :: _ => negb (hyphen_c c && hyphen_c d) && single_hyphens s'
      | [] => true
      end
  | [] => true
  end.

(** The text does not begin with a hyphen. *)
Definition no_leading_hyphen (s : str) : bool :=
  match s with
  | c :: _ => negb (hyphen_c c)
  | [] => true
  end.

End SanitizeSpec.

(** ** The words of the specification: the rewrite of all files *)
Module UpdateSpec.
Import Py OS FileUpdater RewriteSpec.

(** The paths that the events open for the rewrite itself. *)
Definition inplace_targets (events : list event) : list path :=
  flat_map (fun e => match e with
                     | Opened InPlaceWrite p => [p]
                     | _ => []
                     end) events.

(** A backup is wanted. *)
Definition backing (config : Config) (backup_dir : option path) : bool :=
  match backup_dir with
  | Some _ => create_backups config
  | None => false
  end.


(** A world in which the next operation fails on opening. *)
Definition refused (w : World) : Prop :=
  exists o rest, faults w = o :: rest /\ o <> Success.

End UpdateSpec.

(** ** class Config *)
Module Configuration.
Import Py.

(** The settings read from the environment. *)
Record Config : Type := mkConfig {
  bot_token : str;
  guild_id : str;
  qb_logs_category_id : str;
  fivem_path : str
}.

(** [validate]; [path_exists s] stands for [Path(s).exists()]. *)
Definition validate (self : Config) (path_exists : str -> bool) : bool * list str :=
  let errors : list str := [] in
  let errors :=
    if negb (truthy (bot_token self))
    then errors ++ [lit "DISCORD_BOT_TOKEN required"] else errors in
  let errors :=
    if negb (truthy (guild_id self))
    then errors ++ [lit "DISCORD_GUILD_ID required"] else errors in
  let errors :=
    if negb (truthy (qb_logs_category_id self))
    then errors ++ [lit "QB_LOGS_CATEGORY_ID required"] else errors in
  let errors :=
    if negb (truthy (fivem_path self))
    then errors ++ [lit "FIVEM_RESOURCES_PATH required"]
    else if negb (path_exists (fivem_path self))
         then errors ++ [lit "FiveM path does not exist: " ++ fivem_path self]
         else errors in
  (length errors =? 0, errors)%nat.

(** The number of settings that are not given. *)
Definition missing (self : Config) : nat :=
  length (List.filter (fun s => negb (truthy s))
            [bot_token self; guild_id self; qb_logs_category_id self; fivem_path self]).

End Configuration.

(** ** The command [scan-webhooks]

    Steps 1 to 3 of the command: the scan, the provisioning and the
    rewrite, each on the results of the one before.  The category
    identifier is the number that the command makes of the setting.  What
    a step raises leaves the command through its handler, which reports
    it. *)
Module Command.
Import Py OS Discord EnhancedScanner.

Inductive verdict : Type :=
| NoWebhooks
| NotProvisioned
| Updated (stats : FileUpdater.Stats)
| Error (e : exn).

Record Outcome : Type := mkOutcome {
  world : World;
  guild : Guild;
  scanner : Scanner;
  mappings : list (str * str);
  result : verdict
}.

Definition scan_webhooks (config : FileUpdater.Config) (now : str) (base : path)
    (category : Z) (t : tree) (w : World) (g : Guild) : Outcome :=
  match scan t (w, EnhancedScanner.init base) with
  | ((w1, sc), Raise e) => mkOutcome w1 g sc [] (Error e)
  | ((w1, sc), Ok webhooks_by_resource) =>
      if bool_decide (webhooks_by_resource = ∅) then mkOutcome w1 g sc [] NoWebhooks
      else
        match WebhookCreator.create_all webhooks_by_resource
                (g, WebhookCreator.init category) with
        | ((g1, creator), Raise e) =>
            mkOutcome w1 g1 sc (WebhookCreator.webhook_mappings creator) (Error e)
        | ((g1, creator), Ok false) =>
            mkOutcome w1 g1 sc (WebhookCreator.webhook_mappings creator) NotProvisioned
        | ((g1, creator), Ok true) =>
            match FileUpdater.update_all config now
                    (WebhookCreator.webhook_mappings creator) (file_occurrences sc)
                    (w1, FileUpdater.init) with
            | ((w2, st), Raise e) =>
                mkOutcome w2 g1 sc (WebhookCreator.webhook_mappings creator) (Error e)
            | ((w2, st), Ok _) =>
                mkOutcome w2 g1 sc (WebhookCreator.webhook_mappings creator) (Updated st)
            end
        end
  end.

End Command.

(** * Properties *)

(** ** Strings and lists *)
Module PyFacts.
Import Py Spec.

Lemma Ok_inj {A : Type} (a b : A) : Ok a = Ok b -> a = b.
Proof. intros H. inversion H. reflexivity. Qed.

Lemma bind_Ok {A B : Type} (a : A) (k : A -> result B) : (Ok a ≫= k) = k a.
Proof. reflexivity. Qed.

Lemma bind_Raise {A B : Type} (e : exn) (k : A -> result B) : (Raise e ≫= k) = Raise e.
Proof. reflexivity. Qed.

Lemma try_except_Ok {A : Type} (a : A) (h : exn -> A) : try_except (Ok a) h = a.
Proof. reflexivity. Qed.

Lemma run_bind {St A B : Type} (m : prog St A) (k : A -> prog St B) (s : St) :
  (m ≫= k) s = match m s with
               | (s', Ok a) => k a s'
               | (s', Raise e) => (s', Raise e)
               end.
Proof. reflexivity. Qed.

Lemma run_ret {St A : Type} (a : A) (s : St) : (mret a : prog St A) s = (s, Ok a).
Proof. reflexivity. Qed.

Lemma run_on_fst {S1 S2 A : Type} (m : prog S1 A) (s1 : S1) (s2 : S2) :
  on_fst m (s1, s2) = ((fst (m s1), s2), snd (m s1)).
Proof. unfold on_fst. simpl. destruct (m s1). reflexivity. Qed.

Lemma ascii_eqb_true (a b : ascii) : Ascii.eqb a b = true <-> a = b.
Proof. apply Ascii.eqb_eq. Qed.

Lemma str_eqb_true (a b : str) : str_eqb a b = true <-> a = b.
Proof. unfold str_eqb. apply bool_decide_eq_true. Qed.

Lemma startswith_spec (s p : str) :
  startswith s p = true <-> exists t, s = p ++ t.
Proof.
  revert s. induction p as [|x p IH]; intros s; simpl.
  - split; eauto.
  - destruct s as [|y s]; simpl.
    + split; [discriminate | intros [t Ht]; discriminate].
    + rewrite andb_true_iff, ascii_eqb_true, IH. split.
      * intros [-> [t ->]]. eauto.
      * intros [t Ht]. injection Ht as -> ->. eauto.
Qed.

Lemma startswith_app (p t : str) : startswith (p ++ t) p = true.
Proof. apply startswith_spec. eauto. Qed.


Lemma contains_spec (sub s : str) :
  contains sub s = true <-> substring sub s.
Proof.
  unfold substring. induction s as [|c s IH]; simpl.
  - rewrite orb_false_r, startswith_spec. split.
    + intros [t Ht]. exists [], t. exact Ht.
    + intros (a & b & Hab). destruct a; simpl in Hab; [eauto | discriminate].
  - rewrite orb_true_iff, startswith_spec, IH. split.
    + intros [[t Ht] | (a & b & Hab)].
      * exists [], t. exact Ht.
      * exists (c :: a), b. simpl. congruence.
    + intros (a & b & Hab). destruct a as [|x a]; simpl in Hab.
      * left. eauto.
      * right. injection Hab as -> ->. eauto.
Qed.

Lemma split_not_nil (sep : ascii) (s : str) : split sep s <> [].
Proof.
  destruct s as [|c s]; simpl; [discriminate |].
  destruct (Ascii.eqb c sep); [discriminate |].
  destruct (split sep s); discriminate.
Qed.

(** Cutting at a separator cuts the list of segments. *)
Lemma split_app (sep : ascii) (a b : str) :
  split sep (a ++ sep :: b) = split sep a ++ split sep b.
Proof.
  induction a as [|c a IH]; simpl.
  - rewrite Ascii.eqb_refl. reflexivity.
  - destruct (Ascii.eqb c sep); [rewrite IH; reflexivity |].
    rewrite IH. destruct (split sep a) eqn:E; [|reflexivity].
    exfalso. exact (split_not_nil _ _ E).
Qed.

Lemma split_free (sep : ascii) (s : str) :
  forallb (fun c => negb (Ascii.eqb c sep)) s = true -> split sep s = [s].
Proof.
  induction s as [|c s IH]; simpl; [reflexivity |].
  rewrite andb_true_iff, negb_true_iff. intros [-> Hs].
  rewrite (IH Hs). reflexivity.
Qed.

(** The last segment holds no separator. *)
Lemma split_last_free (sep : ascii) (s : str) (front : list str) (x : str) :
  split sep s = front ++ [x] -> forallb (fun c => negb (Ascii.eqb c sep)) x = true.
Proof.
  revert front x. induction s as [|c s IH]; intros front x; simpl.
  - destruct front as [|? [|? ?]]; simpl; intros H; try discriminate.
    injection H as <-. reflexivity.
  - destruct (Ascii.eqb c sep) eqn:Ec.
    + destruct front as [|f front]; simpl; intros H.
      * injection H as _ H. exfalso. exact (split_not_nil _ _ H).
      * injection H as _ H. eauto.
    + destruct (split sep s) as [|w ws] eqn:E; [exfalso; exact (split_not_nil _ _ E) |].
      destruct front as [|f front]; simpl; intros H.
      * injection H as <- ->. simpl. rewrite Ec. simpl. apply (IH [] w). reflexivity.
      * injection H as <- ->. eapply (IH (w :: front) x). reflexivity.
Qed.

Lemma index_ok {A : Type} (l : list A) (i : nat) (a : A) :
  nth_error l i = Some a -> index l (Z.of_nat i) = Ok a.
Proof.
  intros H. unfold index.
  assert (i < length l)%nat by (apply nth_error_Some; congruence).
  destruct (Z.ltb_spec (Z.of_nat i) 0); [lia |].
  destruct (Z.ltb_spec (Z.of_nat i) 0); [lia |].
  destruct (Z.leb_spec (Z.of_nat (length l)) (Z.of_nat i)); [lia |].
  simpl. rewrite Nat2Z.id, H. reflexivity.
Qed.

Lemma index_back {A : Type} (l : list A) (k : nat) (a : A) :
  (0 < k <= length l)%nat ->
  nth_error l (length l - k) = Some a ->
  index l (- Z.of_nat k) = Ok a.
Proof.
  intros Hk H. unfold index.
  destruct (Z.ltb_spec (- Z.of_nat k) 0); [|lia].
  destruct (Z.ltb_spec (- Z.of_nat k + Z.of_nat (length l)) 0); [lia |].
  destruct (Z.leb_spec (Z.of_nat (length l)) (- Z.of_nat k + Z.of_nat (length l))); [lia |].
  simpl. replace (Z.to_nat (- Z.of_nat k + Z.of_nat (length l))) with (length l - k)%nat by lia.
  rewrite H. reflexivity.
Qed.

Lemma index_last_two {A : Type} (front : list A) (a b : A) :
  index (front ++ [a; b]) (-2) = Ok a /\ index (front ++ [a; b]) (-1) = Ok b.
Proof.
  split.
  - apply (index_back _ 2); rewrite length_app; simpl; [lia |].
    replace (length front + 2 - 2)%nat with (length front + 0)%nat by lia.
    rewrite nth_error_app2 by lia.
    replace (length front + 0 - length front)%nat with 0%nat by lia. reflexivity.
  - apply (index_back _ 1); rewrite length_app; simpl; [lia |].
    replace (length front + 2 - 1)%nat with (length front + 1)%nat by lia.
    rewrite nth_error_app2 by lia.
    replace (length front + 1 - length front)%nat with 1%nat by lia. reflexivity.
Qed.

Lemma last_two {A : Type} (l : list A) :
  (2 <= length l)%nat -> exists front a b, l = front ++ [a; b].
Proof.
  intros H.
  destruct (exists_last (l := l)) as (l1 & b & ->); [intros ->; simpl in H; lia |].
  rewrite length_app in H. simpl in H.
  destruct (exists_last (l := l1)) as (front & a & ->); [intros ->; simpl in H; lia |].
  exists front, a, b. rewrite <- app_assoc. reflexivity.
Qed.

Lemma lower_app (a b : str) : lower (a ++ b) = lower a ++ lower b.
Proof. apply map_app. Qed.

Lemma lower_length (s : str) : length (lower s) = length s.
Proof. apply length_map. Qed.

End PyFacts.

(** ** The validator *)
Module ValidatorFacts.
Import Py Spec PyFacts EnhancedScanner.

Lemma token_test_spec (token : str) :
  forallb (fun c => isalnum_c c || in_chars c (lit "-_")) token = true
  <-> Forall token_char token.
Proof.
  rewrite forallb_forall, List.Forall_forall.
  apply forall_proper; intros c. apply forall_proper; intros _.
  unfold token_char, in_chars, lit. cbn [list_ascii_of_string existsb].
  rewrite orb_false_r, !orb_true_iff, !ascii_eqb_true. tauto.
Qed.

Lemma isdigit_spec (s : str) :
  (0 < length s)%nat -> isdigit s = true <-> all_digits s.
Proof.
  intros Hlen. unfold all_digits.
  destruct s as [|c s]; [simpl in Hlen; lia |].
  unfold isdigit. rewrite forallb_forall, List.Forall_forall. reflexivity.
Qed.


(** The validator as one conjunction of its five tests. *)
Lemma is_valid_webhook_unfold (u : str) (front : list str) (id token : str) :
  split "/" u = front ++ [id; token] ->
  _is_valid_webhook u =
    Ok ((50 <=? length u)%nat
        && existsb (fun domain => contains domain (lower u)) domains
        && (7 <=? length (split "/" u))%nat
        && (isdigit id && (17 <=? length id)%nat)
        && ((50 <=? length token)%nat
            && forallb (fun c => isalnum_c c || in_chars c (lit "-_")) token)).
Proof.
  intros Hsplit. unfold _is_valid_webhook.
  destruct (index_last_two front id token) as [Hid Htok].
  rewrite Hsplit, Hid, Htok. unfold mbind, result_bind. cbv beta iota.
  assert (H1 : negb (truthy u) || (length u <? 50)%nat = negb (50 <=? length u)%nat).
  { destruct u; [reflexivity |]. simpl truthy. simpl negb. apply Nat.ltb_antisym. }
  rewrite H1, !Nat.ltb_antisym.
  generalize (existsb (fun domain => contains domain (lower u)) domains).
  generalize (forallb (fun c => isalnum_c c || in_chars c (lit "-_")) token).
  generalize (isdigit id).
  generalize (50 <=? length u)%nat, (7 <=? length (front ++ [id; token]))%nat,
    (17 <=? length id)%nat, (50 <=? length token)%nat.
  intros [] [] [] [] [] [] []; reflexivity.
Qed.

(** With fewer than two segments the validator has returned before it
    indexes the list. *)
Lemma is_valid_webhook_short (u : str) :
  (length (split "/" u) < 7)%nat -> _is_valid_webhook u = Ok false.
Proof.
  intros H. unfold _is_valid_webhook.
  destruct (negb (truthy u) || (length u <? 50)%nat); [reflexivity |].
  destruct (negb (existsb _ domains)); [reflexivity |].
  destruct (Nat.ltb_spec (length (split "/" u)) 7); [reflexivity | lia].
Qed.

Lemma is_valid_webhook_total (u : str) : exists b, _is_valid_webhook u = Ok b.
Proof.
  destruct (Nat.lt_ge_cases (length (split "/" u)) 7) as [H | H].
  - exists false. apply is_valid_webhook_short, H.
  - destruct (last_two (split "/" u)) as (front & id & token & Hs); [lia |].
    eexists. apply (is_valid_webhook_unfold u front id token Hs).
Qed.


Lemma segment_free (s : str) :
  segment s -> forallb (fun c => negb (Ascii.eqb c "/")) s = true.
Proof.
  unfold segment. rewrite forallb_forall, List.Forall_forall.
  intros H c Hc. apply negb_true_iff, Ascii.eqb_neq, H, Hc.
Qed.

Lemma all_digits_segment (s : str) : all_digits s -> segment s.
Proof.
  unfold all_digits, segment. apply List.Forall_impl. intros c Hc ->. discriminate.
Qed.

Lemma token_segment (s : str) : Forall token_char s -> segment s.
Proof.
  unfold segment. apply List.Forall_impl.
  intros c [Hc | [Hc | Hc]] ->; discriminate.
Qed.

(** The segments of a composed URL. *)
Lemma split_compose (id token : str) :
  segment id -> segment token ->
  split "/" (compose id token)
  = [lit "https:"; []; lit "discord.com"; lit "api"; lit "webhooks"] ++ [id; token].
Proof.
  intros Hid Htok. unfold compose.
  change (lit "https://discord.com/api/webhooks/")
    with (lit "https://discord.com/api/webhooks" ++ "/"%char :: []).
  rewrite <- !app_assoc. simpl ((_ :: []) ++ _).
  rewrite split_app. change (lit "/") with ("/"%char :: []). simpl ((_ :: []) ++ _).
  rewrite split_app, (split_free _ id), (split_free _ token)
    by (apply segment_free; assumption).
  reflexivity.
Qed.

Lemma compose_host (id token : str) :
  existsb (fun domain => contains domain (lower (compose id token))) domains = true.
Proof.
  apply existsb_exists. exists (lit "discord.com/api/webhooks/"). split; [simpl; auto |].
  apply contains_spec. unfold compose. rewrite lower_app.
  exists (lit "https://"), (lower (id ++ lit "/" ++ token)). reflexivity.
Qed.

(** The verdict on a composed URL is the verdict on its id and its token. *)
Lemma is_valid_webhook_compose (id token : str) :
  segment id -> segment token ->
  _is_valid_webhook (compose id token)
  = Ok (isdigit id && (17 <=? length id)%nat
        && ((50 <=? length token)%nat
            && forallb (fun c => isalnum_c c || in_chars c (lit "-_")) token)).
Proof.
  intros Hid Htok.
  rewrite (is_valid_webhook_unfold _ _ id token (split_compose id token Hid Htok)).
  rewrite compose_host, split_compose by assumption. f_equal.
  assert (Hlen : length (compose id token) = (33 + length id + 1 + length token)%nat).
  { unfold compose. rewrite !length_app. simpl. lia. }
  rewrite Hlen.
  destruct (Nat.leb_spec 50 (length token)) as [H50 | H50].
  - destruct (Nat.leb_spec 50 (33 + length id + 1 + length token)); [|lia].
    reflexivity.
  - simpl. rewrite !andb_false_r. reflexivity.
Qed.



End ValidatorFacts.

(** ** A URL of a foreign host *)
Module ForeignHost.
Import Py OS Discord Spec Sample EnhancedScanner.

(** C10. The validator accepts a URL whose host, [notdiscord.com], is not an
    accepted host: the accepted host with the path prefix only has to occur
    somewhere in the text.  Found in a file as the value of a [webhook] key,
    the URL is recorded by the scan, given a new endpoint by the provisioner
    and replaced by the rewrite, like any other. *)
Theorem validator_accepts_foreign_host :
  exists u host,
    hostname u = Some host /\
    host = lit "notdiscord.com" /\
    ~ In host (lit "ptb.discord.com" :: accepted_hosts) /\
    substring (lit "discord.com/api/webhooks/") (lower u) /\
    _is_valid_webhook u = Ok true /\
    let scanned :=
      exec (_scan_file config_lua)
        (posix {[ config_lua := assignment u ]} [], init root) in
    elements <$> (webhooks_by_resource (snd scanned) !! lit "shop") = Some [u] /\
    let provisioned :=
      exec (WebhookCreator.create_all (webhooks_by_resource (snd scanned)))
        (guild [Created 10 []; Created 11 new_url], WebhookCreator.init 1) in
    WebhookCreator.webhook_mappings (snd provisioned) = [(u, new_url)] /\
    let rewritten :=
      exec (FileUpdater.update_all (FileUpdater.mkConfig true [lit "webhook_backups"])
              (lit "20240101_120000")
              (WebhookCreator.webhook_mappings (snd provisioned))
              (file_occurrences (snd scanned)))
        (fst scanned, FileUpdater.init) in
    files (fst rewritten) !! config_lua = Some (assignment new_url).
Proof.
  exists foreign_url, (lit "notdiscord.com").
  split; [reflexivity |]. split; [reflexivity |].
  split; [intros [H | [H | [H | []]]]; discriminate H |].
  split.
  { exists (lit "https://not"), (lit "123456789012345678/" ++ lower token_a). reflexivity. }
  split; [vm_compute; reflexivity |].
  split; [vm_compute; reflexivity |].
  split; vm_compute; reflexivity.
Qed.

End ForeignHost.

(** ** Attribution of a file to a resource *)
Module AttributionFacts.
Import Py Spec PyFacts EnhancedScanner AttributionSpec.

Lemma relative_to_under (base parts : path) : relative_to (base ++ parts) base = Ok parts.
Proof.
  induction base as [|b base IH]; simpl; [reflexivity |].
  unfold str_eqb. rewrite bool_decide_eq_true_2 by reflexivity. exact IH.
Qed.

Lemma existsb_marker (parts : list str) :
  existsb (str_eqb marker) parts = true <-> In marker parts.
Proof.
  rewrite existsb_exists. split.
  - intros (x & Hx & He). apply str_eqb_true in He. subst. exact Hx.
  - intros H. exists marker. split; [exact H | apply str_eqb_true; reflexivity].
Qed.

Lemma first_occurrence (x : str) (l : list str) :
  In x l -> exists pre tl, l = pre ++ x :: tl /\ ~ In x pre.
Proof.
  induction l as [|y l IH]; [intros [] |].
  intros H. destruct (decide (y = x)) as [-> | Hne].
  - exists [], l. split; [reflexivity | intros []].
  - destruct H as [-> | H]; [contradiction |].
    destruct (IH H) as (pre & tl & -> & Hpre).
    exists (y :: pre), tl. split; [reflexivity |].
    intros [-> | Hin]; [apply Hne; reflexivity | exact (Hpre Hin)].
Qed.

Lemma list_index_first (x : str) (pre tl : list str) :
  ~ In x pre -> list_index x (pre ++ x :: tl) = Ok (length pre).
Proof.
  induction pre as [|y pre IH]; simpl; intros Hpre.
  - unfold str_eqb. rewrite bool_decide_eq_true_2 by reflexivity. reflexivity.
  - unfold str_eqb at 1. rewrite bool_decide_eq_false_2 by (intros ->; apply Hpre; auto).
    rewrite IH by (intros H; apply Hpre; auto). reflexivity.
Qed.

Lemma brackets_spec (s : str) :
  startswith s (lit "[") && endswith s (lit "]") = true <-> bracket_delimited s.
Proof.
  unfold bracket_delimited, endswith.
  rewrite andb_true_iff, !startswith_spec. apply and_iff_compat_l. split.
  - intros [t Ht]. exists (rev t).
    rewrite <- (rev_involutive s), Ht, rev_app_distr. reflexivity.
  - intros [t ->]. exists (rev t). rewrite rev_app_distr. reflexivity.
Qed.

(** The end of the method: the chosen segment is cleaned. *)
Lemma finish_clean (nm : str) :
  (if truthy nm
   then Ok (let nm' := strip (strip_chars (lit "[]") nm) in
            if truthy nm' then nm' else lit "unknown")
   else Ok (lit "unknown"))
  = Ok (clean nm).
Proof.
  unfold clean. destruct nm as [|c nm]; [reflexivity |].
  change (truthy (c :: nm)) with true. cbv iota zeta.
  generalize (strip (strip_chars (lit "[]") (c :: nm))). intros [|d t]; reflexivity.
Qed.

Lemma clean_not_nil (nm : str) : clean nm <> [].
Proof.
  unfold clean. destruct (strip (strip_chars (lit "[]") nm)); discriminate.
Qed.

(** Rule 1: a non-empty segment after the first marker is chosen. *)
Lemma resource_after_marker (parts : list str) (x : str) :
  follows_marker parts x -> x <> [] -> resource_of_parts parts = Ok (clean x).
Proof.
  intros (pre & post & -> & Hpre) Hx. unfold resource_of_parts.
  rewrite bool_decide_eq_true_2 by (destruct pre; discriminate). simpl negb. cbv iota.
  replace (existsb (str_eqb (lit "resources")) (pre ++ marker :: x :: post)) with true
    by (symmetry; apply existsb_marker, in_or_app; right; left; reflexivity).
  change (lit "resources") with marker. rewrite (list_index_first marker pre _ Hpre).
  rewrite bind_Ok.
  assert (Hlt : (length pre + 1 <? length (pre ++ marker :: x :: post))%nat = true).
  { apply Nat.ltb_lt. rewrite length_app. simpl. lia. }
  rewrite Hlt.
  replace (Z.of_nat (length pre) + 1) with (Z.of_nat (length pre + 1)) by lia.
  rewrite (index_ok _ _ x).
  2:{ rewrite nth_error_app2 by lia.
      replace (length pre + 1 - length pre)%nat with 1%nat by lia. reflexivity. }
  rewrite !bind_Ok.
  destruct x as [|c x]; [contradiction |].
  change (truthy_opt (Some (c :: x))) with true. simpl negb. rewrite andb_false_l.
  rewrite bind_Ok. apply finish_clean.
Qed.

(** Rules 2 and 3: with no segment after a marker, the choice is made on the
    first segment. *)
Lemma resource_without_marker (first : str) (others : list str) :
  (forall x, ~ follows_marker (first :: others) x) ->
  resource_of_parts (first :: others)
  = Ok (clean (if startswith first (lit "[") && endswith first (lit "]")
               then match others with
                    | second :: _ => second
                    | [] => first
                    end
               else first)).
Proof.
  intros Hno. unfold resource_of_parts.
  rewrite bool_decide_eq_true_2 by discriminate. simpl negb. cbv iota.
  assert (Hstage1 :
    (if existsb (str_eqb (lit "resources")) (first :: others)
     then res_idx ← list_index (lit "resources") (first :: others);
          if (res_idx + 1 <? length (first :: others))%nat
          then x ← index (first :: others) (Z.of_nat res_idx + 1); Ok (Some x)
          else Ok None
     else Ok None) = Ok None).
  { destruct (existsb (str_eqb (lit "resources")) (first :: others)) eqn:E; [|reflexivity].
    apply existsb_marker, first_occurrence in E. destruct E as (pre & tl & Heq & Hpre).
    change (lit "resources") with marker. rewrite Heq, (list_index_first marker pre tl Hpre).
    rewrite bind_Ok.
    destruct tl as [|x post].
    - rewrite length_app. simpl length.
      destruct (Nat.ltb_spec (length pre + 1) (length pre + 1)); [lia | reflexivity].
    - exfalso. apply (Hno x). exists pre, post. split; assumption. }
  rewrite Hstage1, bind_Ok.
  change (negb (truthy_opt None) && (1 <=? length (first :: others))%nat) with true.
  cbv iota.
  rewrite (index_ok (first :: others) 0 first eq_refl : index (first :: others) 0 = Ok first).
  rewrite bind_Ok.
  destruct (startswith first (lit "[") && endswith first (lit "]")).
  - destruct others as [|second others'].
    + change (2 <=? length [first])%nat with false. cbv iota.
      rewrite bind_Ok. apply finish_clean.
    + change (2 <=? length (first :: second :: others'))%nat with true. cbv iota.
      rewrite (index_ok (first :: second :: others') 1 second eq_refl
                 : index (first :: second :: others') 1 = Ok second).
      rewrite !bind_Ok. apply finish_clean.
  - rewrite bind_Ok. apply finish_clean.
Qed.

Lemma follows_marker_dec (parts : list str) :
  (exists x, follows_marker parts x) \/ (forall x, ~ follows_marker parts x).
Proof.
  assert (Hdec : In marker parts \/ ~ In marker parts).
  { destruct (existsb (str_eqb marker) parts) eqn:E.
    - left. apply existsb_marker, E.
    - right. intros H. apply existsb_marker in H. congruence. }
  destruct Hdec as [Hin | Hnot].
  - destruct (first_occurrence _ _ Hin) as (pre & tl & Heq & Hpre).
    destruct tl as [|x post].
    + right. intros x (pre' & post' & Heq' & Hpre'). subst parts.
      assert (H1 := list_index_first marker pre [] Hpre).
      assert (H2 := list_index_first marker pre' (x :: post') Hpre').
      rewrite Heq' in H1. rewrite H1 in H2. apply Ok_inj in H2.
      apply (f_equal (@length _)) in Heq'. rewrite !length_app in Heq'. simpl in Heq'. lia.
    + left. exists x, pre, post. split; assumption.
  - right. intros x (pre & post & -> & _). apply Hnot, in_or_app. right. left. reflexivity.
Qed.

Lemma follows_marker_unique (parts : list str) (x y : str) :
  follows_marker parts x -> follows_marker parts y -> x = y.
Proof.
  intros (pre & post & Heq & Hpre) (pre' & post' & Heq' & Hpre').
  assert (H1 := list_index_first marker pre (x :: post) Hpre).
  assert (H2 := list_index_first marker pre' (y :: post') Hpre').
  rewrite <- Heq in H1. rewrite <- Heq' in H2. rewrite H1 in H2.
  apply Ok_inj in H2.
  rewrite Heq' in Heq.
  apply (f_equal (fun l => nth_error l (S (length pre)))) in Heq.
  rewrite H2 in Heq at 1.
  rewrite !nth_error_app2 in Heq by lia.
  replace (S (length pre') - length pre')%nat with 1%nat in Heq by lia.
  replace (S (length pre) - length pre)%nat with 1%nat in Heq by lia.
  simpl in Heq. congruence.
Qed.

Lemma extract_resource_name_under (base parts : path) :
  _extract_resource_name base (base ++ parts)
  = try_except (resource_of_parts parts) (fun _ => lit "unknown").
Proof.
  unfold _extract_resource_name. rewrite relative_to_under, bind_Ok. reflexivity.
Qed.

(** C4. For a path under the scan root, given by its non-empty parts after
    the root, the attributor returns one name, never empty: (1) the segment
    after the first segment equal to [resources], when there is one;
    (2) otherwise, when the first segment is bracket-delimited, the second
    segment if there is one and else the first; (3) otherwise the first
    segment; (4) in each case without its surrounding brackets and then
    without its surrounding whitespace, and [unknown] when nothing is left
    or the path has no part.  The four paths of the specification give
    [myresource], [myresource], [myresource] and [unknown]. *)
Theorem extract_resource_name_precedence (base : path) :
  (forall parts : list str,
     well_formed parts ->
     let nm := _extract_resource_name base (base ++ parts) in
     nm <> [] /\
     (forall x, follows_marker parts x -> nm = clean x) /\
     ((forall x, ~ follows_marker parts x) ->
      forall first others, parts = first :: others ->
        (bracket_delimited first ->
         nm = clean match others with second :: _ => second | [] => first end) /\
        (~ bracket_delimited first -> nm = clean first)) /\
     (parts = [] -> nm = unknown)) /\
  (forall pre, ~ In marker pre ->
     _extract_resource_name base
       (base ++ pre ++ [lit "resources"; lit "myresource"; lit "file.lua"])
     = lit "myresource") /\
  _extract_resource_name base (base ++ [lit "[category]"; lit "myresource"; lit "file.lua"])
  = lit "myresource" /\
  _extract_resource_name base (base ++ [lit "myresource"; lit "file.lua"])
  = lit "myresource" /\
  _extract_resource_name base (base ++ []) = lit "unknown" /\
  _extract_resource_name base (base ++ [lit "[]"; lit "file.lua"]) = lit "file.lua" /\
  _extract_resource_name base (base ++ [lit "[ ]"]) = lit "unknown".
Proof.
  split.
  - intros parts Hwf nm. subst nm. rewrite extract_resource_name_under.
    destruct (follows_marker_dec parts) as [[x Hx] | Hno].
    + assert (Hne : x <> []).
      { destruct Hx as (pre & post & -> & _).
        unfold well_formed in Hwf. rewrite List.Forall_forall in Hwf.
        apply Hwf, in_or_app. right. right. left. reflexivity. }
      rewrite (resource_after_marker parts x Hx Hne), try_except_Ok.
      split; [apply clean_not_nil |]. split; [|split].
      * intros y Hy. rewrite (follows_marker_unique parts y x Hy Hx). reflexivity.
      * intros Hnone. exfalso. exact (Hnone x Hx).
      * intros ->. destruct Hx as (pre & post & Heq & _). destruct pre; discriminate.
    + destruct parts as [|first others].
      * simpl. split; [discriminate |]. split; [|split].
        -- intros x Hx. exfalso. exact (Hno x Hx).
        -- intros _ first others Heq. discriminate.
        -- reflexivity.
      * rewrite (resource_without_marker first others Hno), try_except_Ok.
        split; [apply clean_not_nil |]. split; [|split].
        -- intros x Hx. exfalso. exact (Hno x Hx).
        -- intros _ first' others' Heq. injection Heq as <- <-.
           destruct (startswith first (lit "[") && endswith first (lit "]")) eqn:E.
           ++ split; [reflexivity |]. intros Hnb. exfalso. apply Hnb, brackets_spec, E.
           ++ split; [|reflexivity]. intros Hb. apply brackets_spec in Hb. congruence.
        -- discriminate.
  - split.
    { intros pre Hpre. rewrite extract_resource_name_under.
      rewrite (resource_after_marker _ (lit "myresource")); [reflexivity | | discriminate].
      exists pre, [lit "file.lua"]. split; [reflexivity | exact Hpre]. }
    repeat split; rewrite extract_resource_name_under; reflexivity.
Qed.

(** The theorem at the parts [[qb]/qb-core/server/main.lua]. *)
Lemma extract_resource_name_precedence_witness :
  _extract_resource_name [lit "srv"]
    ([lit "srv"] ++ [lit "[qb]"; lit "qb-core"; lit "server"; lit "main.lua"])
  <> [].
Proof.
  apply (proj1 (extract_resource_name_precedence [lit "srv"])).
  unfold well_formed. repeat constructor; discriminate.
Defined.

End AttributionFacts.

(** ** The scan of a file *)
Module ScanFacts.
Import Py OS Spec PyFacts EnhancedScanner ScanSpec ValidatorFacts.

Lemma is_valid_run (url : str) : _is_valid_webhook url = Ok (is_valid url).
Proof.
  unfold is_valid. destruct (is_valid_webhook_total url) as [b ->]. reflexivity.
Qed.

Lemma has_any_app (l1 l2 : list str) : has_any (l1 ++ l2) = has_any l1 || has_any l2.
Proof. destruct l1; reflexivity. Qed.

Lemma accepted_of_app (l1 l2 : list (option str)) :
  accepted_of (l1 ++ l2) = accepted_of l1 ++ accepted_of l2.
Proof. apply flat_map_app. Qed.

Lemma record_all_app (file_path : path) (r : str) (l1 l2 : list str) (sc : Scanner) :
  record_all file_path r (l1 ++ l2) sc
  = record_all file_path r l2 (record_all file_path r l1 sc).
Proof. apply fold_left_app. Qed.

(** One candidate. *)
Lemma scan_candidate_run (file_path : path) (r : str) (c : option str)
    (found_any : bool) (w : World) (sc : Scanner) :
  scan_candidate file_path r c found_any (w, sc)
  = ((w, record_all file_path r (accepted_of [c]) sc),
     Ok (found_any || has_any (accepted_of [c]))).
Proof.
  unfold scan_candidate, accepted_of. simpl flat_map. rewrite app_nil_r.
  destruct c as [url |]; [|rewrite orb_false_r; reflexivity].
  rewrite run_bind. unfold lift. rewrite is_valid_run.
  destruct (is_valid url); simpl.
  - rewrite orb_true_r. reflexivity.
  - rewrite orb_false_r. reflexivity.
Qed.

(** A loop over the matches of one pattern. *)
Lemma scan_matches_run {M : Type} (f : M -> option str) (file_path : path) (r : str)
    (ms : list M) (found_any : bool) (w : World) (sc : Scanner) :
  for_fold ms found_any (fun m fd => scan_candidate file_path r (f m) fd) (w, sc)
  = ((w, record_all file_path r (accepted_of (map f ms)) sc),
     Ok (found_any || has_any (accepted_of (map f ms)))).
Proof.
  revert found_any sc. induction ms as [|m ms IH]; intros found_any sc.
  - simpl. rewrite orb_false_r. reflexivity.
  - cbn [for_fold]. rewrite run_bind, scan_candidate_run, IH.
    change (map f (m :: ms)) with ([f m] ++ map f ms).
    rewrite accepted_of_app, record_all_app, has_any_app, orb_assoc. reflexivity.
Qed.

(** The loop over the key-value patterns. *)
Lemma scan_patterns_run (content : str) (file_path : path) (r : str)
    (patterns : list regex) (found_any : bool) (w : World) (sc : Scanner) :
  for_fold patterns found_any
    (fun pattern fd =>
       for_fold (finditer true pattern content) fd
         (fun m fd' => scan_candidate file_path r (captured m) fd')) (w, sc)
  = let cands := flat_map (fun pattern => map captured (finditer true pattern content))
                   patterns in
    ((w, record_all file_path r (accepted_of cands) sc),
     Ok (found_any || has_any (accepted_of cands))).
Proof.
  revert found_any sc. induction patterns as [|p ps IH]; intros found_any sc.
  - simpl. rewrite orb_false_r. reflexivity.
  - cbn [for_fold]. rewrite run_bind, scan_matches_run, IH. cbv zeta.
    cbn [flat_map].
    rewrite accepted_of_app, record_all_app, has_any_app, orb_assoc. reflexivity.
Qed.

Lemma record_all_base_path (file_path : path) (r : str) (urls : list str) (sc : Scanner) :
  base_path (record_all file_path r urls sc) = base_path sc.
Proof.
  revert sc. induction urls as [|u urls IH]; intros sc; [reflexivity |].
  simpl. rewrite IH. reflexivity.
Qed.

(** A file that is read: each validated match is recorded, in the order of
    the patterns. *)
Lemma scan_file_read (file_path : path) (w w' : World) (content : str) (sc : Scanner) :
  read_text file_path w = (w', Ok content) ->
  _scan_file file_path (w, sc)
  = ((w', found (accepted content)
            (record_all file_path (_extract_resource_name (base_path sc) file_path)
               (accepted content) sc)),
     Ok tt).
Proof.
  intros Hread. unfold _scan_file, try_.
  rewrite run_bind. unfold on_fst at 1. cbn [fst snd]. rewrite Hread.
  rewrite run_bind. unfold get at 1. cbn [fst snd].
  rewrite run_bind, scan_matches_run.
  rewrite run_bind, scan_patterns_run. cbv zeta. rewrite orb_false_l.
  unfold accepted, candidates.
  rewrite accepted_of_app, record_all_app.
  set (a1 := accepted_of (map _ (finditer true webhook_url_pattern content))).
  set (a2 := accepted_of (flat_map _ webhook_value_patterns)).
  destruct a1 as [|u1 a1']; [destruct a2 as [|u2 a2'] |]; reflexivity.
Qed.

(** A file that cannot be read leaves the scanner as it was. *)
Lemma scan_file_unread (file_path : path) (w w' : World) (e : exn) (sc : Scanner) :
  read_text file_path w = (w', Raise e) ->
  _scan_file file_path (w, sc) = ((w', sc), Ok tt).
Proof.
  intros Hread. unfold _scan_file, try_.
  rewrite run_bind. unfold on_fst at 1. cbn [fst snd]. rewrite Hread. reflexivity.
Qed.

Lemma found_indexes (urls : list str) (sc : Scanner) :
  webhooks_by_resource (found urls sc) = webhooks_by_resource sc /\
  file_occurrences (found urls sc) = file_occurrences sc /\
  base_path (found urls sc) = base_path sc.
Proof. destruct urls; repeat split; reflexivity. Qed.

(** The occurrence list of a URL grows by one entry per recorded match. *)
Lemma record_all_occurrences (file_path : path) (r : str) (urls : list str)
    (sc : Scanner) (u : str) :
  default [] (file_occurrences (record_all file_path r urls sc) !! u)
  = default [] (file_occurrences sc !! u)
    ++ repeat (file_path, r) (length (filter (fun x => x = u) urls)).
Proof.
  revert sc. induction urls as [|url urls IH]; intros sc.
  - simpl. rewrite app_nil_r. reflexivity.
  - change (record_all file_path r (url :: urls) sc)
      with (record_all file_path r urls (record_match file_path r url sc)).
    rewrite IH. cbn [record_match file_occurrences].
    rewrite filter_cons. destruct (decide (url = u)) as [-> | Hne].
    + rewrite lookup_insert_eq. simpl. rewrite <- app_assoc. reflexivity.
    + rewrite lookup_insert_ne by exact Hne. reflexivity.
Qed.

(** The URL set of the resource gains the recorded URLs; the sets of the
    other resources stay. *)
Lemma record_all_urls (file_path : path) (r : str) (urls : list str) (sc : Scanner) :
  default ∅ (webhooks_by_resource (record_all file_path r urls sc) !! r)
  = default ∅ (webhooks_by_resource sc !! r) ∪ list_to_set urls.
Proof.
  revert sc. induction urls as [|url urls IH]; intros sc.
  - simpl. rewrite (right_id_L ∅ (∪)). reflexivity.
  - change (record_all file_path r (url :: urls) sc)
      with (record_all file_path r urls (record_match file_path r url sc)).
    rewrite IH. cbn [record_match webhooks_by_resource].
    rewrite lookup_insert_eq. simpl. rewrite (assoc_L (∪)). reflexivity.
Qed.

Lemma entries_elem (u : str) (urls : gset str) : u ∈ urls -> entries u urls = 1%nat.
Proof.
  intros Hin. unfold entries.
  assert (Hnd := NoDup_elements urls).
  apply elem_of_elements in Hin. revert Hin Hnd.
  generalize (elements urls). intros l. induction l as [|x l IH]; intros Hin Hnd.
  - inversion Hin.
  - apply NoDup_cons in Hnd. destruct Hnd as [Hx Hnd].
    rewrite filter_cons. destruct (decide (x = u)) as [-> | Hne].
    + cbn [length]. f_equal.
      assert (Hnone : filter (fun y => y = u) l = []).
      { destruct (filter (fun y => y = u) l) as [|y t] eqn:E; [reflexivity |].
        exfalso. assert (Hy : y ∈ filter (fun y => y = u) l) by (rewrite E; left).
        apply list_elem_of_filter in Hy. destruct Hy as [-> Hy]. exact (Hx Hy). }
      rewrite Hnone. reflexivity.
    + apply IH; [|exact Hnd]. inversion Hin; subst; [contradiction | assumption].
Qed.

(** The indexes after a file that was read. *)
Lemma scan_file_indexes (file_path : path) (w w' : World) (content : str)
    (sc : Scanner) (u : str) :
  read_text file_path w = (w', Ok content) ->
  let r := _extract_resource_name (base_path sc) file_path in
  let sc' := snd (exec (_scan_file file_path) (w, sc)) in
  fst (exec (_scan_file file_path) (w, sc)) = w' /\
  base_path sc' = base_path sc /\
  default ∅ (webhooks_by_resource sc' !! r)
  = default ∅ (webhooks_by_resource sc !! r) ∪ list_to_set (accepted content) /\
  default [] (file_occurrences sc' !! u)
  = default [] (file_occurrences sc !! u) ++ repeat (file_path, r) (matches_of u content).
Proof.
  intros Hread r sc'. subst r sc'. unfold exec.
  rewrite (scan_file_read _ _ _ _ _ Hread). cbn [fst snd].
  destruct (found_indexes (accepted content)
              (record_all file_path (_extract_resource_name (base_path sc) file_path)
                 (accepted content) sc)) as (-> & -> & ->).
  rewrite record_all_base_path, record_all_urls, record_all_occurrences.
  repeat split; reflexivity.
Qed.

(** C3, as the code has it.  Two files that are read and attributed to the
    same resource are scanned by a fresh scanner.  The URL set of the
    resource holds a URL once when a match of either file yields it.  The
    occurrence list of the URL has one entry per validated match that
    yields it, over all seven patterns: the entries of the first file, then
    those of the second.  It has exactly the two entries, one per file,
    when one match in each file yields the URL. *)
Theorem scan_two_files (base f1 f2 : path) (w w1 w2 : World) (c1 c2 r u : str) :
  read_text f1 w = (w1, Ok c1) ->
  read_text f2 w1 = (w2, Ok c2) ->
  _extract_resource_name base f1 = r ->
  _extract_resource_name base f2 = r ->
  let sc := snd (exec (_scan_file f1 ≫= fun _ => _scan_file f2) (w, init base)) in
  let n1 := matches_of u c1 in
  let n2 := matches_of u c2 in
  ((1 <= n1 + n2)%nat -> entries u (default ∅ (webhooks_by_resource sc !! r)) = 1%nat) /\
  default [] (file_occurrences sc !! u) = repeat (f1, r) n1 ++ repeat (f2, r) n2 /\
  (n1 = 1%nat -> n2 = 1%nat -> file_occurrences sc !! u = Some [(f1, r); (f2, r)]).
Proof.
  intros Hr1 Hr2 Ha1 Ha2 sc n1 n2.
  assert (Hsc : sc = snd (exec (_scan_file f2)
                            (w1, snd (exec (_scan_file f1) (w, init base))))).
  { subst sc. unfold exec. rewrite run_bind.
    rewrite (scan_file_read _ _ _ _ _ Hr1). reflexivity. }
  destruct (scan_file_indexes f1 w w1 c1 (init base) u Hr1) as (_ & Hb1 & Hu1 & Ho1).
  set (sc1 := snd (exec (_scan_file f1) (w, init base))) in *.
  destruct (scan_file_indexes f2 w1 w2 c2 sc1 u Hr2) as (_ & Hb2 & Hu2 & Ho2).
  rewrite <- Hsc in Hu2, Ho2. rewrite Hb1 in Hu2, Ho2.
  cbn [init base_path webhooks_by_resource file_occurrences] in *.
  rewrite Ha1 in Hu1, Ho1. rewrite Ha2 in Hu2, Ho2.
  rewrite lookup_empty in Hu1. rewrite lookup_empty in Ho1. simpl in Hu1, Ho1.
  assert (Hocc : default [] (file_occurrences sc !! u)
                 = repeat (f1, r) n1 ++ repeat (f2, r) n2).
  { rewrite Ho2, Ho1. reflexivity. }
  split; [|split].
  - intros Hn. apply entries_elem. rewrite Hu2, Hu1.
    assert (Hin : u ∈ accepted c1 \/ u ∈ accepted c2).
    { unfold n1, n2, matches_of in Hn.
      destruct (filter (fun x => x = u) (accepted c1)) as [|y t] eqn:E1.
      - destruct (filter (fun x => x = u) (accepted c2)) as [|y t] eqn:E2;
          [simpl in Hn; lia |].
        right. assert (Hy : y ∈ filter (fun x => x = u) (accepted c2)) by (rewrite E2; left).
        apply list_elem_of_filter in Hy. destruct Hy as [-> Hy]. exact Hy.
      - left. assert (Hy : y ∈ filter (fun x => x = u) (accepted c1)) by (rewrite E1; left).
        apply list_elem_of_filter in Hy. destruct Hy as [-> Hy]. exact Hy. }
    rewrite !elem_of_union, !elem_of_list_to_set. tauto.
  - exact Hocc.
  - intros H1 H2. rewrite H1, H2 in Hocc. simpl in Hocc.
    destruct (file_occurrences sc !! u) as [l |]; simpl in Hocc; [|discriminate].
    subst l. reflexivity.
Qed.

(** The theorem at two files that mention the URL in running text, where
    only the direct pattern matches. *)
Lemma scan_two_files_witness :
  file_occurrences
    (snd (exec (_scan_file Sample.config_lua ≫= fun _ => _scan_file Sample.alerts_lua)
            (Sample.posix {[ Sample.config_lua := lit "see " ++ Sample.old_url;
                             Sample.alerts_lua := lit "post to " ++ Sample.old_url ]} [],
             init Sample.root)))
    !! Sample.old_url
  = Some [(Sample.config_lua, lit "shop"); (Sample.alerts_lua, lit "shop")].
Proof.
  eapply (proj2 (proj2 (scan_two_files Sample.root Sample.config_lua Sample.alerts_lua
            _ _ _ (lit "see " ++ Sample.old_url) (lit "post to " ++ Sample.old_url)
            (lit "shop") Sample.old_url _ _ _ _)));
    reflexivity.
  Unshelve. all: try reflexivity.
Defined.

(** The claim as stated fails when several patterns match one occurrence:
    in [webhook = '<url>'] the direct pattern and two key-value patterns all
    yield the URL, and each of the two files adds three entries. *)
Lemma scan_records_every_match :
  let w := Sample.posix {[ Sample.config_lua := Sample.assignment Sample.old_url;
                           Sample.alerts_lua := Sample.assignment Sample.old_url ]} [] in
  let sc := snd (exec (_scan_file Sample.config_lua ≫= fun _ => _scan_file Sample.alerts_lua)
                   (w, init Sample.root)) in
  _is_valid_webhook Sample.old_url = Ok true /\
  count (Sample.assignment Sample.old_url) Sample.old_url = 1%nat /\
  _extract_resource_name Sample.root Sample.config_lua = lit "shop" /\
  _extract_resource_name Sample.root Sample.alerts_lua = lit "shop" /\
  elements <$> (webhooks_by_resource sc !! lit "shop") = Some [Sample.old_url] /\
  file_occurrences sc !! Sample.old_url
  = Some (repeat (Sample.config_lua, lit "shop") 3 ++ repeat (Sample.alerts_lua, lit "shop") 3) /\
  length (default [] (file_occurrences sc !! Sample.old_url)) <> 2%nat.
Proof.
  cbv zeta. repeat split; try (vm_compute; reflexivity).
  vm_compute. discriminate.
Qed.

End ScanFacts.

(** ** Provisioning *)
Module ProvisionFacts.
Import Py Discord Spec PyFacts WebhookCreator ProvisionSpec.

(** *** The remote calls *)

Lemma create_webhook_run (channel : Channel) (nm : str) (g : Guild) :
  channels (fst (create_webhook channel nm g)) = channels g /\
  calls (fst (create_webhook channel nm g)) = calls g ++ [CreateWebhook (ch_id channel) nm].
Proof.
  unfold create_webhook, next_response, log_call. simpl.
  destruct (responses g) as [|[e | id url] rs]; simpl; split; reflexivity.
Qed.

Lemma create_text_channel_run (nm : str) (category : Channel) (g : Guild) :
  calls (fst (create_text_channel nm category g))
  = calls g ++ [CreateTextChannel nm (ch_id category)] /\
  match snd (create_text_channel nm category g) with
  | Ok c =>
      ch_name c = nm /\ ch_kind c = TextChannel /\
      ch_category_id c = Some (ch_id category) /\
      channels (fst (create_text_channel nm category g)) = channels g ++ [c]
  | Raise _ => channels (fst (create_text_channel nm category g)) = channels g
  end.
Proof.
  unfold create_text_channel, next_response, log_call, add_channel. simpl.
  destruct (responses g) as [|[e | id url] rs]; simpl; repeat split; reflexivity.
Qed.

Lemma get_channel_id (g : Guild) (id : Z) (c : Channel) :
  get_channel g id = Some c -> ch_id c = id.
Proof.
  unfold get_channel. intros H. apply find_some in H. destruct H as [_ H].
  apply bool_decide_eq_true in H. exact H.
Qed.

(** [get_channel] and [get_text_channel] look at the channels only. *)
Lemma get_channel_channels (g g' : Guild) (id : Z) :
  channels g' = channels g -> get_channel g' id = get_channel g id.
Proof. unfold get_channel. intros ->. reflexivity. Qed.

Lemma get_text_channel_channels (g g' : Guild) (nm : str) (cat : Z) :
  channels g' = channels g -> get_text_channel g' nm cat = get_text_channel g nm cat.
Proof. unfold get_text_channel, text_channels. intros ->. reflexivity. Qed.

Lemma find_app_some {A : Type} (f : A -> bool) (l1 l2 : list A) (x : A) :
  find f l1 = Some x -> find f (l1 ++ l2) = Some x.
Proof.
  induction l1 as [|y l1 IH]; simpl; [discriminate |].
  destruct (f y); [trivial | exact IH].
Qed.

Lemma find_is_some {A : Type} (f : A -> bool) (l : list A) (x : A) :
  In x l -> f x = true -> is_Some (find f l).
Proof.
  induction l as [|y l IH]; simpl; [intros [] |].
  intros [-> | Hin] Hx.
  - rewrite Hx. eauto.
  - destruct (f y); [eauto | exact (IH Hin Hx)].
Qed.

(** A channel that is found stays found when channels are added. *)
Lemma get_text_channel_more (g g' : Guild) (nm : str) (cat : Z) (more : list Channel) :
  channels g' = channels g ++ more ->
  is_Some (get_text_channel g nm cat) -> is_Some (get_text_channel g' nm cat).
Proof.
  unfold get_text_channel, text_channels. intros -> [c Hc].
  rewrite filter_app. rewrite (find_app_some _ _ _ _ Hc). eauto.
Qed.

(** A channel just created under the category is found by its name. *)
Lemma get_text_channel_new (g' : Guild) (old : list Channel) (c : Channel) (cat : Z) :
  channels g' = old ++ [c] ->
  ch_kind c = TextChannel -> ch_category_id c = Some cat ->
  is_Some (get_text_channel g' (ch_name c) cat).
Proof.
  intros Hch Hk Hc. unfold get_text_channel, text_channels. rewrite Hch.
  apply (find_is_some _ _ c).
  - apply list_elem_of_In, list_elem_of_filter. split; [exact Hk |].
    apply list_elem_of_In, in_or_app. right. left. reflexivity.
  - rewrite Hc, !bool_decide_eq_true_2 by reflexivity. reflexivity.
Qed.

(** *** The inner loop

    The loop touches neither the channels nor the records; it calls the
    platform for webhooks of the channel only.  When it ends, every URL has
    its new URL; when it fails at a URL, the URLs before it have theirs and
    the others have none from this loop. *)
Lemma create_webhooks_run (channel : Channel) (r : str) (n : nat) (urls : list str) :
  forall (idx : nat) (g : Guild) (c : Creator),
    let out := create_webhooks channel r n idx urls (g, c) in
    let g' := fst (fst out) in
    let c' := snd (fst out) in
    channels g' = channels g /\
    (exists new_calls,
       calls g' = calls g ++ new_calls /\
       Forall (is_webhook_creation (ch_id channel)) new_calls) /\
    category_id c' = category_id c /\
    created_channels c' = created_channels c /\
    notices c' = notices c /\
    match snd out with
    | Ok _ =>
        exists news,
          length news = length urls /\
          webhook_mappings c' = set_all (combine urls news) (webhook_mappings c)
    | Raise _ =>
        exists done failed todo news,
          urls = done ++ failed :: todo /\
          length news = length done /\
          webhook_mappings c' = set_all (combine done news) (webhook_mappings c)
    end.
Proof.
  induction urls as [|old_url urls IH]; intros idx g c.
  - simpl. repeat split; try reflexivity.
    + exists []. rewrite app_nil_r. split; [reflexivity | constructor].
    + exists []. split; reflexivity.
  - cbn [create_webhooks]. cbv zeta. rewrite run_bind, run_on_fst.
    destruct (create_webhook_run channel (webhook_name r n idx) g) as [Hch Hcalls].
    destruct (create_webhook channel (webhook_name r n idx) g) as [g1 [new_url | e]];
      cbn [fst snd] in *.
    + rewrite run_bind.
      change (set_mapping old_url new_url (g1, c))
        with ((g1, add_mapping old_url new_url c), Ok tt).
      cbv beta iota.
      specialize (IH (S idx) g1 (add_mapping old_url new_url c)). cbv zeta in IH.
      destruct IH as (H1 & (calls2 & H2 & H2') & H3 & H4 & H5 & H6).
      split; [rewrite H1; exact Hch |].
      split.
      { exists (CreateWebhook (ch_id channel) (webhook_name r n idx) :: calls2).
        split.
        - rewrite H2, Hcalls, <- app_assoc. reflexivity.
        - constructor; [eexists; reflexivity | exact H2']. }
      split; [exact H3 |]. split; [exact H4 |]. split; [exact H5 |].
      destruct (snd (create_webhooks channel r n (S idx) urls
                       (g1, add_mapping old_url new_url c))).
      * destruct H6 as (news & Hlen & Hmap). exists (new_url :: news).
        split; [simpl; congruence | exact Hmap].
      * destruct H6 as (done & failed & todo & news & Hu & Hlen & Hmap).
        exists (old_url :: done), failed, todo, (new_url :: news).
        split; [simpl; congruence |]. split; [simpl; congruence | exact Hmap].
    + split; [exact Hch |].
      split.
      { exists [CreateWebhook (ch_id channel) (webhook_name r n idx)].
        split; [exact Hcalls |]. constructor; [eexists; reflexivity | constructor]. }
      repeat (split; [reflexivity |]).
      exists [], old_url, urls, []. repeat split; reflexivity.
Qed.

(** *** One resource *)

(** Without the category the run returns [False] at once. *)
Lemma provision_no_category (r : str) (urls : gset str) (g : Guild) (c : Creator) :
  get_channel g (category_id c) = None ->
  provision r urls (g, c) = ((g, add_notice CategoryNotFound c), Ok (Some false)).
Proof.
  intros Hcat. unfold provision. rewrite run_bind. unfold get at 1. cbn [fst snd].
  rewrite Hcat. reflexivity.
Qed.

(** An existing channel is taken as it is. *)
Lemma provision_reuse (r : str) (urls : gset str) (g : Guild) (c : Creator)
    (category existing : Channel) :
  get_channel g (category_id c) = Some category ->
  get_text_channel g (channel_name r) (category_id c) = Some existing ->
  provision r urls (g, c)
  = record_and_create r urls existing (g, add_notice (Reusing r) c).
Proof.
  intros Hcat Hex. unfold provision. rewrite run_bind. unfold get at 1. cbn [fst snd].
  rewrite Hcat. fold (channel_name r). rewrite Hex.
  rewrite run_bind. rewrite run_bind. unfold record_and_create.
  change (notify (Reusing r) (g, c)) with ((g, add_notice (Reusing r) c), Ok tt).
  cbv beta iota. rewrite run_ret. rewrite run_bind.
  change (append_channel ?x (g, ?c')) with ((g, add_record x c'), Ok tt).
  cbv beta iota. rewrite run_bind. cbn [fst snd]. unfold record_of, sorted_urls.
  destruct (create_webhooks existing r (size urls) 1 (sorted_by id (elements urls)) _)
    as [s' [[] | e]]; reflexivity.
Qed.

(** A missing channel is asked for; when the platform refuses, the step
    raises with the creator as it was. *)
Lemma provision_create (r : str) (urls : gset str) (g : Guild) (c : Creator)
    (category : Channel) :
  get_channel g (category_id c) = Some category ->
  get_text_channel g (channel_name r) (category_id c) = None ->
  provision r urls (g, c)
  = match create_text_channel (channel_name r) category g with
    | (g', Ok channel) =>
        record_and_create r urls channel (g', add_notice (CreatedChannel r) c)
    | (g', Raise e) => ((g', c), Raise e)
    end.
Proof.
  intros Hcat Hex. unfold provision. rewrite run_bind. unfold get at 1. cbn [fst snd].
  rewrite Hcat. fold (channel_name r). rewrite Hex.
  rewrite run_bind. rewrite run_bind. rewrite run_on_fst.
  destruct (create_text_channel (channel_name r) category g) as [g' [channel | e]];
    cbn [fst snd]; [|reflexivity].
  rewrite run_bind.
  change (notify (CreatedChannel r) (g', c))
    with ((g', add_notice (CreatedChannel r) c), Ok tt).
  cbv beta iota. rewrite run_ret. rewrite run_bind. unfold record_and_create.
  change (append_channel ?x (g', ?c')) with ((g', add_record x c'), Ok tt).
  cbv beta iota. rewrite run_bind. cbn [fst snd]. unfold record_of, sorted_urls.
  destruct (create_webhooks channel r (size urls) 1 (sorted_by id (elements urls)) _)
    as [s' [[] | e]]; reflexivity.
Qed.

(** *** The invariant of the loop *)

Import ProvisionInv.

Lemma grows_refl (resources : list str) (s : State) : grows resources s s.
Proof.
  apply (Grows _ _ _ [] []); rewrite ?app_nil_r; try reflexivity.
  - intros nm cat [].
  - intros H. contradiction.
  - intros rec H. left. exact H.
Qed.

Lemma grows_add_notice (resources : list str) (s : State) (g' : Guild) (c' : Creator)
    (n : notice) :
  grows resources s (g', c') -> grows resources s (g', add_notice n c').
Proof.
  intros [added new_calls H1 H2 H3 H4 H5 H6].
  apply (Grows _ _ _ added new_calls); assumption.
Qed.

Lemma get_text_channel_none_before (g g' : Guild) (nm : str) (cat : Z) (more : list Channel) :
  channels g' = channels g ++ more ->
  get_text_channel g' nm cat = None -> get_text_channel g nm cat = None.
Proof.
  intros Hch Hnone. destruct (get_text_channel g nm cat) as [c |] eqn:E; [|reflexivity].
  destruct (get_text_channel_more g g' nm cat more Hch) as [c' Hc']; [eauto |].
  congruence.
Qed.

Lemma grows_trans (rs1 rs2 : list str) (s s1 s2 : State) :
  grows rs1 s s1 -> grows rs2 s1 s2 -> grows (rs1 ++ rs2) s s2.
Proof.
  intros [a1 c1 Hcat1 Hch1 Hcl1 Hneed1 Hadd1 Hrec1] [a2 c2 Hcat2 Hch2 Hcl2 Hneed2 Hadd2 Hrec2].
  apply (Grows _ _ _ (a1 ++ a2) (c1 ++ c2)).
  - congruence.
  - rewrite Hch2, Hch1, app_assoc. reflexivity.
  - rewrite Hcl2, Hcl1, app_assoc. reflexivity.
  - intros nm cat Hin. apply in_app_or in Hin. destruct Hin as [Hin | Hin].
    + destruct (Hneed1 nm cat Hin) as (r & Hr & Hnm & Hnone).
      exists r. split; [apply in_or_app; left; exact Hr | split; assumption].
    + destruct (Hneed2 nm cat Hin) as (r & Hr & Hnm & Hnone).
      exists r. split; [apply in_or_app; right; exact Hr |]. split; [exact Hnm |].
      rewrite Hcat1 in Hnone. exact (get_text_channel_none_before _ _ _ _ _ Hch1 Hnone).
  - intros Hne. apply Exists_app. destruct a1 as [|x a1].
    + right. apply Hadd2. exact Hne.
    + left. apply Hadd1. discriminate.
  - intros rec Hin. destruct (Hrec2 rec Hin) as [Hin1 | [Hr Hfound]].
    + destruct (Hrec1 rec Hin1) as [Hin0 | [Hr Hfound]]; [left; exact Hin0 |].
      right. split; [apply in_or_app; left; exact Hr |].
      exact (get_text_channel_more _ _ _ _ _ Hch2 Hfound).
    + right. split; [apply in_or_app; right; exact Hr |].
      rewrite <- Hcat1. exact Hfound.
Qed.

(** After the record of a channel that is found, the inner loop. *)
Lemma grows_record_and_create (r : str) (urls : gset str) (channel : Channel)
    (s : State) (g1 : Guild) (c1 : Creator) (added : list Channel) (asked : list call) :
  category_id c1 = category_id (snd s) ->
  created_channels c1 = created_channels (snd s) ->
  channels g1 = channels (fst s) ++ added ->
  calls g1 = calls (fst s) ++ asked ->
  (forall nm cat, In (CreateTextChannel nm cat) asked ->
     nm = channel_name r /\
     get_text_channel (fst s) nm (category_id (snd s)) = None) ->
  (added <> [] -> Exists is_channel_creation asked) ->
  is_Some (get_text_channel g1 (channel_name r) (category_id (snd s))) ->
  grows [r] s (fst (record_and_create r urls channel (g1, c1))).
Proof.
  intros Hcat Hrecs Hch Hcl Hneed Hadd Hfound. unfold record_and_create. cbn [fst snd].
  pose proof (create_webhooks_run channel r (size urls) (sorted_urls urls) 1 g1
                (add_record (record_of r channel urls) c1)) as Hrun.
  cbv zeta in Hrun.
  destruct (create_webhooks channel r (size urls) 1 (sorted_urls urls)
              (g1, add_record (record_of r channel urls) c1)) as [[g2 c2] res].
  cbn [fst snd] in Hrun.
  destruct Hrun as (H1 & (wcalls & H2 & H2') & H3 & H4 & _ & _).
  assert (Hg : grows [r] s (g2, c2)).
  { apply (Grows _ _ _ added (asked ++ wcalls)); cbn [fst snd].
    - rewrite H3. exact Hcat.
    - rewrite H1. exact Hch.
    - rewrite H2, Hcl, app_assoc. reflexivity.
    - intros nm cat Hin. apply in_app_or in Hin. destruct Hin as [Hin | Hin].
      + destruct (Hneed nm cat Hin) as [Hnm Hnone].
        exists r. split; [left; reflexivity | split; assumption].
      + rewrite List.Forall_forall in H2'. destruct (H2' _ Hin) as [nm' Hnm'].
        discriminate.
    - intros Hne. apply Exists_app. left. exact (Hadd Hne).
    - intros rec Hin. rewrite H4 in Hin. cbn [add_record created_channels] in Hin.
      apply in_app_or in Hin. destruct Hin as [Hin | [<- | []]].
      + left. rewrite <- Hrecs. exact Hin.
      + right. split; [left; reflexivity |]. cbn [record_of rec_resource].
        rewrite (get_text_channel_channels g1 g2 _ _ H1). exact Hfound. }
  destruct res as [[] | e]; exact Hg.
Qed.

(** One turn of the loop. *)
Lemma grows_step (item : str * gset str) (s : State) :
  grows [fst item] s (fst (provision_or_skip item s)).
Proof.
  destruct s as [g c]. destruct item as [r urls]. unfold provision_or_skip, try_.
  cbn [fst snd].
  destruct (get_channel g (category_id c)) as [category |] eqn:Hcat.
  2:{ rewrite (provision_no_category r urls g c Hcat). cbn [fst].
      apply grows_add_notice, grows_refl. }
  assert (Hskip : forall (s' : State) (e : exn),
            grows [r] (g, c) s' ->
            grows [r] (g, c)
              (fst ((notify (Skipped r e) ≫= fun _ => mret (None : option bool)) s'))).
  { intros [g' c'] e Hg. apply grows_add_notice. exact Hg. }
  destruct (get_text_channel g (channel_name r) (category_id c)) as [existing |] eqn:Hex.
  - rewrite (provision_reuse r urls g c category existing Hcat Hex).
    assert (Hg : grows [r] (g, c)
                   (fst (record_and_create r urls existing (g, add_notice (Reusing r) c)))).
    { apply (grows_record_and_create r urls existing (g, c) g _ [] []);
        cbn [fst snd]; rewrite ?app_nil_r; try reflexivity.
      - intros nm cat [].
      - intros H. contradiction.
      - rewrite Hex. eauto. }
    destruct (record_and_create r urls existing (g, add_notice (Reusing r) c))
      as [s' [o | e]]; [exact Hg | apply Hskip; exact Hg].
  - rewrite (provision_create r urls g c category Hcat Hex).
    destruct (create_text_channel_run (channel_name r) category g) as [Hcalls Hres].
    destruct (create_text_channel (channel_name r) category g) as [g1 [channel | e]];
      cbn [fst snd] in *.
    + destruct Hres as (Hnm & Hkind & Hparent & Hch).
      assert (Hg : grows [r] (g, c)
                     (fst (record_and_create r urls channel
                             (g1, add_notice (CreatedChannel r) c)))).
      { apply (grows_record_and_create r urls channel (g, c) g1 _ [channel]
                 [CreateTextChannel (channel_name r) (ch_id category)]);
          cbn [fst snd]; try reflexivity; try assumption.
        - intros nm cat [H | []]. injection H as <- _. split; [reflexivity | exact Hex].
        - intros _. constructor. exact I.
        - rewrite <- Hnm. apply (get_text_channel_new g1 (channels g) channel); try assumption.
          rewrite Hparent, (get_channel_id _ _ _ Hcat). reflexivity. }
      destruct (record_and_create r urls channel (g1, add_notice (CreatedChannel r) c))
        as [s' [o | e]]; [exact Hg | apply Hskip; exact Hg].
    + apply grows_add_notice.
      apply (Grows _ _ _ [] [CreateTextChannel (channel_name r) (ch_id category)]);
        cbn [fst snd]; rewrite ?app_nil_r; try reflexivity; try assumption.
      * intros nm cat [H | []]. injection H as <- _.
        exists r. split; [left; reflexivity |]. split; [reflexivity | exact Hex].
      * intros H. contradiction.
      * intros rec H. left. exact H.
Qed.

(** The whole loop. *)
Lemma grows_loop (items : list (str * gset str)) (s : State) :
  grows (map fst items) s (fst (create_loop items s)).
Proof.
  revert s. induction items as [|item items IH]; intros s.
  - apply grows_refl.
  - cbn [create_loop map]. rewrite run_bind.
    pose proof (grows_step item s) as Hstep.
    destruct (provision_or_skip item s) as [s1 [[b |] | e]]; cbn [fst] in *.
    + apply (grows_trans [fst item] (map fst items) s s1 s1 Hstep), grows_refl.
    + exact (grows_trans [fst item] (map fst items) s s1 _ Hstep (IH s1)).
    + apply (grows_trans [fst item] (map fst items) s s1 s1 Hstep), grows_refl.
Qed.

(** *** The sorted items *)

Lemma insert_by_In {A : Type} (key : A -> str) (x y : A) (l : list A) :
  In y (insert_by key x l) <-> y = x \/ In y l.
Proof.
  induction l as [|z l IH]; simpl.
  - intuition congruence.
  - destruct (str_leb (key x) (key z)); simpl; [intuition congruence |].
    rewrite IH. intuition congruence.
Qed.

Lemma sorted_by_In {A : Type} (key : A -> str) (y : A) (l : list A) :
  In y (sorted_by key l) <-> In y l.
Proof.
  induction l as [|x l IH]; simpl; [reflexivity |].
  rewrite insert_by_In, IH. intuition congruence.
Qed.

Lemma sorted_items_not_nil (idx : gmap str (gset str)) :
  idx <> ∅ -> sorted_by fst (map_to_list idx) <> [].
Proof.
  intros Hne Hnil. apply Hne, map_to_list_empty_iff.
  destruct (map_to_list idx) as [|x l]; [reflexivity |].
  exfalso. assert (Hin : In x (sorted_by fst (x :: l))) by (apply sorted_by_In; left; reflexivity).
  rewrite Hnil in Hin. exact Hin.
Qed.

Lemma sorted_items_dom (idx : gmap str (gset str)) (r : str) :
  In r (map fst (sorted_by fst (map_to_list idx))) -> r ∈ dom idx.
Proof.
  intros Hin. apply in_map_iff in Hin. destruct Hin as ([r' urls] & <- & Hin).
  apply sorted_by_In, list_elem_of_In, elem_of_map_to_list in Hin.
  apply elem_of_dom. eauto.
Qed.

(** *** The missing category *)

Lemma create_loop_no_category (items : list (str * gset str)) (g : Guild) (c : Creator) :
  get_channel g (category_id c) = None -> items <> [] ->
  create_loop items (g, c) = ((g, add_notice CategoryNotFound c), Ok false).
Proof.
  intros Hcat Hne. destruct items as [|[r urls] items]; [contradiction |].
  cbn [create_loop]. rewrite run_bind. unfold provision_or_skip, try_. cbn [fst snd].
  rewrite (provision_no_category r urls g c Hcat). reflexivity.
Qed.

(** C6. When the category does not exist, [create_all] on a non-empty index
    returns [False] at the first resource: it makes no call, leaves the
    guild as it is and records neither a channel nor a mapping; the only
    trace is the notice that the category was not found.  The command, which
    starts provisioning only with a non-empty index, then never reaches the
    rewrite. *)
Theorem missing_category_aborts (g : Guild) (c : Creator) (idx : gmap str (gset str)) :
  get_channel g (category_id c) = None ->
  (idx <> ∅ ->
   create_all idx (g, c) = ((g, add_notice CategoryNotFound c), Ok false)) /\
  let out := provisioning_stage idx (g, c) in
  fst (fst out) = g /\
  webhook_mappings (snd (fst out)) = webhook_mappings c /\
  created_channels (snd (fst out)) = created_channels c /\
  (snd out = Ok NoWebhooksFound \/ snd out = Ok ProvisioningFailed) /\
  (idx <> ∅ -> snd out = Ok ProvisioningFailed).
Proof.
  intros Hcat.
  assert (Hall : idx <> ∅ ->
            create_all idx (g, c) = ((g, add_notice CategoryNotFound c), Ok false)).
  { intros Hne. unfold create_all.
    apply create_loop_no_category; [exact Hcat | apply sorted_items_not_nil, Hne]. }
  split; [exact Hall |]. cbv zeta. unfold provisioning_stage.
  destruct (decide (idx = ∅)) as [-> | Hne].
  - rewrite bool_decide_eq_true_2 by reflexivity. cbn.
    repeat split; auto. intros H. contradiction.
  - rewrite bool_decide_eq_false_2 by exact Hne.
    rewrite run_bind, (Hall Hne). cbn. repeat split; auto.
Qed.

(** The theorem at a guild without any channel and one resource. *)
Lemma missing_category_aborts_witness :
  create_all {[ lit "shop" := {[ Sample.old_url ]} ]}
    (mkGuild [] [Created 10 []; Created 11 Sample.new_url] [], init 1)
  = ((mkGuild [] [Created 10 []; Created 11 Sample.new_url] [],
      add_notice CategoryNotFound (init 1)), Ok false).
Proof.
  apply (proj1 (missing_category_aborts
                  (mkGuild [] [Created 10 []; Created 11 Sample.new_url] []) (init 1)
                  {[ lit "shop" := {[ Sample.old_url ]} ]} eq_refl)).
  intros H. apply (f_equal (fun m => m !! lit "shop")) in H.
  rewrite lookup_singleton_eq, lookup_empty in H. discriminate.
Defined.

(** *** A failure while a resource is provisioned *)

(** C7, as the code has it.  When a remote call fails for a resource, the
    failure is reported and the loop goes on with the next resource.  If the
    call that failed was the creation of the channel, nothing is recorded
    for the resource.  If it was the creation of an endpoint, the record of
    the channel, appended before the endpoints are created, stays, and so do
    the mappings of the URLs that come before the failing one in sorted
    order; the failing URL and those after it get no mapping from this
    resource. *)
Theorem failed_resource_is_skipped (item : str * gset str)
    (others : list (str * gset str)) (g : Guild) (c : Creator) (s' : State) (e : exn) :
  provision (fst item) (snd item) (g, c) = (s', Raise e) ->
  create_loop (item :: others) (g, c)
  = create_loop others (fst s', add_notice (Skipped (fst item) e) (snd s')) /\
  ((get_text_channel g (channel_name (fst item)) (category_id c) = None /\
    channels (fst s') = channels g /\ snd s' = c)
   \/
   (exists channel done failed todo news,
      created_channels (snd s')
      = created_channels c ++ [record_of (fst item) channel (snd item)] /\
      sorted_urls (snd item) = done ++ failed :: todo /\
      length news = length done /\
      webhook_mappings (snd s') = set_all (combine done news) (webhook_mappings c))).
Proof.
  destruct item as [r urls]. cbn [fst snd]. intros Hfail. split.
  { cbn [create_loop]. rewrite run_bind. unfold provision_or_skip, try_. cbn [fst snd].
    rewrite Hfail. destruct s' as [g' c']. reflexivity. }
  assert (Hrc : forall channel g1 c1,
            webhook_mappings c1 = webhook_mappings c ->
            created_channels c1 = created_channels c ->
            record_and_create r urls channel (g1, c1) = (s', Raise e) ->
            exists channel done failed todo news,
              created_channels (snd s') = created_channels c ++ [record_of r channel urls] /\
              sorted_urls urls = done ++ failed :: todo /\
              length news = length done /\
              webhook_mappings (snd s') = set_all (combine done news) (webhook_mappings c)).
  { intros channel g1 c1 Hm Hr Hrun. unfold record_and_create in Hrun. cbn [fst snd] in Hrun.
    pose proof (create_webhooks_run channel r (size urls) (sorted_urls urls) 1 g1
                  (add_record (record_of r channel urls) c1)) as Hw.
    cbv zeta in Hw.
    destruct (create_webhooks channel r (size urls) 1 (sorted_urls urls)
                (g1, add_record (record_of r channel urls) c1)) as [s2 [[] | e2]];
      [discriminate |].
    injection Hrun as -> ->. cbn [fst snd] in Hw.
    destruct Hw as (_ & _ & _ & H4 & _ & (done & failed & todo & news & Hu & Hl & Hmap)).
    exists channel, done, failed, todo, news.
    rewrite H4, Hmap. cbn [add_record created_channels webhook_mappings].
    rewrite Hm, Hr. repeat split; assumption. }
  destruct (get_channel g (category_id c)) as [category |] eqn:Hcat.
  2:{ rewrite (provision_no_category r urls g c Hcat) in Hfail. discriminate. }
  destruct (get_text_channel g (channel_name r) (category_id c)) as [existing |] eqn:Hex.
  - rewrite (provision_reuse r urls g c category existing Hcat Hex) in Hfail.
    right. exact (Hrc existing g (add_notice (Reusing r) c) eq_refl eq_refl Hfail).
  - rewrite (provision_create r urls g c category Hcat Hex) in Hfail.
    destruct (create_text_channel_run (channel_name r) category g) as [_ Hres].
    destruct (create_text_channel (channel_name r) category g) as [g1 [channel | e1]];
      cbn [fst snd] in *.
    + right. exact (Hrc channel g1 (add_notice (CreatedChannel r) c) eq_refl eq_refl Hfail).
    + left. injection Hfail as <- <-. cbn [fst snd]. repeat split. exact Hres.
Qed.

(** The theorem at a resource whose channel the platform refuses. *)
Lemma failed_resource_is_skipped_witness :
  exists s',
    provision (lit "shop") {[ Sample.old_url ]}
      (Sample.guild [Failed HTTPException], init 1) = (s', Raise HTTPException) /\
    create_loop [(lit "shop", {[ Sample.old_url ]})]
      (Sample.guild [Failed HTTPException], init 1)
    = create_loop [] (fst s', add_notice (Skipped (lit "shop") HTTPException) (snd s')).
Proof.
  eexists. split; [vm_compute; reflexivity |].
  apply (proj1 (failed_resource_is_skipped (lit "shop", {[ Sample.old_url ]}) []
                  (Sample.guild [Failed HTTPException]) (init 1) _ HTTPException
                  ltac:(vm_compute; reflexivity))).
Defined.

(** The claim as stated fails when an endpoint cannot be created: the
    second webhook of [bank] is refused, yet [bank] keeps its channel record
    and the mapping of its first URL.  The run goes on with [shop]. *)
Lemma failed_endpoint_keeps_record :
  let idx : gmap str (gset str) :=
    {[ lit "bank" := {[ Sample.old_url; Sample.other_url ]};
       lit "shop" := {[ Sample.third_url ]} ]} in
  let out :=
    create_all idx
      (Sample.guild [Created 10 []; Created 11 Sample.new_url; Failed HTTPException;
                     Created 12 []; Created 13 Sample.new_url2], init 1) in
  snd out = Ok true /\
  notices (snd (fst out))
  = [CreatedChannel (lit "bank"); Skipped (lit "bank") HTTPException;
     CreatedChannel (lit "shop")] /\
  created_channels (snd (fst out))
  = [mkChannelRecord (lit "bank-logs") 10 (lit "bank") 2;
     mkChannelRecord (lit "shop-logs") 12 (lit "shop") 1] /\
  webhook_mappings (snd (fst out))
  = [(Sample.old_url, Sample.new_url); (Sample.third_url, Sample.new_url2)] /\
  has_record (lit "bank") (snd (fst out)) /\
  dict_get Sample.old_url (webhook_mappings (snd (fst out))) = Some Sample.new_url.
Proof.
  cbv zeta.
  set (out := create_all _ _).
  assert (Hrecords : created_channels (snd (fst out))
                     = [mkChannelRecord (lit "bank-logs") 10 (lit "bank") 2;
                        mkChannelRecord (lit "shop-logs") 12 (lit "shop") 1])
    by (vm_compute; reflexivity).
  split; [vm_compute; reflexivity |]. split; [vm_compute; reflexivity |].
  split; [exact Hrecords |]. split; [vm_compute; reflexivity |].
  split; [|vm_compute; reflexivity].
  exists (mkChannelRecord (lit "bank-logs") 10 (lit "bank") 2).
  rewrite Hrecords. split; [left |]; reflexivity.
Qed.

(** *** Reuse of channels *)

Lemma later_channels (g : Guild) (responses : list response) (nm : str) (cat : Z) :
  get_text_channel (later g responses) nm cat = get_text_channel g nm cat.
Proof. reflexivity. Qed.

(** A resource with a record has its channel in the guild. *)
Lemma recorded_channel_found (idx : gmap str (gset str)) (g : Guild) (cat : Z) (r : str) :
  has_record r (snd (fst (create_all idx (g, init cat)))) ->
  is_Some (get_text_channel (fst (fst (create_all idx (g, init cat))))
             (channel_name r) cat).
Proof.
  intros (rec & Hin & <-). unfold create_all in *.
  destruct (grows_loop (sorted_by fst (map_to_list idx)) (g, init cat))
    as [added new_calls _ _ _ _ _ Hrec].
  destruct (Hrec rec Hin) as [[] | [_ Hfound]]. exact Hfound.
Qed.

(** C5, as the code has it.  (1) When the category exists and a text
    channel of the category has the sanitized name of the resource, the
    provisioner takes that channel: it adds no channel, calls the platform
    only for webhooks of that channel, and records the channel for the
    resource.  (2) In a second run against the same index, no channel is
    asked for under the name of a resource for which the first run recorded
    a channel.  (3) So when the first run recorded a channel for every
    resource, the second run asks for no channel and adds none. *)
Theorem existing_channel_is_reused :
  (forall (r : str) (urls : gset str) (g : Guild) (c : Creator)
          (category existing : Channel),
     get_channel g (category_id c) = Some category ->
     get_text_channel g (channel_name r) (category_id c) = Some existing ->
     let s' := fst (provision_or_skip (r, urls) (g, c)) in
     channels (fst s') = channels g /\
     (exists new_calls,
        calls (fst s') = calls g ++ new_calls /\
        Forall (is_webhook_creation (ch_id existing)) new_calls) /\
     In (record_of r existing urls) (created_channels (snd s')) /\
     In (Reusing r) (notices (snd s'))) /\
  (forall (idx : gmap str (gset str)) (g : Guild) (cat : Z) (responses : list response),
     let first := fst (create_all idx (g, init cat)) in
     let second := fst (create_all idx (later (fst first) responses, init cat)) in
     (forall r nm cat',
        has_record r (snd first) ->
        In (CreateTextChannel nm cat') (calls (fst second)) ->
        nm <> channel_name r) /\
     ((forall r, r ∈ dom idx -> has_record r (snd first)) ->
      channels (fst second) = channels (fst first) /\
      Forall (fun c => ~ is_channel_creation c) (calls (fst second)))).
Proof.
  split.
  - intros r urls g c category existing Hcat Hex s'. subst s'.
    unfold provision_or_skip, try_. cbn [fst snd].
    rewrite (provision_reuse r urls g c category existing Hcat Hex).
    unfold record_and_create. cbn [fst snd].
    pose proof (create_webhooks_run existing r (size urls) (sorted_urls urls) 1 g
                  (add_record (record_of r existing urls) (add_notice (Reusing r) c))) as Hw.
    cbv zeta in Hw.
    destruct (create_webhooks existing r (size urls) 1 (sorted_urls urls)
                (g, add_record (record_of r existing urls) (add_notice (Reusing r) c)))
      as [[g2 c2] [[] | e]]; cbn [fst snd] in Hw;
      destruct Hw as (H1 & H2 & _ & H4 & H5 & _).
    + cbv beta iota. cbn [fst snd]. rewrite H4, H5.
      cbn [add_notice add_record created_channels notices].
      repeat split; try assumption; apply in_or_app; right; left; reflexivity.
    + cbv beta iota.
      change (fst ((notify (Skipped r e) ≫= fun _ => mret (None : option bool)) (g2, c2)))
        with (g2, add_notice (Skipped r e) c2).
      cbn [fst snd add_notice created_channels notices]. rewrite H4, H5.
      cbn [add_notice add_record created_channels notices].
      repeat split; try assumption.
      * apply in_or_app. right. left. reflexivity.
      * apply in_or_app. left. apply in_or_app. right. left. reflexivity.
  - intros idx g cat responses first second.
    assert (Hneed : forall nm cat',
              In (CreateTextChannel nm cat') (calls (fst second)) ->
              exists r', r' ∈ dom idx /\ nm = channel_name r' /\
                         get_text_channel (fst first) nm cat = None).
    { intros nm cat' Hin. subst second. unfold create_all in Hin.
      destruct (grows_loop (sorted_by fst (map_to_list idx))
                  (later (fst first) responses, init cat))
        as [added new_calls _ _ Hcl Hneed _ _].
      rewrite Hcl in Hin. cbn [later calls fst app] in Hin.
      destruct (Hneed nm cat' Hin) as (r' & Hr' & Hnm & Hnone).
      exists r'. split; [apply sorted_items_dom, Hr' |]. split; [exact Hnm | exact Hnone]. }
    split.
    + intros r nm cat' Hrec Hin ->.
      destruct (Hneed _ _ Hin) as (r' & _ & _ & Hnone).
      destruct (recorded_channel_found idx g cat r Hrec) as [ch Hch].
      fold first in Hch. congruence.
    + intros Hall.
      assert (Hnone : Forall (fun c => ~ is_channel_creation c) (calls (fst second))).
      { apply List.Forall_forall. intros [nm cat' | ch nm] Hin Hc; [|exact Hc].
        destruct (Hneed _ _ Hin) as (r' & Hr' & -> & Hnone).
        destruct (recorded_channel_found idx g cat r' (Hall r' Hr')) as [ch Hch].
        fold first in Hch. congruence. }
      split; [|exact Hnone].
      subst second. unfold create_all in *.
      destruct (grows_loop (sorted_by fst (map_to_list idx))
                  (later (fst first) responses, init cat))
        as [added new_calls _ Hch Hcl _ Hadd _].
      rewrite Hch. cbn [later channels fst].
      destruct added as [|x added]; [apply app_nil_r |].
      exfalso. rewrite Hcl in Hnone. cbn [later calls fst app] in Hnone.
      assert (Hex : Exists is_channel_creation new_calls) by (apply Hadd; discriminate).
      apply List.Exists_exists in Hex. destruct Hex as (x' & Hin & Hx').
      rewrite List.Forall_forall in Hnone. exact (Hnone x' Hin Hx').
Qed.

(** The theorem at a guild in which the channel [shop-logs] exists. *)
Lemma existing_channel_is_reused_witness :
  channels (fst (fst (provision_or_skip (lit "shop", {[ Sample.old_url ]})
                        (Sample.guild_with_shop [Created 11 Sample.new_url], init 1))))
  = channels (Sample.guild_with_shop [Created 11 Sample.new_url]).
Proof.
  assert (Hcat : get_channel (Sample.guild_with_shop [Created 11 Sample.new_url])
                   (category_id (init 1)) = Some Sample.category_channel)
    by (vm_compute; reflexivity).
  assert (Hex : get_text_channel (Sample.guild_with_shop [Created 11 Sample.new_url])
                  (channel_name (lit "shop")) (category_id (init 1))
                = Some Sample.shop_channel)
    by (vm_compute; reflexivity).
  exact (proj1 (proj1 existing_channel_is_reused (lit "shop") {[ Sample.old_url ]}
                  (Sample.guild_with_shop [Created 11 Sample.new_url]) (init 1)
                  Sample.category_channel Sample.shop_channel Hcat Hex)).
Defined.

(** The claim as stated fails after a first run in which the platform
    refused the channel: the first run skips [shop], and the second run
    creates its channel. *)
Lemma second_run_creates_after_failure :
  let idx : gmap str (gset str) := {[ lit "shop" := {[ Sample.old_url ]} ]} in
  let first := fst (create_all idx (Sample.guild [Failed HTTPException], init 1)) in
  let second :=
    fst (create_all idx
           (later (fst first) [Created 10 []; Created 11 Sample.new_url], init 1)) in
  notices (snd first) = [Skipped (lit "shop") HTTPException] /\
  channels (fst first) = [mkChannel 1 (lit "qb-logs") CategoryChannel None] /\
  calls (fst second)
  = [CreateTextChannel (lit "shop-logs") 1; CreateWebhook 10 (lit "shop")] /\
  channels (fst second)
  = [mkChannel 1 (lit "qb-logs") CategoryChannel None;
     mkChannel 10 (lit "shop-logs") TextChannel (Some 1)].
Proof.
  cbv zeta. repeat split; vm_compute; reflexivity.
Qed.

End ProvisionFacts.

(** ** Counting and replacing *)
Module ReplaceFacts.
Import Py Spec PyFacts RewriteSpec.

















(** *** Line ends *)


Lemma newlines_out_posix (text : str) : newlines_out [LF] text = text.
Proof.
  unfold newlines_out. induction text as [|c text IH]; [reflexivity |].
  cbn [flat_map]. rewrite IH. destruct (Ascii.eqb_spec c LF) as [-> | _]; reflexivity.
Qed.

End ReplaceFacts.

(** ** The file system *)
Module OSFacts.
Import Py OS Spec PyFacts RewriteSpec FileUpdater.

Lemma exists_spec (p : path) (w : World) : exists_ p w = true <-> is_Some (files w !! p).
Proof. unfold exists_. apply bool_decide_eq_true. Qed.

Lemma exists_false (p : path) (w : World) : exists_ p w = false <-> files w !! p = None.
Proof.
  unfold exists_. rewrite bool_decide_eq_false, <- eq_None_not_Some. reflexivity.
Qed.

Lemma next_outcome_world (w : World) :
  files (snd (next_outcome w)) = files w /\
  linesep (snd (next_outcome w)) = linesep w /\
  io_log (snd (next_outcome w)) = io_log w.
Proof. unfold next_outcome. destruct (faults w); repeat split. Qed.

(** Reading changes no file and logs nothing. *)
Lemma read_text_run (p : path) (w : World) :
  files (fst (read_text p w)) = files w /\
  linesep (fst (read_text p w)) = linesep w /\
  io_log (fst (read_text p w)) = io_log w /\
  forall content, snd (read_text p w) = Ok content ->
    exists raw, files w !! p = Some raw /\ content = newlines_in raw.
Proof.
  unfold read_text. destruct (next_outcome_world w) as (Hf & Hl & Hg).
  destruct (next_outcome w) as [[| |k] w1]; cbn [fst snd] in *.
  - rewrite Hf. destruct (files w !! p) as [raw |]; cbn [fst snd];
      repeat split; try assumption; intros content H; [|discriminate].
    exists raw. split; [reflexivity | congruence].
  - repeat split; try assumption. intros content H. discriminate.
  - repeat split; try assumption. intros content H. discriminate.
Qed.

(** Writing: done, refused on opening, or broken off after opening. *)
Lemma write_text_run (st : site) (p : path) (text : str) (w : World) :
  linesep (fst (write_text st p text w)) = linesep w /\
  match snd (write_text st p text w) with
  | Ok _ =>
      files (fst (write_text st p text w))
      = <[p := newlines_out (linesep w) text]> (files w) /\
      io_log (fst (write_text st p text w)) = io_log w ++ [Opened st p; Written st p text]
  | Raise _ =>
      (files (fst (write_text st p text w)) = files w /\
       io_log (fst (write_text st p text w)) = io_log w) \/
      (exists k,
         files (fst (write_text st p text w))
         = <[p := firstn k (newlines_out (linesep w) text)]> (files w) /\
         io_log (fst (write_text st p text w)) = io_log w ++ [Opened st p])
  end.
Proof.
  unfold write_text. destruct (next_outcome_world w) as (Hf & Hl & Hg).
  destruct (next_outcome w) as [[| |k] w1]; cbn [fst snd] in *.
  - unfold log_event, set_file. cbn [files linesep io_log].
    rewrite Hf, Hl, Hg, <- app_assoc. repeat split.
  - split; [exact Hl |]. left. split; assumption.
  - unfold log_event, set_file. cbn [files linesep io_log].
    rewrite Hf, Hl, Hg. split; [reflexivity |]. right. exists k. split; reflexivity.
Qed.

(** The other files stay as they are. *)
Lemma write_text_frame (st : site) (p q : path) (text : str) (w : World) :
  q <> p -> files (fst (write_text st p text w)) !! q = files w !! q.
Proof.
  intros Hne. destruct (write_text_run st p text w) as [_ H].
  destruct (snd (write_text st p text w)).
  - destruct H as [-> _]. apply lookup_insert_ne. congruence.
  - destruct H as [[-> _] | (k & -> & _)]; [reflexivity |].
    apply lookup_insert_ne. congruence.
Qed.

Lemma write_text_kept (st : site) (p q : path) (text : str) (w : World) :
  is_Some (files w !! q) -> is_Some (files (fst (write_text st p text w)) !! q).
Proof.
  intros Hq. destruct (write_text_run st p text w) as [_ H].
  destruct (snd (write_text st p text w)).
  - destruct H as [-> _]. apply lookup_insert_is_Some'. right. exact Hq.
  - destruct H as [[-> _] | (k & -> & _)]; [exact Hq |].
    apply lookup_insert_is_Some'. right. exact Hq.
Qed.

(** *** The name of a backup *)

Lemma str_of_nat_inj (j j' : nat) : str_of_nat j = str_of_nat j' -> j = j'.
Proof.
  unfold str_of_nat. intros H.
  apply (f_equal string_of_list_ascii) in H.
  rewrite !string_of_list_ascii_of_string in H.
  exact (pretty_nat_inj _ _ H).
Qed.

Lemma numbered_inj (dir file_path : path) (j j' : nat) :
  numbered dir file_path j = numbered dir file_path j' -> j = j'.
Proof.
  unfold numbered, joinpath. intros H.
  apply app_inv_head in H. injection H as H.
  apply app_inv_head in H. change (lit "_") with ["_"%char] in H.
  injection H as H. apply app_inv_tail in H.
  exact (str_of_nat_inj _ _ H).
Qed.

(** When the loop runs out of tests, all the numbered names that it tried
    exist. *)
Lemma free_backup_file_none (fuel : nat) (w : World) (dir file_path cand : path) (k : nat) :
  free_backup_file fuel w dir file_path cand k = None ->
  forall j, (k <= j < k + fuel - 1)%nat -> exists_ (numbered dir file_path j) w = true.
Proof.
  revert cand k. induction fuel as [|fuel IH]; intros cand k Hnone j Hj; [lia |].
  cbn [free_backup_file] in Hnone.
  destruct (exists_ cand w); [|discriminate].
  destruct (decide (j = k)) as [-> | Hne].
  - destruct fuel as [|fuel]; [lia |].
    cbn [free_backup_file] in Hnone.
    destruct (exists_ (numbered dir file_path k) w); [reflexivity | discriminate].
  - apply (IH _ _ Hnone). lia.
Qed.

(** The name that the loop returns does not exist; it is the plain name, or
    a numbered name reached after the plain name and the smaller numbers
    were all found to exist. *)
Lemma free_backup_file_some (fuel : nat) (w : World) (dir file_path cand b : path) (k : nat) :
  free_backup_file fuel w dir file_path cand k = Some b ->
  exists_ b w = false /\
  (b = cand \/
   exists j, (k <= j)%nat /\ b = numbered dir file_path j /\ exists_ cand w = true /\
             forall i, (k <= i < j)%nat -> exists_ (numbered dir file_path i) w = true).
Proof.
  revert cand k. induction fuel as [|fuel IH]; intros cand k Hsome; [discriminate |].
  cbn [free_backup_file] in Hsome.
  destruct (exists_ cand w) eqn:Hc.
  - destruct (IH _ _ Hsome) as [Hb [-> | (j & Hj & -> & Hk & Hall)]].
    + split; [exact Hb |]. right. exists k. split; [lia |]. split; [reflexivity |].
      split; [reflexivity |]. intros i Hi. lia.
    + split; [exact Hb |]. right. exists j. split; [lia |]. split; [reflexivity |].
      split; [reflexivity |]. intros i Hi.
      destruct (decide (i = k)) as [-> | Hne]; [exact Hk | apply Hall; lia].
  - injection Hsome as <-. split; [exact Hc |]. left. reflexivity.
Qed.

(** There are more numbered names than files: the loop ends. *)
Lemma free_backup_file_total (w : World) (dir file_path cand : path) (k : nat) :
  free_backup_file (enough_fuel w) w dir file_path cand k <> None.
Proof.
  intros Hnone. unfold enough_fuel in Hnone.
  pose proof (free_backup_file_none _ _ _ _ _ _ Hnone) as Hall.
  set (n := size (files w)) in *.
  set (l := numbered dir file_path <$> List.seq k (S n)).
  assert (Hnd : NoDup l).
  { apply NoDup_fmap_2_strong; [|apply NoDup_seq].
    intros x y _ _ H. exact (numbered_inj _ _ _ _ H). }
  assert (Hsub : list_to_set l ⊆ dom (files w)).
  { intros p Hp. apply elem_of_list_to_set, list_elem_of_fmap in Hp.
    destruct Hp as (j & -> & Hj). apply elem_of_seq in Hj.
    apply elem_of_dom, exists_spec, Hall. lia. }
  apply subseteq_size in Hsub.
  rewrite size_list_to_set, size_dom in Hsub by exact Hnd.
  unfold l in Hsub. rewrite length_fmap, length_seq in Hsub. fold n in Hsub. lia.
Qed.

(** The choice of the backup name.  The name is found, the world is left
    as it is, and the name is new in it. *)
Lemma choose_backup_file_run (dir file_path : path) (w : World) :
  exists b,
    choose_backup_file dir file_path w = (w, Ok b) /\
    files w !! b = None /\
    inside dir b /\
    (b = joinpath dir (name file_path) \/
     exists j, (1 <= j)%nat /\ b = numbered dir file_path j /\
               is_Some (files w !! joinpath dir (name file_path)) /\
               forall i, (1 <= i < j)%nat -> is_Some (files w !! numbered dir file_path i)).
Proof.
  unfold choose_backup_file.
  destruct (free_backup_file (enough_fuel w) w dir file_path
              (joinpath dir (name file_path)) 1) as [b |] eqn:E.
  2:{ exfalso. exact (free_backup_file_total _ _ _ _ _ E). }
  exists b. split; [reflexivity |].
  destruct (free_backup_file_some _ _ _ _ _ _ _ E) as [Hb Hform].
  split; [apply exists_false, Hb |].
  destruct Hform as [-> | (j & Hj & -> & Hc & Hall)].
  - split; [eexists; reflexivity |]. left. reflexivity.
  - split; [eexists; reflexivity |]. right. exists j.
    split; [exact Hj |]. split; [reflexivity |]. split; [apply exists_spec, Hc |].
    intros i Hi. apply exists_spec, Hall, Hi.
Qed.

End OSFacts.

(** ** The rewrite of a file *)
Module UpdateFacts.
Import Py OS Spec PyFacts RewriteSpec FileUpdater OSFacts ReplaceFacts UpdateInv.

Lemma NoDup_one {A : Type} (x : A) : NoDup [x].
Proof. constructor; [intros H; inversion H | constructor]. Qed.

Lemma backup_targets_app (l1 l2 : list event) :
  backup_targets (l1 ++ l2) = backup_targets l1 ++ backup_targets l2.
Proof. apply flat_map_app. Qed.

(** The backup: it opens nothing for the rewrite, writes to one new path at
    most, and leaves every existing file as it is. *)
Lemma backup_run (config : Config) (file_path : path) (backup_dir : option path)
    (original : str) (w : World) (st : Stats) :
  let out := backup config file_path backup_dir original (w, st) in
  let w2 := fst (fst out) in
  let st2 := snd (fst out) in
  linesep w2 = linesep w /\
  files_updated st2 = files_updated st /\
  replacements st2 = replacements st /\
  exists new,
    io_log w2 = io_log w ++ new /\
    ~ opens_in_place file_path new /\
    NoDup (backup_targets new) /\
    (forall b, In b (backup_targets new) ->
       files w !! b = None /\ is_Some (files w2 !! b) /\
       exists dir, backup_dir = Some dir /\ inside dir b) /\
    (forall q, is_Some (files w !! q) -> files w2 !! q = files w !! q).
Proof.
  assert (Hnothing :
    linesep w = linesep w /\ files_updated st = files_updated st /\
    replacements st = replacements st /\
    exists new,
      io_log w = io_log w ++ new /\ ~ opens_in_place file_path new /\
      NoDup (backup_targets new) /\
      (forall b, In b (backup_targets new) ->
         files w !! b = None /\ is_Some (files w !! b) /\
         exists dir, backup_dir = Some dir /\ inside dir b) /\
      (forall q, is_Some (files w !! q) -> files w !! q = files w !! q)).
  { split; [reflexivity |]. split; [reflexivity |]. split; [reflexivity |].
    exists []. rewrite app_nil_r. split; [reflexivity |].
    split; [intros H; exact H |]. split; [constructor |].
    split; [intros b H; destruct H |]. intros q _. reflexivity. }
  unfold backup. destruct backup_dir as [dir |]; [|exact Hnothing].
  destruct (create_backups config); [|exact Hnothing]. clear Hnothing.
  cbv zeta. rewrite run_bind, run_on_fst.
  destruct (choose_backup_file_run dir file_path w) as (b & Hch & Hnone & Hin & _).
  rewrite Hch. cbn [fst snd]. rewrite run_bind, run_on_fst.
  destruct (write_text_run BackupWrite b original w) as [Hl Hw].
  assert (Hfresh : forall q, is_Some (files w !! q) -> q <> b).
  { intros q [x Hq] ->. congruence. }
  destruct (write_text BackupWrite b original w) as [w2 [[] | e]]; cbn [fst snd] in *.
  - destruct Hw as [Hf Hg].
    change (count_backup (w2, st))
      with ((w2, mkStats (files_updated st) (replacements st) (S (files_backed_up st))),
            Ok tt : result unit).
    cbn [fst snd files_updated replacements].
    split; [exact Hl |]. split; [reflexivity |]. split; [reflexivity |].
    exists [Opened BackupWrite b; Written BackupWrite b original].
    change (backup_targets [Opened BackupWrite b; Written BackupWrite b original]) with [b].
    split; [exact Hg |]. split; [intros [H | [H | []]]; discriminate |].
    split; [apply NoDup_one |]. split.
    + intros b' [<- | []]. split; [exact Hnone |].
      split; [rewrite Hf, lookup_insert_eq; eauto | eauto].
    + intros q Hq. rewrite Hf. apply lookup_insert_ne. intros ->. exact (Hfresh _ Hq eq_refl).
  - split; [exact Hl |]. split; [reflexivity |]. split; [reflexivity |].
    destruct Hw as [[Hf Hg] | (k & Hf & Hg)].
    + exists []. rewrite app_nil_r. split; [exact Hg |]. split; [intros H; exact H |].
      split; [constructor |]. split; [intros b' H; destruct H |].
      intros q _. rewrite Hf. reflexivity.
    + exists [Opened BackupWrite b].
      change (backup_targets [Opened BackupWrite b]) with [b].
      split; [exact Hg |]. split; [intros [H | []]; discriminate |].
      split; [apply NoDup_one |]. split.
      * intros b' [<- | []]. split; [exact Hnone |].
        split; [rewrite Hf, lookup_insert_eq; eauto | eauto].
      * intros q Hq. rewrite Hf. apply lookup_insert_ne. intros ->.
        exact (Hfresh _ Hq eq_refl).
Qed.

(** Whatever the block raises is dropped: the method returns, with the
    state in which the block ended. *)
Lemma update_file_returns (config : Config) (file_path : path)
    (webhook_mappings : list (str * str)) (backup_dir : option path) (s : State) :
  _update_file config file_path webhook_mappings backup_dir s
  = (fst (update_body config file_path webhook_mappings backup_dir s), Ok tt).
Proof.
  unfold _update_file, try_.
  destruct (update_body config file_path webhook_mappings backup_dir s) as [s' [[] | e]];
    reflexivity.
Qed.

Lemma step_nothing (backup_dir : option path) (file_path : path) (r : result unit)
    (w w1 : World) (st : Stats) :
  files w1 = files w -> linesep w1 = linesep w -> io_log w1 = io_log w ->
  step_effect backup_dir file_path r (w, st) (w1, st).
Proof.
  intros Hf Hl Hg. apply (StepEffect _ _ _ _ _ []); cbn [fst snd];
    rewrite ?app_nil_r, ?Hf; try assumption; try reflexivity.
  - intros b H. destruct H.
  - constructor.
  - intros q H. exact H.
  - intros e _. split; [reflexivity |]. split; [reflexivity |]. intros H. destruct H.
Qed.

(** The effect of the [try] block. *)
Lemma update_body_step (config : Config) (file_path : path)
    (webhook_mappings : list (str * str)) (backup_dir : option path)
    (w : World) (st : Stats) :
  step_effect backup_dir file_path
    (snd (update_body config file_path webhook_mappings backup_dir (w, st)))
    (w, st)
    (fst (update_body config file_path webhook_mappings backup_dir (w, st))).
Proof.
  unfold update_body. rewrite run_bind, run_on_fst.
  destruct (read_text_run file_path w) as (Hf & Hl & Hg & Hc).
  destruct (read_text file_path w) as [w1 [content | e]]; cbn [fst snd] in *.
  2:{ apply step_nothing; assumption. }
  destruct (Hc content eq_refl) as (raw & Hraw & ->). clear Hc.
  destruct (replace_all webhook_mappings (newlines_in raw)) as [content' n].
  destruct (0 <? n)%nat.
  2:{ rewrite run_ret. cbn [fst snd]. apply step_nothing; assumption. }
  rewrite run_bind.
  pose proof (backup_run config file_path backup_dir (newlines_in raw) w1 st) as Hb.
  cbv zeta in Hb.
  destruct (backup config file_path backup_dir (newlines_in raw) (w1, st))
    as [[w2 st2] [[] | e]]; cbn [fst snd] in Hb;
    destruct Hb as (Hl2 & Hu2 & Hr2 & newb & Hg2 & Hnop & Hnd & Hfresh & Hsame).
  - rewrite run_bind, run_on_fst.
    destruct (write_text_run InPlaceWrite file_path content' w2) as [Hl3 Hw3].
    assert (Hframe := fun q => write_text_frame InPlaceWrite file_path q content' w2).
    assert (Hkept := fun q => write_text_kept InPlaceWrite file_path q content' w2).
    destruct (write_text InPlaceWrite file_path content' w2) as [w3 [[] | e]];
      cbn [fst snd] in *.
    + destruct Hw3 as [Hf3 Hg3].
      change (count_update n (w3, st2))
        with ((w3, mkStats (S (files_updated st2)) (replacements st2 + n)
                     (files_backed_up st2)), Ok tt : result unit).
      cbn [fst snd].
      apply (StepEffect _ _ _ _ _
               (newb ++ [Opened InPlaceWrite file_path;
                         Written InPlaceWrite file_path content'])); cbn [fst snd].
      * congruence.
      * rewrite Hg3, Hg2, Hg, app_assoc. reflexivity.
      * intros b Hb. rewrite backup_targets_app in Hb. cbn in Hb. rewrite app_nil_r in Hb.
        destruct (Hfresh b Hb) as (H1 & H2 & H3). rewrite <- Hf.
        split; [exact H1 |]. split; [apply Hkept, H2 | exact H3].
      * rewrite backup_targets_app. cbn. rewrite app_nil_r. exact Hnd.
      * intros Hno. exfalso. apply Hno. apply in_or_app. right. left. reflexivity.
      * intros q Hq Hs. rewrite (Hframe q Hq), <- Hf. apply Hsame. rewrite Hf. exact Hs.
      * intros q Hs. apply Hkept. rewrite Hsame by (rewrite Hf; exact Hs).
        rewrite Hf. exact Hs.
      * intros e He. discriminate.
    + destruct Hw3 as [[Hf3 Hg3] | (k & Hf3 & Hg3)].
      * apply (StepEffect _ _ _ _ _ newb); cbn [fst snd].
        -- congruence.
        -- rewrite Hg3, Hg2, Hg. reflexivity.
        -- intros b Hb. destruct (Hfresh b Hb) as (H1 & H2 & H3). rewrite <- Hf, Hf3.
           repeat split; assumption.
        -- exact Hnd.
        -- intros _. rewrite Hf3, <- Hf. apply Hsame. rewrite Hf, Hraw. eauto.
        -- intros q _ Hs. rewrite Hf3, <- Hf. apply Hsame. rewrite Hf. exact Hs.
        -- intros q Hs. rewrite Hf3, Hsame by (rewrite Hf; exact Hs). rewrite Hf. exact Hs.
        -- intros e' _. split; [exact Hu2 |]. split; [exact Hr2 |].
           intros Ho. contradiction.
      * apply (StepEffect _ _ _ _ _ (newb ++ [Opened InPlaceWrite file_path]));
          cbn [fst snd].
        -- congruence.
        -- rewrite Hg3, Hg2, Hg, app_assoc. reflexivity.
        -- intros b Hb. rewrite backup_targets_app in Hb. cbn in Hb. rewrite app_nil_r in Hb.
           destruct (Hfresh b Hb) as (H1 & H2 & H3). rewrite <- Hf.
           split; [exact H1 |]. split; [apply Hkept, H2 | exact H3].
        -- rewrite backup_targets_app. cbn. rewrite app_nil_r. exact Hnd.
        -- intros Hno. exfalso. apply Hno. apply in_or_app. right. left. reflexivity.
        -- intros q Hq Hs. rewrite (Hframe q Hq), <- Hf. apply Hsame. rewrite Hf. exact Hs.
        -- intros q Hs. apply Hkept. rewrite Hsame by (rewrite Hf; exact Hs).
           rewrite Hf. exact Hs.
        -- intros e' _. split; [exact Hu2 |]. split; [exact Hr2 |]. intros _.
           exists content', k. rewrite Hf3, lookup_insert_eq. congruence.
  - apply (StepEffect _ _ _ _ _ newb); cbn [fst snd].
    + congruence.
    + rewrite Hg2, Hg. reflexivity.
    + intros b Hb. destruct (Hfresh b Hb) as (H1 & H2 & H3). rewrite <- Hf.
      repeat split; assumption.
    + exact Hnd.
    + intros _. rewrite <- Hf. apply Hsame. rewrite Hf, Hraw. eauto.
    + intros q _ Hs. rewrite <- Hf. apply Hsame. rewrite Hf. exact Hs.
    + intros q Hs. rewrite Hsame by (rewrite Hf; exact Hs). rewrite Hf. exact Hs.
    + intros e' _. split; [exact Hu2 |]. split; [exact Hr2 |]. intros Ho. contradiction.
Qed.

(** *** A list of files *)




Lemma update_files_cons (config : Config) (file_path : path) (others : list path)
    (webhook_mappings : list (str * str)) (backup_dir : option path) (s : State) :
  update_files config (file_path :: others) webhook_mappings backup_dir s
  = update_files config others webhook_mappings backup_dir
      (fst (_update_file config file_path webhook_mappings backup_dir s)).
Proof.
  unfold update_files. cbn [for_each]. rewrite run_bind, update_file_returns. reflexivity.
Qed.





(** *** A rewrite without failure *)

Lemma read_text_success (p : path) (w : World) (raw : str) :
  faults w = [] -> files w !! p = Some raw ->
  read_text p w = (w, Ok (newlines_in raw)).
Proof.
  intros Hfaults Hraw. unfold read_text, next_outcome. rewrite Hfaults, Hraw. reflexivity.
Qed.

Lemma write_text_success (st : site) (p : path) (text : str) (w : World) :
  faults w = [] ->
  write_text st p text w
  = (log_event (Written st p text)
       (set_file p (newlines_out (linesep w) text) (log_event (Opened st p) w)), Ok tt).
Proof.
  intros Hfaults. unfold write_text, next_outcome. rewrite Hfaults. reflexivity.
Qed.






(** Two files of the same name in two directories: the second backup gets
    the number 1. *)
Example same_basename_backups :
  let a : path := [lit "srv"; lit "a"; lit "config.lua"] in
  let b : path := [lit "srv"; lit "b"; lit "config.lua"] in
  let w := Sample.posix {[ a := Sample.assignment Sample.old_url;
                           b := Sample.assignment Sample.old_url ]} [] in
  let s' := fst (update_files (mkConfig true [lit "webhook_backups"]) [a; b]
                   [(Sample.old_url, Sample.new_url)] (Some Sample.backups) (w, init)) in
  backup_targets (io_log (fst s'))
  = [joinpath Sample.backups (lit "config.lua");
     joinpath Sample.backups (lit "config_1.lua")] /\
  snd s' = mkStats 2 2 2.
Proof.
  cbv zeta. split; vm_compute; reflexivity.
Qed.

End UpdateFacts.

(** ** The walk over the resource tree *)
Module WalkFacts.
Import Py PyFacts EnhancedScanner WalkSpec.

(** Induction over a tree and the trees of its sub-directories. *)
Lemma tree_ind (P : tree -> Prop) :
  (forall dirs files,
     (forall d sub, In (d, Some sub) dirs -> P sub) -> P (Node dirs files)) ->
  forall t, P t.
Proof.
  intros step. fix IH 1. intros [dirs files]. apply step.
  induction dirs as [|[d' [sub' |]] dirs IHdirs]; intros d sub Hin.
  - destruct Hin.
  - destruct Hin as [E | Hin]; [|exact (IHdirs d sub Hin)].
    injection E as _ <-. apply IH.
  - destruct Hin as [E | Hin]; [discriminate E | exact (IHdirs d sub Hin)].
Qed.

Lemma leads_to_not_nil (t : tree) (rel : list str) : leads_to t rel -> rel <> [].
Proof. intros H. destruct H; discriminate. Qed.

(** Every path of the walk is a file of the tree with a wanted extension,
    reached through directories that are not skipped. *)
Lemma get_all_files_sound (t : tree) :
  forall root p, In p (_get_all_files root t) ->
    exists rel, p = root ++ rel /\ leads_to t rel /\
                wanted (List.last rel []) = true /\
                Forall (fun d => skipped d = false) (removelast rel).
Proof.
  induction t as [dirs files IH] using tree_ind. intros root p Hin.
  cbn [_get_all_files] in Hin. apply in_app_or in Hin. destruct Hin as [Hin | Hin].
  - apply in_map_iff in Hin. destruct Hin as (file & <- & Hfile).
    apply filter_In in Hfile. destruct Hfile as [Hfile Hw].
    exists [file]. split; [reflexivity |]. split; [apply leads_here, Hfile |].
    split; [exact Hw | constructor].
  - apply in_flat_map in Hin. destruct Hin as ([d o] & Hd & Hin). cbn [fst snd] in Hin.
    destruct (skipped d) eqn:Hs; [destruct Hin |].
    destruct o as [sub |]; [|destruct Hin].
    destruct (IH d sub Hd _ _ Hin) as (rel & -> & Hrel & Hw & Hall).
    pose proof (leads_to_not_nil _ _ Hrel) as Hne.
    exists (d :: rel). split; [unfold joinpath; rewrite <- app_assoc; reflexivity |].
    split; [exact (leads_below _ _ _ _ _ Hd Hrel) |].
    destruct rel as [|x rel]; [contradiction |].
    split; [exact Hw |]. cbn [removelast]. constructor; [exact Hs | exact Hall].
Qed.

Lemma get_all_files_complete (t : tree) (rel : list str) :
  leads_to t rel ->
  forall root,
    wanted (List.last rel []) = true ->
    Forall (fun d => skipped d = false) (removelast rel) ->
    In (root ++ rel) (_get_all_files root t).
Proof.
  induction 1 as [dirs files file Hfile | dirs files d sub rel Hd Hrel IH];
    intros root Hw Hall; cbn [_get_all_files]; apply in_or_app.
  - left. apply in_map_iff. exists file. split; [reflexivity |].
    apply filter_In. split; [exact Hfile | exact Hw].
  - right. apply in_flat_map. exists (d, Some sub). split; [exact Hd |].
    cbn [fst snd].
    pose proof (leads_to_not_nil _ _ Hrel) as Hne.
    destruct rel as [|x rel]; [contradiction |].
    cbn [removelast] in Hall. inversion Hall as [|? ? Hs Hall']; subst.
    rewrite Hs.
    replace (root ++ d :: x :: rel) with (joinpath root d ++ x :: rel)
      by (unfold joinpath; rewrite <- app_assoc; reflexivity).
    apply IH; [exact Hw | exact Hall'].
Qed.

(** X1. The walk yields exactly the files that have a wanted extension and lie
    below the root through directories none of which is skipped: a path is
    yielded if and only if it is the root followed by the names of entered
    sub-directories, none of whose lower-cased names contains a skip word,
    and by the name of a file whose lower-cased name ends with one of the
    extensions.  The name of the root itself is not tested. *)
Theorem get_all_files_spec (root : path) (t : tree) (p : path) :
  In p (_get_all_files root t) <->
  exists rel, p = root ++ rel /\ leads_to t rel /\
              wanted (List.last rel []) = true /\
              Forall (fun d => skipped d = false) (removelast rel).
Proof.
  split.
  - apply get_all_files_sound.
  - intros (rel & -> & Hrel & Hw & Hall). apply get_all_files_complete; assumption.
Qed.

Lemma NoDup_joined (root : path) (names : list str) :
  NoDup names -> NoDup (map (joinpath root) names).
Proof.
  induction 1 as [|x l Hx Hl IH]; cbn [map]; constructor; [|exact IH].
  rewrite list_elem_of_In, in_map_iff. intros (y & Hy & Hin).
  apply app_inv_head in Hy. injection Hy as ->.
  apply Hx. apply list_elem_of_In, Hin.
Qed.

Lemma NoDup_filtered (f : str -> bool) (names : list str) :
  NoDup names -> NoDup (List.filter f names).
Proof.
  induction 1 as [|x l Hx Hl IH]; cbn [List.filter]; [constructor |].
  destruct (f x); [|exact IH]. constructor; [|exact IH].
  rewrite list_elem_of_In, filter_In. intros [Hin _].
  apply Hx, list_elem_of_In, Hin.
Qed.

(** The paths found below distinct sub-directories are distinct. *)
Lemma NoDup_below (root : path) (f : str * option tree -> list path)
    (dirs : list (str * option tree)) :
  NoDup (map fst dirs) ->
  (forall e, In e dirs -> NoDup (f e)) ->
  (forall e p, In e dirs -> In p (f e) -> exists rel, p = root ++ fst e :: rel) ->
  NoDup (flat_map f dirs).
Proof.
  induction dirs as [|e dirs IH]; intros Hnd Hf Hp; cbn [flat_map]; [constructor |].
  cbn [map] in Hnd. apply NoDup_cons in Hnd. destruct Hnd as [He Hnd].
  apply NoDup_app. split; [apply Hf; left; reflexivity |]. split.
  - intros p Hin1 Hin2. apply list_elem_of_In in Hin1, Hin2.
    apply in_flat_map in Hin2. destruct Hin2 as (e' & He' & Hin2).
    destruct (Hp e p (or_introl eq_refl) Hin1) as (rel & ->).
    destruct (Hp e' _ (or_intror He') Hin2) as (rel' & Heq).
    apply app_inv_head in Heq. injection Heq as Heq _.
    apply He. rewrite Heq. apply list_elem_of_In, in_map, He'.
  - apply IH; [exact Hnd | |].
    + intros e' He'. apply Hf. right. exact He'.
    + intros e' p He'. apply Hp. right. exact He'.
Qed.

(** X2. When the names in every directory are distinct, the walk yields no path
    twice: every file is scanned once, and [files_scanned] counts files. *)
Theorem get_all_files_NoDup (t : tree) :
  distinct_names t -> forall root, NoDup (_get_all_files root t).
Proof.
  induction t as [dirs files IH] using tree_ind. intros Hd root.
  inversion Hd as [? ? Hdirs Hfiles Hsub]; subst. cbn [_get_all_files].
  apply NoDup_app. split; [apply NoDup_joined, NoDup_filtered, Hfiles |]. split.
  - intros p Hin1 Hin2. apply list_elem_of_In in Hin1, Hin2.
    apply in_map_iff in Hin1. destruct Hin1 as (file & <- & _).
    apply in_flat_map in Hin2. destruct Hin2 as ([d o] & Hin & Hp). cbn [fst snd] in Hp.
    destruct (skipped d); [destruct Hp |]. destruct o as [sub |]; [|destruct Hp].
    destruct (get_all_files_sound sub _ _ Hp) as (rel & Heq & Hrel & _).
    unfold joinpath in Heq. rewrite <- app_assoc in Heq. apply app_inv_head in Heq.
    injection Heq as _ Heq. symmetry in Heq.
    exact (leads_to_not_nil _ _ Hrel Heq).
  - apply (NoDup_below root); [exact Hdirs | |].
    + intros [d o] Hin. cbn [fst snd]. destruct (skipped d); [constructor |].
      destruct o as [sub |]; [|constructor]. apply (IH d sub Hin), (Hsub d sub Hin).
    + intros [d o] p Hin Hp. cbn [fst snd] in *. destruct (skipped d); [destruct Hp |].
      destruct o as [sub |]; [|destruct Hp].
      destruct (get_all_files_sound sub _ _ Hp) as (rel & -> & _).
      exists rel. unfold joinpath. rewrite <- app_assoc. reflexivity.
Qed.

(** The theorem at the sample tree. *)
Lemma get_all_files_NoDup_witness :
  NoDup (_get_all_files Sample.root SampleTree.server).
Proof.
  apply get_all_files_NoDup.
  constructor; [repeat constructor; rewrite list_elem_of_In; intros [] ..|].
  intros d sub [E | []]. injection E as _ <-.
  constructor; [apply (bool_decide_unpack _); vm_compute; reflexivity | constructor |].
  intros d' sub' [E | [E | [E | []]]]; try discriminate E; injection E as _ <-.
  - constructor; [constructor | apply (bool_decide_unpack _); vm_compute; reflexivity |].
    intros ? ? [].
  - constructor; [constructor | apply (bool_decide_unpack _); vm_compute; reflexivity |].
    intros ? ? [].
Defined.

(** In the sample tree the walk yields [server.cfg] and the [config.lua] of
    [shop]; the file without extension is left out, the link is not
    entered, and the resource [qb-logs] is not entered either: its name
    contains the skip word [logs]. *)
Example walk_of_sample_tree :
  _get_all_files Sample.root SampleTree.server
  = [ [lit "srv"; lit "server.cfg"]; Sample.config_lua ] /\
  skipped (lit "qb-logs") = true.
Proof. split; vm_compute; reflexivity. Qed.

End WalkFacts.

(** ** The scan of the tree *)
Module ScanAllFacts.
Import Py OS PyFacts EnhancedScanner ScanSpec ScanInv ScanFacts OSFacts.

Lemma count_entries_comm (j1 j2 : str) (z1 z2 : list (path * str)) (y : nat) :
  count_entries j1 z1 (count_entries j2 z2 y) = count_entries j2 z2 (count_entries j1 z1 y).
Proof. unfold count_entries. lia. Qed.

Lemma total_insert (m : gmap str (list (path * str))) (k : str) (l' : list (path * str)) :
  (map_fold count_entries 0 (<[k := l']> m) + length (default [] (m !! k))
   = map_fold count_entries 0 m + length l')%nat.
Proof.
  destruct (m !! k) as [l |] eqn:E; cbn [default from_option id].
  - rewrite <- (insert_delete_eq m).
    rewrite map_fold_insert_L;
      [|intros; apply count_entries_comm | apply lookup_delete_eq].
    rewrite (map_fold_delete_L count_entries 0%nat k l m);
      [|intros; apply count_entries_comm | exact E].
    unfold count_entries. lia.
  - rewrite map_fold_insert_L; [|intros; apply count_entries_comm | exact E].
    unfold count_entries. cbn [length]. lia.
Qed.

Lemma total_at_least_size (m : gmap str (list (path * str))) :
  (forall u l, m !! u = Some l -> l <> []) ->
  (size m <= map_fold count_entries 0 m)%nat.
Proof.
  induction m as [|k l m Hk IH] using map_ind; intros Hne.
  - rewrite map_size_empty. lia.
  - rewrite map_size_insert_None by exact Hk.
    rewrite map_fold_insert_L; [|intros; apply count_entries_comm | exact Hk].
    assert (Hl : l <> []) by (apply (Hne k); apply lookup_insert_eq).
    assert (IH' : (size m <= map_fold count_entries 0 m)%nat).
    { apply IH. intros u l0 Hu. apply (Hne u).
      rewrite lookup_insert_ne; [exact Hu |]. intros ->. congruence. }
    unfold count_entries at 1. destruct l; [contradiction |]. cbn [length]. lia.
Qed.

Lemma accepted_of_valid (cands : list (option str)) (u : str) :
  In u (accepted_of cands) -> _is_valid_webhook u = Ok true.
Proof.
  unfold accepted_of. rewrite in_flat_map. intros ([url |] & _ & Hin); [|destruct Hin].
  destruct (is_valid url) eqn:E; [|destruct Hin].
  destruct Hin as [<- | []]. rewrite is_valid_run, E. reflexivity.
Qed.

Lemma indexed_more (scanned more : list path) (sc : Scanner) :
  indexed scanned sc -> indexed (scanned ++ more) sc.
Proof.
  intros [H1 H2 H3 H4 H5 H6 H7]. split; try assumption.
  intros u p r Hin. destruct (H6 u p r Hin) as [Hp Hr].
  split; [apply in_or_app; left; exact Hp | exact Hr].
Qed.

(** One recorded match. *)
Lemma record_match_indexed (scanned : list path) (p : path) (r u : str) (sc : Scanner) :
  indexed scanned sc ->
  In p scanned ->
  r = _extract_resource_name (base_path sc) p ->
  _is_valid_webhook u = Ok true ->
  indexed scanned (record_match p r u sc).
Proof.
  intros [H1 H2 H3 H4 H5 H6 H7] Hp Hr Hu.
  split; cbn [record_match scan_stats resources_found webhooks_by_resource
              file_occurrences base_path webhooks_found].
  - rewrite dom_insert_L, H1. apply (comm_L (∪)).
  - intros r' u'. destruct (decide (r' = r)) as [-> | Hne].
    + rewrite lookup_insert_eq. cbn [default from_option id]. rewrite elem_of_union, elem_of_singleton.
      intros [Hold | ->]; [exact (H2 r u' Hold) | exact Hu].
    + rewrite lookup_insert_ne by congruence. apply H2.
  - intros r' urls. destruct (decide (r' = r)) as [-> | Hne].
    + rewrite lookup_insert_eq. intros E. injection E as <-.
      intros Hempty. assert (Hin : u ∈ default ∅ (webhooks_by_resource sc !! r) ∪ {[u]})
        by (apply elem_of_union; right; apply elem_of_singleton; reflexivity).
      rewrite Hempty in Hin. exact (not_elem_of_empty _ Hin).
    + rewrite lookup_insert_ne by congruence. apply H3.
  - intros r' u'.
    destruct (decide (r' = r)) as [-> | Hr']; destruct (decide (u' = u)) as [-> | Hu'].
    + rewrite !lookup_insert_eq. cbn [default from_option id]. split.
      * intros _. exists p. apply in_or_app. right. left. reflexivity.
      * intros _. apply elem_of_union. right. apply elem_of_singleton. reflexivity.
    + rewrite lookup_insert_eq, lookup_insert_ne by congruence. cbn [default from_option id].
      rewrite elem_of_union, elem_of_singleton, <- H4. tauto.
    + rewrite lookup_insert_eq, lookup_insert_ne by congruence. cbn [default from_option id].
      rewrite H4. split; intros (q & Hq); exists q.
      * apply in_or_app. left. exact Hq.
      * apply in_app_or in Hq. destruct Hq as [Hq | [Hq | []]]; [exact Hq | congruence].
    + rewrite !lookup_insert_ne by congruence. apply H4.
  - intros u' l. destruct (decide (u' = u)) as [-> | Hne].
    + rewrite lookup_insert_eq. intros E. injection E as <-.
      destruct (default [] (file_occurrences sc !! u)); discriminate.
    + rewrite lookup_insert_ne by congruence. apply H5.
  - intros u' p' r'. destruct (decide (u' = u)) as [-> | Hne].
    + rewrite lookup_insert_eq. cbn [default from_option id]. intros Hin. apply in_app_or in Hin.
      destruct Hin as [Hin | [E | []]]; [exact (H6 u p' r' Hin) |].
      injection E as <- <-. split; assumption.
    + rewrite lookup_insert_ne by congruence. apply H6.
  - unfold total_occurrences. cbn [record_match file_occurrences].
    pose proof (total_insert (file_occurrences sc) u
                  (default [] (file_occurrences sc !! u) ++ [(p, r)])) as Ht.
    rewrite length_app in Ht. cbn [length] in Ht.
    unfold total_occurrences in H7. lia.
Qed.

Lemma record_all_indexed (scanned : list path) (p : path) (r : str) (urls : list str) :
  forall sc,
    indexed scanned sc ->
    In p scanned ->
    r = _extract_resource_name (base_path sc) p ->
    (forall u, In u urls -> _is_valid_webhook u = Ok true) ->
    indexed scanned (record_all p r urls sc).
Proof.
  induction urls as [|u urls IH]; intros sc Hsc Hp Hr Hv; [exact Hsc |].
  change (record_all p r (u :: urls) sc)
    with (record_all p r urls (record_match p r u sc)).
  apply IH.
  - apply record_match_indexed; [assumption .. |]. apply Hv. left. reflexivity.
  - exact Hp.
  - exact Hr.
  - intros u' Hu'. apply Hv. right. exact Hu'.
Qed.

Lemma record_all_counters (p : path) (r : str) (urls : list str) (sc : Scanner) :
  files_with_webhooks (scan_stats (record_all p r urls sc))
  = files_with_webhooks (scan_stats sc) /\
  webhooks_found (scan_stats (record_all p r urls sc))
  = (webhooks_found (scan_stats sc) + length urls)%nat /\
  files_scanned (scan_stats (record_all p r urls sc)) = files_scanned (scan_stats sc).
Proof.
  revert sc. induction urls as [|u urls IH]; intros sc.
  - cbn [record_all fold_left length]. repeat split. lia.
  - change (record_all p r (u :: urls) sc)
      with (record_all p r urls (record_match p r u sc)).
    destruct (IH (record_match p r u sc)) as (-> & -> & ->).
    cbn [record_match scan_stats files_with_webhooks webhooks_found files_scanned length].
    repeat split. lia.
Qed.

Lemma found_indexed (scanned : list path) (urls : list str) (sc : Scanner) :
  indexed scanned sc -> indexed scanned (found urls sc).
Proof.
  intros H. destruct urls as [|u urls]; [exact H |].
  destruct H as [H1 H2 H3 H4 H5 H6 H7]. split; assumption.
Qed.

(** One file: read or not, the indexes stay consistent and nothing is
    written. *)
Lemma scan_file_consistent (scanned : list path) (p : path) (w : World) (sc : Scanner) :
  consistent scanned sc ->
  let out := _scan_file p (w, sc) in
  snd out = Ok tt /\
  files (fst (fst out)) = files w /\
  io_log (fst (fst out)) = io_log w /\
  base_path (snd (fst out)) = base_path sc /\
  files_scanned (scan_stats (snd (fst out))) = files_scanned (scan_stats sc) /\
  consistent (scanned ++ [p]) (snd (fst out)).
Proof.
  intros (Hidx & Hfiles & Hfound). cbv zeta.
  destruct (read_text_run p w) as (Hf & _ & Hlog & _).
  destruct (read_text p w) as [w' [content | e]] eqn:Hread; cbn [fst snd] in Hf, Hlog.
  - rewrite (scan_file_read _ _ _ _ _ Hread). cbn [fst snd].
    set (r := _extract_resource_name (base_path sc) p).
    set (urls := accepted content).
    destruct (record_all_counters p r urls sc) as (Hc1 & Hc2 & Hc3).
    assert (Hrec : indexed (scanned ++ [p]) (record_all p r urls sc)).
    { apply record_all_indexed.
      - apply indexed_more, Hidx.
      - apply in_or_app. right. left. reflexivity.
      - reflexivity.
      - intros u Hu. exact (accepted_of_valid _ _ Hu). }
    split; [reflexivity |]. split; [exact Hf |]. split; [exact Hlog |].
    split; [destruct (found_indexes urls (record_all p r urls sc)) as (_ & _ & ->);
            apply record_all_base_path |].
    split; [destruct urls; exact Hc3 |].
    split; [apply found_indexed, Hrec |].
    rewrite length_app. cbn [length].
    destruct urls as [|u urls]; cbn [found].
    + rewrite Hc1, Hc2. lia.
    + cbn [count_file_with_webhooks scan_stats files_with_webhooks webhooks_found].
      rewrite Hc1, Hc2. cbn [length]. lia.
  - rewrite (scan_file_unread _ _ _ _ _ Hread). cbn [fst snd].
    split; [reflexivity |]. split; [exact Hf |]. split; [exact Hlog |].
    split; [reflexivity |]. split; [reflexivity |].
    split; [apply indexed_more, Hidx |]. rewrite length_app. cbn [length]. lia.
Qed.

(** The loop of [scan]. *)
Lemma scan_files_consistent (files_ : list path) :
  forall (scanned : list path) (w : World) (sc : Scanner),
    consistent scanned sc ->
    let out := for_each files_ _scan_file (w, sc) in
    snd out = Ok tt /\
    files (fst (fst out)) = files w /\
    io_log (fst (fst out)) = io_log w /\
    base_path (snd (fst out)) = base_path sc /\
    files_scanned (scan_stats (snd (fst out))) = files_scanned (scan_stats sc) /\
    consistent (scanned ++ files_) (snd (fst out)).
Proof.
  induction files_ as [|p files_ IH]; intros scanned w sc Hsc; cbv zeta.
  - cbn [for_each]. rewrite run_ret. cbn [fst snd]. rewrite app_nil_r.
    do 5 (split; [reflexivity |]). exact Hsc.
  - cbn [for_each]. rewrite run_bind.
    destruct (scan_file_consistent scanned p w sc Hsc) as (Hr & Hf & Hl & Hb & Hn & Hc).
    destruct (_scan_file p (w, sc)) as [[w1 sc1] r1]. cbn [fst snd] in *. subst r1.
    destruct (IH (scanned ++ [p]) w1 sc1 Hc) as (Hr' & Hf' & Hl' & Hb' & Hn' & Hc').
    rewrite <- app_assoc in Hc'.
    split; [exact Hr' |]. split; [congruence |]. split; [congruence |].
    split; [congruence |]. split; [congruence | exact Hc'].
Qed.

Lemma init_consistent (base : path) : consistent [] (init base).
Proof.
  split; [|split; cbn; lia]. split; cbn [init scan_stats resources_found webhooks_by_resource
    file_occurrences webhooks_found base_path].
  - rewrite dom_empty_L. reflexivity.
  - intros r u. rewrite lookup_empty. cbn. intros H. destruct (not_elem_of_empty _ H).
  - intros r urls. rewrite lookup_empty. discriminate.
  - intros r u. rewrite !lookup_empty. cbn. split.
    + intros H. destruct (not_elem_of_empty _ H).
    + intros (p & []).
  - intros u l. rewrite lookup_empty. discriminate.
  - intros u p r. rewrite lookup_empty. intros [].
  - unfold total_occurrences. cbn [init file_occurrences]. rewrite map_fold_empty. reflexivity.
Qed.

(** The state in which [scan] ends. *)
Lemma scan_run (t : tree) (w : World) (sc : Scanner) :
  let files_ := _get_all_files (base_path sc) t in
  let s1 := fst (for_each files_ _scan_file (w, sc)) in
  snd (for_each files_ _scan_file (w, sc)) = Ok tt ->
  scan t (w, sc)
  = ((fst s1, set_files_scanned (length files_) (snd s1)),
     Ok (webhooks_by_resource (snd s1))).
Proof.
  cbv zeta. intros Hok. unfold scan. rewrite run_bind. unfold get at 1. cbn [fst snd].
  rewrite run_bind.
  destruct (for_each (_get_all_files (base_path sc) t) _scan_file (w, sc)) as [[w1 sc1] r1].
  cbn [fst snd] in *. subst r1. reflexivity.
Qed.

(** The loop of [scan] over any files, from any state: it ends, and the
    world keeps its files and its log. *)
Lemma scan_files_world (files_ : list path) :
  forall (w : World) (sc : Scanner),
    let out := for_each files_ _scan_file (w, sc) in
    snd out = Ok tt /\
    files (fst (fst out)) = files w /\
    io_log (fst (fst out)) = io_log w /\
    base_path (snd (fst out)) = base_path sc /\
    files_scanned (scan_stats (snd (fst out))) = files_scanned (scan_stats sc).
Proof.
  induction files_ as [|p files_ IH]; intros w sc; cbv zeta.
  - cbn [for_each]. rewrite run_ret. cbn [fst snd]. repeat split.
  - cbn [for_each]. rewrite run_bind.
    destruct (read_text_run p w) as (Hf & _ & Hlog & _).
    destruct (read_text p w) as [w' [content | e]] eqn:Hread; cbn [fst snd] in Hf, Hlog.
    + rewrite (scan_file_read _ _ _ _ _ Hread).
      set (r := _extract_resource_name (base_path sc) p).
      set (sc1 := found (accepted content) (record_all p r (accepted content) sc)).
      destruct (IH w' sc1) as (H1 & H2 & H3 & H4 & H5).
      assert (Hb : base_path sc1 = base_path sc).
      { unfold sc1.
        destruct (found_indexes (accepted content) (record_all p r (accepted content) sc))
          as (_ & _ & ->). apply record_all_base_path. }
      assert (Hn : files_scanned (scan_stats sc1) = files_scanned (scan_stats sc)).
      { unfold sc1. destruct (record_all_counters p r (accepted content) sc) as (_ & _ & Hc).
        destruct (accepted content); exact Hc. }
      split; [exact H1 |]. split; [congruence |]. split; [congruence |].
      split; congruence.
    + rewrite (scan_file_unread _ _ _ _ _ Hread).
      destruct (IH w' sc) as (H1 & H2 & H3 & H4 & H5).
      split; [exact H1 |]. split; [congruence |]. split; [congruence |].
      split; assumption.
Qed.

(** X3. [scan] only reads.  Whatever the files and whatever fails, it returns
    the index of the scanner, no file of the world has changed and nothing
    has been written; [files_scanned] is the number of files that the walk
    listed, those that could not be read included. *)
Theorem scan_reads_only (t : tree) (w : World) (sc : Scanner) :
  let out := scan t (w, sc) in
  let w' := fst (fst out) in
  let sc' := snd (fst out) in
  snd out = Ok (webhooks_by_resource sc') /\
  files w' = files w /\
  io_log w' = io_log w /\
  base_path sc' = base_path sc /\
  files_scanned (scan_stats sc') = length (_get_all_files (base_path sc) t).
Proof.
  cbv zeta.
  destruct (scan_files_world (_get_all_files (base_path sc) t) w sc)
    as (Hok & Hf & Hl & Hb & _).
  rewrite (scan_run t w sc Hok). cbn [fst snd].
  split; [reflexivity |]. split; [exact Hf |]. split; [exact Hl |].
  split; [exact Hb | reflexivity].
Qed.

(** The state of a fresh scanner after [scan]. *)
Lemma scan_consistent (base : path) (t : tree) (w : World) :
  let sc := snd (fst (scan t (w, init base))) in
  consistent (_get_all_files base t) sc /\
  base_path sc = base /\
  files_scanned (scan_stats sc) = length (_get_all_files base t).
Proof.
  cbv zeta.
  destruct (scan_files_consistent (_get_all_files base t) [] w (init base)
              (init_consistent base)) as (Hok & _ & _ & Hb & _ & Hc).
  rewrite (scan_run t w (init base) Hok). cbn [fst snd].
  change (base_path (init base)) with base in *. cbn [app] in Hc.
  set (s1 := fst (for_each (_get_all_files base t) _scan_file (w, init base))) in *.
  destruct Hc as ([H1 H2 H3 H4 H5 H6 H7] & Hc1 & Hc2).
  split; [|split; [exact Hb | reflexivity]].
  split; [split; assumption | split; assumption].
Qed.

(** X4. After the scan of a fresh scanner the two indexes agree.  The resources
    found are the keys of the resource index; no resource has an empty URL
    set; every URL of a set has passed the validator; and a URL is in the
    set of a resource exactly when its occurrence list has an entry with
    that resource. *)
Theorem scan_indexes_agree (base : path) (t : tree) (w : World) :
  let sc := snd (fst (scan t (w, init base))) in
  resources_found (scan_stats sc) = dom (webhooks_by_resource sc) /\
  (forall r urls, webhooks_by_resource sc !! r = Some urls -> urls <> ∅) /\
  (forall r u, u ∈ default ∅ (webhooks_by_resource sc !! r) ->
     _is_valid_webhook u = Ok true) /\
  (forall r u, u ∈ default ∅ (webhooks_by_resource sc !! r) <->
     exists p, In (p, r) (default [] (file_occurrences sc !! u))).
Proof.
  cbv zeta. destruct (scan_consistent base t w) as (([H1 H2 H3 H4 H5 H6 H7] & _) & _).
  split; [exact H1 |]. split; [exact H3 |]. split; [exact H2 | exact H4].
Qed.

(** X5. Every entry of an occurrence list names a file that the walk listed and
    the resource that [_extract_resource_name] derives from the path of
    that file. *)
Theorem scan_entries_attributed (base : path) (t : tree) (w : World) :
  let sc := snd (fst (scan t (w, init base))) in
  forall u p r, In (p, r) (default [] (file_occurrences sc !! u)) ->
    In p (_get_all_files base t) /\ r = _extract_resource_name base p.
Proof.
  cbv zeta. destruct (scan_consistent base t w) as (([H1 H2 H3 H4 H5 H6 H7] & _) & Hb & _).
  intros u p r Hin. rewrite <- Hb at 2. exact (H6 u p r Hin).
Qed.

(** The theorem at the sample tree, where [config.lua] of [shop] holds a
    webhook URL. *)
Lemma scan_entries_attributed_witness :
  In Sample.config_lua (_get_all_files Sample.root SampleTree.server) /\
  lit "shop" = _extract_resource_name Sample.root Sample.config_lua.
Proof.
  apply (scan_entries_attributed Sample.root SampleTree.server
           (Sample.posix {[ Sample.config_lua := lit "see " ++ Sample.old_url ]} [])
           Sample.old_url).
  vm_compute. left. reflexivity.
Defined.

(** X6. The statistics of a scan.  [webhooks_found] is the number of entries of
    all occurrence lists: it counts validated matches, so it is at least
    the number of distinct URLs.  A file is counted in
    [files_with_webhooks] at most once, and only with a match. *)
Theorem scan_statistics (base : path) (t : tree) (w : World) :
  let sc := snd (fst (scan t (w, init base))) in
  let st := scan_stats sc in
  webhooks_found st = total_occurrences sc /\
  (size (file_occurrences sc) <= webhooks_found st)%nat /\
  (files_with_webhooks st <= files_scanned st)%nat /\
  (files_with_webhooks st <= webhooks_found st)%nat.
Proof.
  cbv zeta.
  destruct (scan_consistent base t w) as (([H1 H2 H3 H4 H5 H6 H7] & Hc1 & Hc2) & _ & Hn).
  split; [exact H7 |]. split; [|split; [rewrite Hn; exact Hc1 | exact Hc2]].
  rewrite H7. apply total_at_least_size. exact H5.
Qed.

(** X7. A file that cannot be read is passed over: [_scan_file] returns, the
    scanner is as it was, and the loop goes on with the next file.  The
    same holds of a file that is read and has no validated match. *)
Theorem file_without_match_is_passed (p : path) (rest : list path) (w : World)
    (sc : Scanner) :
  (forall content, snd (read_text p w) = Ok content -> accepted content = []) ->
  _scan_file p (w, sc) = ((fst (read_text p w), sc), Ok tt) /\
  for_each (p :: rest) _scan_file (w, sc)
  = for_each rest _scan_file (fst (read_text p w), sc).
Proof.
  intros Hnone.
  assert (H : _scan_file p (w, sc) = ((fst (read_text p w), sc), Ok tt)).
  { destruct (read_text p w) as [w' [content | e]] eqn:Hread; cbn [fst snd] in *.
    - rewrite (scan_file_read _ _ _ _ _ Hread), (Hnone content eq_refl). reflexivity.
    - apply (scan_file_unread _ _ _ _ _ Hread). }
  split; [exact H |]. cbn [for_each]. rewrite run_bind, H. reflexivity.
Qed.

(** The theorem at a file that holds a webhook URL and cannot be opened. *)
Lemma file_without_match_is_passed_witness :
  let w := Sample.posix {[ Sample.config_lua := Sample.assignment Sample.old_url ]}
             [FailOpen] in
  _scan_file Sample.config_lua (w, init Sample.root)
  = ((fst (read_text Sample.config_lua w), init Sample.root), Ok tt).
Proof.
  cbv zeta.
  refine (proj1 (file_without_match_is_passed Sample.config_lua []
                   (Sample.posix {[ Sample.config_lua := Sample.assignment Sample.old_url ]}
                      [FailOpen])
                   (init Sample.root) _)).
  intros content H. vm_compute in H. discriminate H.
Defined.

End ScanAllFacts.

(** ** Matches *)
Module RegexFacts.
Import Py Spec PyFacts RegexSpec.

Lemma substring_refl (s : str) : substring s s.
Proof. exists [], []. rewrite app_nil_r. reflexivity. Qed.

Lemma substring_trans (a b c : str) : substring a b -> substring b c -> substring a c.
Proof.
  intros (x & y & ->) (x' & y' & ->). exists (x' ++ x), (y ++ y').
  rewrite <- !app_assoc. reflexivity.
Qed.

Lemma substring_app_l (g a b : str) : substring g a -> substring g (a ++ b).
Proof.
  intros (x & y & ->). exists x, (y ++ b). rewrite <- !app_assoc. reflexivity.
Qed.

Lemma substring_app_r (g a b : str) : substring g b -> substring g (a ++ b).
Proof.
  intros (x & y & ->). exists (a ++ x), y. rewrite <- !app_assoc. reflexivity.
Qed.

Lemma forallb_weaken (ok ok' : ascii -> bool) (s : str) :
  (forall x, ok x = true -> ok' x = true) -> forallb ok s = true -> forallb ok' s = true.
Proof.
  intros Himp. rewrite !forallb_forall. intros H x Hx. apply Himp, H, Hx.
Qed.

Lemma reached_refl (ok : ascii -> bool) (cur : cursor) : reached ok cur cur [].
Proof. repeat split. left. reflexivity. Qed.

Lemma reached_weaken (ok ok' : ascii -> bool) (cur cur' : cursor) (passed : str) :
  (forall x, ok x = true -> ok' x = true) ->
  reached ok cur cur' passed -> reached ok' cur cur' passed.
Proof.
  intros Himp (H1 & H2 & H3 & H4). repeat split; try assumption.
  exact (forallb_weaken _ _ _ Himp H3).
Qed.

Lemma reached_trans (ok : ascii -> bool) (c0 c1 c2 : cursor) (p1 p2 : str) :
  reached ok c0 c1 p1 -> reached ok c1 c2 p2 -> reached ok c0 c2 (p1 ++ p2).
Proof.
  intros (A1 & A2 & A3 & A4) (B1 & B2 & B3 & B4). split; [|split; [|split]].
  - rewrite A1, B1, app_assoc. reflexivity.
  - rewrite B2, A2, rev_app_distr, app_assoc. reflexivity.
  - rewrite forallb_app, A3, B3. reflexivity.
  - destruct B4 as [B4 | (g & B4 & Hg)].
    + rewrite B4. destruct A4 as [A4 | (g & A4 & Hg)]; [left; exact A4 |].
      right. exists g. split; [exact A4 | apply substring_app_l, Hg].
    + right. exists g. split; [exact B4 | apply substring_app_r, Hg].
Qed.

(** A repetition passes over characters of its class. *)
Lemma star_k_sound {R : Type} (p : ascii -> bool) (rst : str) :
  forall (bef : str) (k : str -> str -> option R) (res : R),
    star_k p bef rst k = Some res ->
    exists passed rst',
      rst = passed ++ rst' /\ forallb p passed = true /\
      k (rev passed ++ bef) rst' = Some res.
Proof.
  induction rst as [|c rst IH]; intros bef k res H; cbn [star_k] in H.
  - exists [], []. repeat split. exact H.
  - destruct (p c) eqn:Hp.
    + destruct (star_k p (c :: bef) rst k) as [r |] eqn:E.
      * injection H as ->. destruct (IH _ _ _ E) as (passed & rst' & -> & Hall & Hk).
        exists (c :: passed), rst'. split; [reflexivity |].
        split; [cbn [forallb]; rewrite Hp, Hall; reflexivity |].
        cbn [rev]. rewrite <- app_assoc. exact Hk.
      * exists [], (c :: rst). repeat split. exact H.
    + exists [], (c :: rst). repeat split. exact H.
Qed.

(** Whatever the pattern matches, the continuation is entered at a cursor
    further on in the same text. *)
Lemma run_sound {R : Type} (icase : bool) (r : regex) :
  forall (cur : cursor) (k : cursor -> option R) (res : R),
    run icase r cur k = Some res ->
    exists cur' passed, reached (allowed icase r) cur cur' passed /\ k cur' = Some res.
Proof.
  induction r as [| c | p | p | p | r1 IH1 | r1 IH1 r2 IH2 | r1 IH1 r2 IH2 | r1 IH1 |];
    intros cur k res H; cbn [run] in H.
  - exists cur, []. split; [apply reached_refl | exact H].
  - destruct (rest cur) as [|x rst'] eqn:Hrest; [discriminate |].
    destruct (lit_eqb icase c x) eqn:Hc; [|discriminate].
    eexists _, [x]. split; [|exact H]. split; [exact Hrest |].
    split; [reflexivity |]. split; [cbn; rewrite Hc; reflexivity | left; reflexivity].
  - destruct (rest cur) as [|x rst'] eqn:Hrest; [discriminate |].
    destruct (p x) eqn:Hc; [|discriminate].
    eexists _, [x]. split; [|exact H]. split; [exact Hrest |].
    split; [reflexivity |]. split; [cbn; rewrite Hc; reflexivity | left; reflexivity].
  - destruct (star_k_sound _ _ _ _ _ H) as (passed & rst' & Hrst & Hall & Hk).
    eexists _, passed. split; [|exact Hk]. split; [exact Hrst |].
    split; [reflexivity |]. split; [exact Hall | left; reflexivity].
  - destruct (rest cur) as [|x rst0] eqn:Hrest; [discriminate |].
    destruct (p x) eqn:Hc; [|discriminate].
    destruct (star_k_sound _ _ _ _ _ H) as (passed & rst' & Hrst & Hall & Hk).
    eexists _, (x :: passed). split; [|exact Hk]. split; [cbn; rewrite Hrest, Hrst; reflexivity |].
    split; [cbn [rev before]; rewrite <- app_assoc; reflexivity |].
    split; [|left; reflexivity].
    change (forallb p (x :: passed) = true). cbn [forallb]. rewrite Hc, Hall. reflexivity.
  - destruct (run icase r1 cur k) as [res1 |] eqn:E.
    + injection H as ->. exact (IH1 _ _ _ E).
    + exists cur, []. split; [apply reached_refl | exact H].
  - destruct (run icase r1 cur k) as [res1 |] eqn:E.
    + injection H as ->. destruct (IH1 _ _ _ E) as (cur' & passed & Hr & Hk).
      exists cur', passed. split; [|exact Hk].
      apply (reached_weaken (allowed icase r1)); [|exact Hr].
      intros x Hx. cbn [allowed]. rewrite Hx. reflexivity.
    + destruct (IH2 _ _ _ H) as (cur' & passed & Hr & Hk).
      exists cur', passed. split; [|exact Hk].
      apply (reached_weaken (allowed icase r2)); [|exact Hr].
      intros x Hx. cbn [allowed]. rewrite Hx. apply orb_true_r.
  - destruct (IH1 _ _ _ H) as (cur1 & p1 & Hr1 & Hk1).
    destruct (IH2 _ _ _ Hk1) as (cur2 & p2 & Hr2 & Hk2).
    exists cur2, (p1 ++ p2). split; [|exact Hk2].
    apply (reached_trans _ cur cur1 cur2).
    + apply (reached_weaken (allowed icase r1)); [|exact Hr1].
      intros x Hx. cbn [allowed]. rewrite Hx. reflexivity.
    + apply (reached_weaken (allowed icase r2)); [|exact Hr2].
      intros x Hx. cbn [allowed]. rewrite Hx. apply orb_true_r.
  - destruct (IH1 _ _ _ H) as (cur1 & passed & (A1 & A2 & A3 & A4) & Hk).
    eexists _, passed. split; [|exact Hk].
    split; [exact A1 |]. split; [exact A2 |]. split; [exact A3 |].
    right. exists passed. split; [|apply substring_refl]. cbn [group1]. f_equal.
    rewrite A2, length_app, length_rev, Nat.add_sub.
    rewrite <- (length_rev passed), firstn_app, Nat.sub_diag, firstn_all.
    cbn [firstn]. rewrite app_nil_r. apply rev_involutive.
  - destruct (xorb _ _); [|discriminate].
    exists cur, []. split; [apply reached_refl | exact H].
Qed.

(** A match at a position: its length is that of a text that stands at the
    position, and the group is a part of that text. *)
Lemma match_here_sound (icase : bool) (r : regex) (bef rst : str) (n : nat)
    (g : option str) :
  match_here icase r bef rst = Some (n, g) ->
  exists passed rst',
    rst = passed ++ rst' /\ n = length passed /\
    forallb (allowed icase r) passed = true /\
    (g = None \/ exists t, g = Some t /\ substring t passed).
Proof.
  unfold match_here. intros H.
  destruct (run_sound icase r _ _ _ H) as (cur' & passed & (A1 & A2 & A3 & A4) & Hk).
  cbn [rest before group1] in *. injection Hk as Hn Hg.
  exists passed, (rest cur'). split; [exact A1 |].
  split; [rewrite <- Hn, A2, length_app, length_rev; lia |].
  split; [exact A3 |]. rewrite <- Hg. exact A4.
Qed.

(** Every match of [finditer] stands in the text. *)
Lemma finditer_from_sound (icase : bool) (r : regex) (rst : str) :
  forall (skip : nat) (bef : str) (m : rmatch),
    In m (finditer_from icase r skip bef rst) ->
    stands_in (allowed icase r) m rst.
Proof.
  induction rst as [|c rst IH]; intros skip bef m Hin; cbn [finditer_from] in Hin.
  - destruct skip; [|destruct Hin].
    destruct (match_here icase r bef []) as [[n g] |] eqn:E; [|destruct Hin].
    destruct Hin as [<- | []].
    destruct (match_here_sound _ _ _ _ _ _ E) as (passed & rst' & Hp & _ & _ & Hg).
    symmetry in Hp. apply app_eq_nil in Hp. destruct Hp as [-> ->].
    split; [apply substring_refl |]. split; [reflexivity |].
    destruct Hg as [-> | (t & -> & (a & b & Ht))]; [left; reflexivity |].
    right. exists t. split; [reflexivity |]. exists a, b. exact Ht.
  - assert (Hlater : forall k bef',
              In m (finditer_from icase r k bef' rst) ->
              stands_in (allowed icase r) m (c :: rst)).
    { intros k bef' H. destruct (IH _ _ _ H) as ((a & b & Hab) & H2 & H3).
      split; [exists (c :: a), b; cbn; rewrite Hab; reflexivity |].
      split; assumption. }
    destruct skip as [|k]; [|exact (Hlater _ _ Hin)].
    destruct (match_here icase r bef (c :: rst)) as [[n g] |] eqn:E;
      [|exact (Hlater _ _ Hin)].
    destruct Hin as [<- | Hin]; [|exact (Hlater _ _ Hin)].
    destruct (match_here_sound _ _ _ _ _ _ E) as (passed & rst' & Hp & -> & Hall & Hg).
    cbn [group0 captured]. rewrite Hp, firstn_app, Nat.sub_diag, firstn_all.
    cbn [firstn]. rewrite app_nil_r.
    split; [exists [], rst'; reflexivity |]. split; [exact Hall |].
    destruct Hg as [-> | (t & -> & Ht)]; [left; reflexivity |].
    right. exists t. split; [reflexivity | exact Ht].
Qed.

Lemma finditer_sound (icase : bool) (r : regex) (s : str) (m : rmatch) :
  In m (finditer icase r s) -> stands_in (allowed icase r) m s.
Proof. apply finditer_from_sound. Qed.

End RegexFacts.

(** ** What the scan records stands in the file *)
Module ScanSound.
Import Py OS Spec PyFacts EnhancedScanner ScanSpec ScanFacts RegexSpec RegexFacts
       ReplaceFacts ScanAllFacts.

Lemma candidate_occurs (content u : str) :
  In (Some u) (candidates content) -> substring u content.
Proof.
  unfold candidates. intros Hin. apply in_app_or in Hin. destruct Hin as [Hin | Hin].
  - apply in_map_iff in Hin. destruct Hin as (m & E & Hm). injection E as <-.
    apply finditer_sound in Hm. apply Hm.
  - apply in_flat_map in Hin. destruct Hin as (pattern & _ & Hin).
    apply in_map_iff in Hin. destruct Hin as (m & E & Hm).
    apply finditer_sound in Hm. destruct Hm as (H0 & _ & [Hg | (g & Hg & Hsub)]).
    + congruence.
    + rewrite Hg in E. injection E as ->. exact (substring_trans _ _ _ Hsub H0).
Qed.

Lemma accepted_is_candidate (cands : list (option str)) (u : str) :
  In u (accepted_of cands) -> In (Some u) cands.
Proof.
  unfold accepted_of. rewrite in_flat_map. intros ([url |] & Hc & Hin); [|destruct Hin].
  destruct (is_valid url); [|destruct Hin]. destruct Hin as [<- | []]. exact Hc.
Qed.

(** A text that contains the string counts it at least once. *)
Lemma contains_count (s sub : str) : contains sub s = true -> (1 <= count s sub)%nat.
Proof.
  destruct sub as [|x sub]; [cbn; lia |]. unfold count.
  induction s as [|c s IH]; [cbn; discriminate |].
  intros H. cbn [count_from]. destruct (startswith (c :: s) (x :: sub)) eqn:E; [lia |].
  apply IH. cbn [contains] in H. rewrite E in H. exact H.
Qed.

(** X8. A URL that [_scan_file] records for a file stands in the text of that
    file.  When the occurrence list of a URL has grown over the scan of a
    file, the URL has passed the validator and is a substring of the text
    that was read: the test [old_url in content] of the rewrite holds of
    it, [content.count(old_url)] is at least one, and the rewrite of that
    text under a mapping of the URL counts a replacement. *)
Theorem recorded_url_occurs (p : path) (w w' : World) (content : str) (sc : Scanner)
    (u : str) :
  read_text p w = (w', Ok content) ->
  let sc' := snd (fst (_scan_file p (w, sc))) in
  default [] (file_occurrences sc' !! u) <> default [] (file_occurrences sc !! u) ->
  _is_valid_webhook u = Ok true /\
  contains u content = true /\
  (1 <= count content u)%nat /\
  forall new_url, (1 <= snd (FileUpdater.replace_all [(u, new_url)] content))%nat.
Proof.
  intros Hread sc' Hgrown.
  destruct (scan_file_indexes p w w' content sc u Hread) as (_ & _ & _ & Hocc).
  unfold exec in Hocc. fold sc' in Hocc.
  assert (Hin : In u (accepted content)).
  { unfold matches_of in Hocc.
    destruct (filter (fun x => x = u) (accepted content)) as [|y t] eqn:E.
    - exfalso. apply Hgrown. rewrite Hocc. cbn. apply app_nil_r.
    - assert (Hy : y ∈ filter (fun x => x = u) (accepted content)) by (rewrite E; left).
      apply list_elem_of_filter in Hy. destruct Hy as [-> Hy].
      apply list_elem_of_In, Hy. }
  assert (Hc : contains u content = true).
  { apply contains_spec, candidate_occurs, accepted_is_candidate, Hin. }
  pose proof (contains_count _ _ Hc) as Hn.
  split; [exact (accepted_of_valid _ _ Hin) |]. split; [exact Hc |]. split; [exact Hn |].
  intros new_url. unfold FileUpdater.replace_all.
  cbn [fold_left FileUpdater.replace_one]. rewrite Hc. cbn [snd]. lia.
Qed.

(** The theorem at the sample file. *)
Lemma recorded_url_occurs_witness :
  contains Sample.old_url (Sample.assignment Sample.old_url) = true.
Proof.
  refine (proj1 (proj2 (recorded_url_occurs Sample.config_lua
            (Sample.posix {[ Sample.config_lua := Sample.assignment Sample.old_url ]} [])
            _ (Sample.assignment Sample.old_url) (init Sample.root) Sample.old_url
            eq_refl _))).
  vm_compute. discriminate.
Defined.

End ScanSound.

(** ** A webhook URL in a text is found *)
Module ScanComplete.
Import Py OS Spec PyFacts EnhancedScanner ScanSpec ScanFacts RegexSpec RegexFacts
       UrlSpec ValidatorFacts.

(** A repetition takes all the characters of its class that stand at the
    position, when the rest of the pattern then matches. *)
Lemma star_k_greedy {R : Type} (p : ascii -> bool) (a : str) :
  forall (bef rst : str) (k : str -> str -> option R) (res : R),
    forallb p a = true ->
    (forall c rst', rst = c :: rst' -> p c = false) ->
    k (rev a ++ bef) rst = Some res ->
    star_k p bef (a ++ rst) k = Some res.
Proof.
  induction a as [|c a IH]; intros bef rst k res Hall Hstop Hk.
  - cbn [app rev] in *. destruct rst as [|c rst]; [exact Hk |].
    cbn [star_k]. rewrite (Hstop c rst eq_refl). exact Hk.
  - cbn [forallb] in Hall. apply andb_true_iff in Hall. destruct Hall as [Hc Hall].
    cbn [app star_k]. rewrite Hc.
    rewrite (IH (c :: bef) rst k res Hall Hstop); [reflexivity |].
    cbn [rev] in Hk. rewrite <- app_assoc in Hk. exact Hk.
Qed.

Lemma plus_greedy {R : Type} (icase : bool) (p : ascii -> bool) (a rst bef : str)
    (g : option str) (k : cursor -> option R) (res : R) :
  a <> [] ->
  forallb p a = true ->
  (forall c rst', rst = c :: rst' -> p c = false) ->
  k (Cursor (rev a ++ bef) rst g) = Some res ->
  run icase (Plus p) (Cursor bef (a ++ rst) g) k = Some res.
Proof.
  intros Hne Hall Hstop Hk. destruct a as [|c a]; [contradiction |].
  cbn [forallb] in Hall. apply andb_true_iff in Hall. destruct Hall as [Hc Hall].
  cbn [run rest before group1 app]. rewrite Hc.
  apply star_k_greedy; [exact Hall | exact Hstop |].
  cbn [rev] in Hk. rewrite <- app_assoc in Hk. exact Hk.
Qed.

Lemma lit_eqb_refl (icase : bool) (c : ascii) : lit_eqb icase c c = true.
Proof. unfold lit_eqb. destruct icase; apply Ascii.eqb_refl. Qed.

(** A run of literal characters passes over itself. *)
Lemma run_literal {R : Type} (icase : bool) (l : str) :
  forall (bef rst : str) (g : option str) (k : cursor -> option R),
    run icase (fold_right (fun c r => Seq (Lit c) r) Eps l) (Cursor bef (l ++ rst) g) k
    = k (Cursor (rev l ++ bef) rst g).
Proof.
  induction l as [|c l IH]; intros bef rst g k; [reflexivity |].
  cbn [fold_right run rest before group1 app]. rewrite lit_eqb_refl, IH.
  cbn [rev]. rewrite <- app_assoc. reflexivity.
Qed.

Lemma run_lits {R : Type} (icase : bool) (s : string) (bef rst : str) (g : option str)
    (k : cursor -> option R) :
  run icase (lits s) (Cursor bef (lit s ++ rst) g) k = k (Cursor (rev (lit s) ++ bef) rst g).
Proof. apply run_literal. Qed.

Lemma opt_taken {R : Type} (icase : bool) (r : regex) (cur : cursor)
    (k : cursor -> option R) (res : R) :
  run icase r cur k = Some res -> run icase (Opt r) cur k = Some res.
Proof. intros H. cbn [run]. rewrite H. reflexivity. Qed.

Lemma opt_passed {R : Type} (icase : bool) (r : regex) (cur : cursor)
    (k : cursor -> option R) :
  run icase r cur k = None -> run icase (Opt r) cur k = k cur.
Proof. intros H. cbn [run]. rewrite H. reflexivity. Qed.

Lemma alt_first {R : Type} (icase : bool) (r1 r2 : regex) (cur : cursor)
    (k : cursor -> option R) (res : R) :
  run icase r1 cur k = Some res -> run icase (Alt r1 r2) cur k = Some res.
Proof. intros H. cbn [run]. rewrite H. reflexivity. Qed.

Lemma decimal_is_digit (s : str) : forallb isdecimal_c s = true -> all_digits s.
Proof.
  rewrite forallb_forall. intros H. apply List.Forall_forall. intros c Hc.
  unfold isdigit_c. rewrite (H c Hc). reflexivity.
Qed.

Lemma token_c_char (s : str) : forallb token_c s = true -> Forall token_char s.
Proof.
  rewrite forallb_forall. intros H. apply List.Forall_forall. intros c Hc.
  specialize (H c Hc). unfold token_c, isword_c in H. unfold token_char.
  apply orb_true_iff in H. destruct H as [H | H].
  - apply orb_true_iff in H. destruct H as [H | H]; [left; exact H |].
    right. right. apply ascii_eqb_true, H.
  - right. left. apply ascii_eqb_true, H.
Qed.

Lemma run_seq {R : Type} (icase : bool) (r1 r2 : regex) (cur : cursor)
    (k : cursor -> option R) :
  run icase (Seq r1 r2) cur k = run icase r1 cur (fun cur' => run icase r2 cur' k).
Proof. reflexivity. Qed.

Lemma run_eps {R : Type} (icase : bool) (cur : cursor) (k : cursor -> option R) :
  run icase Eps cur k = k cur.
Proof. reflexivity. Qed.

Lemma run_lit {R : Type} (icase : bool) (c : ascii) (bef rst : str) (g : option str)
    (k : cursor -> option R) :
  run icase (Lit c) (Cursor bef (c :: rst) g) k = k (Cursor (c :: bef) rst g).
Proof. cbn [run rest before group1]. rewrite lit_eqb_refl. reflexivity. Qed.

(** At the first character of a URL of the usual form, followed by no
    character of a token, the URL pattern matches the whole URL. *)
Lemma match_here_url (bef id token post : str) :
  id <> [] -> forallb isdecimal_c id = true ->
  token <> [] -> forallb token_c token = true ->
  begins_clear post ->
  match_here true webhook_url_pattern bef (compose id token ++ post)
  = Some (length (compose id token), None).
Proof.
  intros Hid Hdigits Htok Htoken Hpost.
  set (n := length (compose id token)).
  unfold match_here, webhook_url_pattern, compose.
  change (lit "https://discord.com/api/webhooks/")
    with (lit "http" ++ ["s"%char] ++ lit "://" ++ lit "discord" ++ lit ".com"
          ++ lit "/api/webhooks/").
  change (lit "/") with ["/"%char].
  rewrite <- !app_assoc. cbn [seq fold_right].
  rewrite run_seq, run_lits. cbv beta.
  rewrite run_seq. apply opt_taken. cbn [app]. rewrite run_lit.
  rewrite run_seq, run_lits. cbv beta.
  rewrite run_seq. apply alt_first.
  rewrite run_seq, run_lits. cbv beta.
  rewrite run_seq, opt_passed by reflexivity.
  rewrite run_seq, run_lits. cbv beta. rewrite run_eps. cbv beta.
  rewrite run_seq, run_lits. cbv beta.
  rewrite run_seq. apply plus_greedy; [exact Hid | exact Hdigits | |].
  { intros c rst' E. injection E as <- _. reflexivity. }
  rewrite run_seq, run_lit, run_seq.
  apply plus_greedy; [exact Htok | exact Htoken | exact Hpost |].
  rewrite run_eps. cbn [before group1]. f_equal. f_equal.
  subst n. unfold compose.
  repeat (rewrite ?length_app, ?length_rev; cbn [length lit list_ascii_of_string]). lia.
Qed.

(** Every character in a match of the URL pattern is a character of a URL. *)
Lemma allowed_url_char (x : ascii) :
  allowed true webhook_url_pattern x = true -> url_char x = true.
Proof.
  destruct x as [[] [] [] [] [] [] [] []]; vm_compute; intros H;
    first [reflexivity | discriminate H].
Qed.

(** The matches that begin in a text which ends with a character that the
    pattern does not pass over all end in that text: after them the search
    goes on at the end of the text. *)
Lemma finditer_from_before (icase : bool) (r : regex) (rst : str) (pre : str) :
  forall (skip : nat) (bef : str),
    (forall pre' d, pre = pre' ++ [d] -> allowed icase r d = false) ->
    (skip <= length pre)%nat ->
    exists ms,
      finditer_from icase r skip bef (pre ++ rst)
      = ms ++ finditer_from icase r 0 (rev pre ++ bef) rst.
Proof.
  induction pre as [|c pre IH]; intros skip bef Hend Hskip.
  - cbn [length] in Hskip. assert (skip = 0%nat) as -> by lia. exists []. reflexivity.
  - assert (Hend' : forall pre' d, pre = pre' ++ [d] -> allowed icase r d = false).
    { intros pre' d ->. apply (Hend (c :: pre') d). reflexivity. }
    assert (Hnext : forall k ms0, (k <= length pre)%nat ->
              exists ms, ms0 ++ finditer_from icase r k (c :: bef) (pre ++ rst)
                         = ms ++ finditer_from icase r 0 (rev (c :: pre) ++ bef) rst).
    { intros k ms0 Hk. destruct (IH k (c :: bef) Hend' Hk) as (ms & ->).
      exists (ms0 ++ ms). cbn [rev]. rewrite <- !app_assoc. reflexivity. }
    cbn [app finditer_from]. cbn [length] in Hskip.
    destruct skip as [|k]; [|apply (Hnext k []); lia].
    destruct (match_here icase r bef (c :: pre ++ rst)) as [[n g] |] eqn:E;
      [|apply (Hnext 0%nat []); lia].
    apply (Hnext (pred n) [RMatch (firstn n (c :: pre ++ rst)) g]).
    destruct (match_here_sound _ _ _ _ _ _ E) as (passed & rst' & Hp & -> & Hall & _).
    destruct (exists_last (l := c :: pre)) as (pre'' & d & Hlast); [discriminate |].
    assert (Hlen : length (c :: pre) = S (length pre'')).
    { rewrite Hlast, length_app. cbn [length]. lia. }
    cbn [length] in Hlen.
    change (c :: pre ++ rst) with ((c :: pre) ++ rst) in Hp.
    rewrite Hlast, <- app_assoc in Hp. cbn [app] in Hp.
    symmetry in Hp. apply app_eq_app in Hp.
    destruct Hp as (l & [[Hpassed Hrest] | [Hpre Hrest]]).
    + destruct l as [|d' l].
      * rewrite app_nil_r in Hpassed. subst passed. lia.
      * exfalso. cbn [app] in Hrest. injection Hrest as <- _.
        rewrite Hpassed, forallb_app in Hall. cbn [forallb] in Hall.
        rewrite (Hend pre'' d Hlast) in Hall.
        rewrite andb_false_r in Hall. discriminate Hall.
    + assert (length pre'' = (length passed + length l)%nat)
        by (rewrite Hpre, length_app; reflexivity). lia.
Qed.

(** A webhook URL of the usual form that stands in a text between a
    character that is none of a URL and a character that is none of a
    token is one of the matches of the URL pattern. *)
Lemma finditer_finds_url (pre id token post : str) :
  id <> [] -> forallb isdecimal_c id = true ->
  token <> [] -> forallb token_c token = true ->
  ends_clear pre -> begins_clear post ->
  In (RMatch (compose id token) None)
     (finditer true webhook_url_pattern (pre ++ compose id token ++ post)).
Proof.
  intros Hid Hdigits Htok Htoken Hpre Hpost. unfold finditer.
  destruct (finditer_from_before true webhook_url_pattern (compose id token ++ post) pre
              0 []) as (ms & ->).
  - intros pre' d E. destruct (allowed true webhook_url_pattern d) eqn:Ha; [|reflexivity].
    rewrite <- (Hpre pre' d E). symmetry. apply allowed_url_char, Ha.
  - lia.
  - apply in_or_app. right.
    pose proof (match_here_url (rev pre ++ []) id token post Hid Hdigits Htok Htoken Hpost)
      as Hm.
    remember (compose id token) as url eqn:Hurl.
    destruct url as [|c url]; [discriminate Hurl |].
    cbn [app finditer_from]. cbn [app] in Hm. rewrite Hm. left. f_equal.
    change (c :: url ++ post) with ((c :: url) ++ post).
    rewrite firstn_app, Nat.sub_diag, firstn_all. cbn [firstn]. apply app_nil_r.
Qed.

(** X9. The scanner finds a webhook URL of the usual form.  A file is read whose
    text holds [https://discord.com/api/webhooks/<id>/<token>], with at
    least 17 decimal digits and at least 50 token characters, after a text
    that does not end with a character of a URL and before a text that does
    not begin with a character of a token.  Then the URL passes the
    validator, it is in the URL set of the resource of the file, and its
    occurrence list has an entry for the file. *)
Theorem canonical_url_is_found (pre id token post : str) (p : path) (w w' : World)
    (sc : Scanner) :
  (17 <= length id)%nat -> forallb isdecimal_c id = true ->
  (50 <= length token)%nat -> forallb token_c token = true ->
  ends_clear pre -> begins_clear post ->
  let url := compose id token in
  read_text p w = (w', Ok (pre ++ url ++ post)) ->
  let sc' := snd (fst (_scan_file p (w, sc))) in
  let r := _extract_resource_name (base_path sc) p in
  _is_valid_webhook url = Ok true /\
  url ∈ default ∅ (webhooks_by_resource sc' !! r) /\
  In (p, r) (default [] (file_occurrences sc' !! url)).
Proof.
  intros Hid Hdigits Htok Htoken Hpre Hpost url Hread sc' r.
  assert (Hid' : id <> []) by (destruct id; [cbn in Hid; lia | discriminate]).
  assert (Htok' : token <> []) by (destruct token; [cbn in Htok; lia | discriminate]).
  assert (Hvalid : _is_valid_webhook url = Ok true).
  { unfold url. rewrite is_valid_webhook_compose.
    - f_equal.
      rewrite (proj2 (isdigit_spec id ltac:(lia))) by exact (decimal_is_digit _ Hdigits).
      rewrite (proj2 (token_test_spec token)) by exact (token_c_char _ Htoken).
      destruct (Nat.leb_spec 17 (length id)); [|lia].
      destruct (Nat.leb_spec 50 (length token)); [|lia]. reflexivity.
    - apply all_digits_segment, decimal_is_digit, Hdigits.
    - apply token_segment, token_c_char, Htoken. }
  assert (Hin : In url (accepted (pre ++ url ++ post))).
  { unfold accepted, accepted_of. apply in_flat_map. exists (Some url). split.
    - unfold candidates. apply in_or_app. left.
      apply in_map_iff. exists (RMatch url None). split; [reflexivity |].
      apply finditer_finds_url; assumption.
    - unfold is_valid. rewrite Hvalid. left. reflexivity. }
  destruct (scan_file_indexes p w w' _ sc url Hread) as (_ & _ & Hset & Hocc).
  unfold exec in Hset, Hocc. fold sc' r in Hset, Hocc.
  split; [exact Hvalid |]. split.
  - rewrite Hset. apply elem_of_union. right.
    apply elem_of_list_to_set, list_elem_of_In, Hin.
  - rewrite Hocc. apply in_or_app. right. unfold matches_of.
    destruct (filter (fun x => x = url) (accepted (pre ++ url ++ post))) as [|y t] eqn:E.
    + exfalso. assert (Hy : url ∈ filter (fun x => x = url) (accepted (pre ++ url ++ post))).
      { apply list_elem_of_filter. split; [reflexivity | apply list_elem_of_In, Hin]. }
      rewrite E in Hy. inversion Hy.
    + left. reflexivity.
Qed.

(** The theorem at a file with the assignment [webhook = '<url>']. *)
Lemma canonical_url_is_found_witness :
  In (Sample.config_lua, _extract_resource_name Sample.root Sample.config_lua)
     (default []
        (file_occurrences
           (snd (fst (_scan_file Sample.config_lua
                        (Sample.posix
                           {[ Sample.config_lua := Sample.assignment Sample.old_url ]} [],
                         init Sample.root))))
         !! Sample.old_url)).
Proof.
  refine (proj2 (proj2 (canonical_url_is_found (lit "webhook = '") Sample.id_a
            Sample.token_a (lit "'") Sample.config_lua
            (Sample.posix {[ Sample.config_lua := Sample.assignment Sample.old_url ]} [])
            _ (init Sample.root) _ _ _ _ _ _ _))).
  - vm_compute. lia.
  - vm_compute. reflexivity.
  - vm_compute. lia.
  - vm_compute. reflexivity.
  - intros pre' d E. destruct pre' as [|? pre']; [discriminate E |].
    do 10 (destruct pre' as [|? pre']; [try discriminate E |]).
    + injection E as _ _ _ _ _ _ _ _ _ _ <-. reflexivity.
    + injection E as _ _ _ _ _ _ _ _ _ _ _ E. destruct pre'; discriminate E.
  - intros c post' E. injection E as <- _. reflexivity.
  - reflexivity.
Defined.

End ScanComplete.

(** ** More on provisioning *)
Module ProvisionMore.
Import Py Discord Spec PyFacts WebhookCreator ProvisionSpec ProvisionInv ProvisionFacts
       RecordInv.

(** *** The keys of the mapping *)

Lemma dict_set_keys (k k' v : str) (d : list (str * str)) :
  In k (keys (dict_set k' v d)) <-> k = k' \/ In k (keys d).
Proof.
  unfold keys. induction d as [|[k0 v0] d IH]; cbn [dict_set map In fst].
  - intuition congruence.
  - destruct (str_eqb k0 k') eqn:E; cbn [map In fst].
    + apply str_eqb_true in E. subst k0. intuition congruence.
    + rewrite IH. intuition congruence.
Qed.

Lemma set_all_keys (k : str) (items d : list (str * str)) :
  In k (keys (set_all items d)) <-> In k (keys d) \/ In k (map fst items).
Proof.
  unfold set_all. revert d. induction items as [|[k0 v0] items IH]; intros d;
    cbn [fold_left map In fst snd].
  - intuition.
  - rewrite IH, dict_set_keys. intuition congruence.
Qed.

Lemma combine_keys (urls news : list str) (k : str) :
  In k (map fst (combine urls news)) -> In k urls.
Proof.
  intros H. apply in_map_iff in H. destruct H as ([a b] & <- & H).
  exact (in_combine_l _ _ _ _ H).
Qed.

Lemma combine_keys_all (urls news : list str) :
  length news = length urls -> map fst (combine urls news) = urls.
Proof.
  revert news. induction urls as [|u urls IH]; intros [|n news] H; cbn in *;
    try reflexivity; try discriminate.
  rewrite IH by congruence. reflexivity.
Qed.

Lemma sorted_urls_In (urls : gset str) (k : str) : In k (sorted_urls urls) <-> k ∈ urls.
Proof.
  unfold sorted_urls. rewrite sorted_by_In, <- list_elem_of_In, elem_of_elements.
  reflexivity.
Qed.

(** *** The channels that are found *)

Lemma find_app_none {A : Type} (f : A -> bool) (l1 l2 : list A) :
  find f l1 = None -> find f (l1 ++ l2) = find f l2.
Proof.
  induction l1 as [|y l1 IH]; cbn [find app]; [reflexivity |].
  destruct (f y); [discriminate | exact IH].
Qed.

(** A channel that is found is the one found when channels are added. *)
Lemma get_text_channel_stable (g g' : Guild) (nm : str) (cat : Z) (more : list Channel)
    (ch : Channel) :
  channels g' = channels g ++ more ->
  get_text_channel g nm cat = Some ch -> get_text_channel g' nm cat = Some ch.
Proof.
  unfold get_text_channel, text_channels. intros -> Hc.
  rewrite filter_app. exact (find_app_some _ _ _ _ Hc).
Qed.

(** A channel created under a name that was not found is the one found. *)
Lemma get_text_channel_created (g g' : Guild) (cat : Z) (c : Channel) :
  channels g' = channels g ++ [c] ->
  get_text_channel g (ch_name c) cat = None ->
  ch_kind c = TextChannel -> ch_category_id c = Some cat ->
  get_text_channel g' (ch_name c) cat = Some c.
Proof.
  unfold get_text_channel, text_channels. intros -> Hnone Hk Hc.
  rewrite filter_app, (find_app_none _ _ _ Hnone).
  rewrite filter_cons, decide_True by exact Hk. rewrite filter_nil. cbn [find].
  rewrite Hc, !bool_decide_eq_true_2 by reflexivity. reflexivity.
Qed.

(** *** One resource *)

(** What [record_and_create] leaves behind. *)
Lemma record_and_create_run (r : str) (urls : gset str) (channel : Channel) (s : State) :
  let out := record_and_create r urls channel s in
  channels (fst (fst out)) = channels (fst s) /\
  category_id (snd (fst out)) = category_id (snd s) /\
  created_channels (snd (fst out))
  = created_channels (snd s) ++ [record_of r channel urls] /\
  (snd out = Ok None \/ exists e, snd out = Raise e) /\
  forall k, In k (keys (webhook_mappings (snd (fst out)))) ->
    In k (keys (webhook_mappings (snd s))) \/ k ∈ urls.
Proof.
  cbv zeta. unfold record_and_create.
  pose proof (create_webhooks_run channel r (size urls) (sorted_urls urls) 1 (fst s)
                (add_record (record_of r channel urls) (snd s))) as Hrun.
  cbv zeta in Hrun.
  destruct (create_webhooks channel r (size urls) 1 (sorted_urls urls)
              (fst s, add_record (record_of r channel urls) (snd s))) as [[g2 c2] res].
  cbn [fst snd] in Hrun. destruct Hrun as (H1 & _ & H3 & H4 & _ & Hmap).
  assert (Hkeys : forall k, In k (keys (webhook_mappings c2)) ->
            In k (keys (webhook_mappings (snd s))) \/ k ∈ urls).
  { intros k Hk. destruct res as [[] | e].
    - destruct Hmap as (news & _ & Hm). rewrite Hm in Hk.
      apply set_all_keys in Hk. destruct Hk as [Hk | Hk]; [left; exact Hk |].
      right. apply sorted_urls_In. exact (combine_keys _ _ _ Hk).
    - destruct Hmap as (done & failed & todo & news & Hu & _ & Hm). rewrite Hm in Hk.
      apply set_all_keys in Hk. destruct Hk as [Hk | Hk]; [left; exact Hk |].
      right. apply sorted_urls_In. rewrite Hu. apply in_or_app. left.
      exact (combine_keys _ _ _ Hk). }
  destruct res as [[] | e]; cbn [fst snd];
    (split; [exact H1 |]; split; [exact H3 |]; split; [exact H4 |];
     split; [|exact Hkeys]).
  - left. reflexivity.
  - right. exists e. reflexivity.
Qed.

(** One turn of the loop when the category exists: it ends without a
    verdict; channels are only added, and a channel that was found is
    still the one found; at most one record is added, for a channel that is
    then found under the name of the resource; the mapping gains keys among
    the URLs of the resource only. *)
Lemma provision_or_skip_run (r : str) (urls : gset str) (s : State) (category : Channel) :
  get_channel (fst s) (category_id (snd s)) = Some category ->
  let out := provision_or_skip (r, urls) s in
  let s' := fst out in
  snd out = Ok None /\
  category_id (snd s') = category_id (snd s) /\
  (exists added, channels (fst s') = channels (fst s) ++ added) /\
  (created_channels (snd s') = created_channels (snd s) \/
   exists ch,
     created_channels (snd s') = created_channels (snd s) ++ [record_of r ch urls] /\
     get_text_channel (fst s') (channel_name r) (category_id (snd s)) = Some ch) /\
  forall k, In k (keys (webhook_mappings (snd s'))) ->
    In k (keys (webhook_mappings (snd s))) \/ k ∈ urls.
Proof.
  destruct s as [g c]. cbn [fst snd]. intros Hcat. cbv zeta.
  unfold provision_or_skip, try_. cbn [fst snd].
  assert (Hfinish : forall (g0 : Guild) (n : notice) (ch : Channel) (added : list Channel),
            channels g0 = channels g ++ added ->
            get_text_channel g0 (channel_name r) (category_id c) = Some ch ->
            let out := match record_and_create r urls ch (g0, add_notice n c) with
                       | (s', Ok a) => (s', Ok a)
                       | (s', Raise e) =>
                           (notify (Skipped r e) ≫= fun _ => mret (None : option bool)) s'
                       end in
            snd out = Ok None /\
            category_id (snd (fst out)) = category_id c /\
            (exists added, channels (fst (fst out)) = channels g ++ added) /\
            (created_channels (snd (fst out)) = created_channels c \/
             exists ch,
               created_channels (snd (fst out)) = created_channels c ++ [record_of r ch urls] /\
               get_text_channel (fst (fst out)) (channel_name r) (category_id c) = Some ch) /\
            forall k, In k (keys (webhook_mappings (snd (fst out)))) ->
              In k (keys (webhook_mappings c)) \/ k ∈ urls).
  { intros g0 n ch added Hch Hfound. cbv zeta.
    pose proof (record_and_create_run r urls ch (g0, add_notice n c)) as Hrun.
    cbv zeta in Hrun.
    destruct (record_and_create r urls ch (g0, add_notice n c)) as [[g2 c2] res].
    cbn [fst snd add_notice category_id created_channels webhook_mappings] in Hrun.
    destruct Hrun as (H1 & H2 & H3 & H4 & H5).
    assert (Hfound2 : get_text_channel g2 (channel_name r) (category_id c) = Some ch).
    { rewrite (get_text_channel_channels g0 g2 _ _ H1). exact Hfound. }
    destruct res as [o | e].
    - destruct H4 as [H4 | (e & H4)]; [|discriminate H4].
      cbn [fst snd]. split; [exact H4 |]. split; [exact H2 |].
      split; [exists added; rewrite H1; exact Hch |].
      split; [right; exists ch; split; assumption | exact H5].
    - change ((notify (Skipped r e) ≫= fun _ => mret (None : option bool)) (g2, c2))
        with ((g2, add_notice (Skipped r e) c2), Ok (None : option bool)).
      cbn [fst snd add_notice category_id created_channels webhook_mappings].
      split; [reflexivity |]. split; [exact H2 |].
      split; [exists added; rewrite H1; exact Hch |].
      split; [right; exists ch; split; assumption | exact H5]. }
  destruct (get_text_channel g (channel_name r) (category_id c)) as [existing |] eqn:Hex.
  - rewrite (provision_reuse r urls g c category existing Hcat Hex).
    apply (Hfinish g (Reusing r) existing []); [rewrite app_nil_r; reflexivity | exact Hex].
  - rewrite (provision_create r urls g c category Hcat Hex).
    destruct (create_text_channel_run (channel_name r) category g) as [_ Hres].
    destruct (create_text_channel (channel_name r) category g) as [g1 [channel | e]];
      cbn [fst snd] in *.
    + destruct Hres as (Hnm & Hkind & Hparent & Hch).
      apply (Hfinish g1 (CreatedChannel r) channel [channel] Hch).
      rewrite <- Hnm. apply (get_text_channel_created g g1); try assumption.
      * rewrite Hnm. exact Hex.
      * rewrite Hparent, (get_channel_id _ _ _ Hcat). reflexivity.
    + change ((notify (Skipped r e) ≫= fun _ => mret (None : option bool)) (g1, c))
        with ((g1, add_notice (Skipped r e) c), Ok (None : option bool)).
      cbn [fst snd add_notice category_id created_channels webhook_mappings].
      split; [reflexivity |]. split; [reflexivity |].
      split; [exists []; rewrite Hres, app_nil_r; reflexivity |].
      split; [left; reflexivity |]. intros k Hk. left. exact Hk.
Qed.

(** *** The loop *)

Lemma get_channel_stable (g g' : Guild) (id : Z) (more : list Channel) (c : Channel) :
  channels g' = channels g ++ more ->
  get_channel g id = Some c -> get_channel g' id = Some c.
Proof. unfold get_channel. intros -> H. exact (find_app_some _ _ _ _ H). Qed.

(** The loop when the category exists: it gives [True]; the records that
    are added are records of the items, each for a channel that is found;
    the keys that the mapping gains are URLs of the items. *)
Lemma create_loop_run (items : list (str * gset str)) :
  forall (s : State) (category : Channel),
    get_channel (fst s) (category_id (snd s)) = Some category ->
    let out := create_loop items s in
    let s' := fst out in
    snd out = Ok true /\
    category_id (snd s') = category_id (snd s) /\
    (records_found s -> records_found s') /\
    (forall rec, In rec (created_channels (snd s')) ->
       In rec (created_channels (snd s)) \/
       exists urls, In (rec_resource rec, urls) items) /\
    (forall k, In k (keys (webhook_mappings (snd s'))) ->
       In k (keys (webhook_mappings (snd s))) \/
       exists r urls, In (r, urls) items /\ k ∈ urls).
Proof.
  induction items as [|[r urls] items IH]; intros s category Hcat; cbv zeta.
  - cbn [create_loop]. rewrite run_ret. cbn [fst snd].
    split; [reflexivity |]. split; [reflexivity |]. split; [trivial |].
    split; intros x Hx; left; exact Hx.
  - cbn [create_loop]. rewrite run_bind.
    pose proof (provision_or_skip_run r urls s category Hcat) as Hstep. cbv zeta in Hstep.
    destruct (provision_or_skip (r, urls) s) as [s1 res]. cbn [fst snd] in Hstep.
    destruct Hstep as (-> & Hc1 & (added & Hch1) & Hrec1 & Hkeys1).
    assert (Hcat1 : get_channel (fst s1) (category_id (snd s1)) = Some category).
    { rewrite Hc1. exact (get_channel_stable _ _ _ _ _ Hch1 Hcat). }
    specialize (IH s1 category Hcat1). cbv zeta in IH.
    destruct IH as (Hres & Hc2 & Hinv2 & Hrec2 & Hkeys2).
    split; [exact Hres |]. split; [congruence |]. split; [|split].
    + intros Hinv. apply Hinv2. intros rec Hin.
      destruct Hrec1 as [Hsame | (ch & Hnew & Hfound)].
      * rewrite Hsame in Hin. destruct (Hinv rec Hin) as (Hname & ch & Hch & Hid).
        split; [exact Hname |]. exists ch. split; [|exact Hid].
        rewrite Hc1. exact (get_text_channel_stable _ _ _ _ _ _ Hch1 Hch).
      * rewrite Hnew in Hin. apply in_app_or in Hin. destruct Hin as [Hin | [<- | []]].
        -- destruct (Hinv rec Hin) as (Hname & ch0 & Hch & Hid).
           split; [exact Hname |]. exists ch0. split; [|exact Hid].
           rewrite Hc1. exact (get_text_channel_stable _ _ _ _ _ _ Hch1 Hch).
        -- split; [reflexivity |]. exists ch. split; [|reflexivity].
           rewrite Hc1. exact Hfound.
    + intros rec Hin. destruct (Hrec2 rec Hin) as [Hin1 | (urls' & Hin1)].
      * destruct Hrec1 as [Hsame | (ch & Hnew & _)].
        -- left. rewrite <- Hsame. exact Hin1.
        -- rewrite Hnew in Hin1. apply in_app_or in Hin1.
           destruct Hin1 as [Hin1 | [<- | []]]; [left; exact Hin1 |].
           right. exists urls. left. reflexivity.
      * right. exists urls'. right. exact Hin1.
    + intros k Hk. destruct (Hkeys2 k Hk) as [Hk1 | (r' & urls' & Hin & Hk1)].
      * destruct (Hkeys1 k Hk1) as [Hk0 | Hk0]; [left; exact Hk0 |].
        right. exists r, urls. split; [left; reflexivity | exact Hk0].
      * right. exists r', urls'. split; [right; exact Hin | exact Hk1].
Qed.

Lemma sorted_items_lookup (idx : gmap str (gset str)) (r : str) (urls : gset str) :
  In (r, urls) (sorted_by fst (map_to_list idx)) <-> idx !! r = Some urls.
Proof.
  rewrite sorted_by_In, <- list_elem_of_In, elem_of_map_to_list. reflexivity.
Qed.

(** X11. [create_all] always returns, whatever the platform answers: nothing
    that a call raises leaves the loop.  It returns [True] unless there is
    a resource to provision and the category is missing. *)
Theorem create_all_always_returns (idx : gmap str (gset str)) (s : State) :
  exists b,
    snd (create_all idx s) = Ok b /\
    (b = true <-> idx = ∅ \/ is_Some (get_channel (fst s) (category_id (snd s)))).
Proof.
  unfold create_all.
  destruct (get_channel (fst s) (category_id (snd s))) as [category |] eqn:Hcat.
  - exists true. split.
    + apply (create_loop_run _ s category Hcat).
    + split; [intros _; right; eauto | reflexivity].
  - destruct (decide (idx = ∅)) as [-> | Hne].
    + exists true. rewrite map_to_list_empty. cbn [sorted_by fold_right create_loop].
      split; [reflexivity |]. split; [intros _; left; reflexivity | reflexivity].
    + exists false. destruct s as [g c]. cbn [fst snd] in Hcat.
      rewrite (create_loop_no_category _ g c Hcat (sorted_items_not_nil idx Hne)).
      split; [reflexivity |]. split; [discriminate |].
      intros [H | [x H]]; [contradiction | discriminate H].
Qed.

(** X12. The records of a run of a fresh creator.  Every record belongs to a
    resource of the index and carries the sanitized name of that resource;
    and two records with the same channel name carry the same channel
    identifier: resources whose names are sanitized alike share one
    channel. *)
Theorem same_name_same_channel (idx : gmap str (gset str)) (g : Guild) (category : Z) :
  let c' := snd (fst (create_all idx (g, init category))) in
  (forall rec, In rec (created_channels c') ->
     rec_resource rec ∈ dom idx /\
     rec_name rec = _sanitize_name (rec_resource rec ++ lit "-logs")) /\
  (forall rec1 rec2,
     In rec1 (created_channels c') -> In rec2 (created_channels c') ->
     rec_name rec1 = rec_name rec2 -> rec_id rec1 = rec_id rec2).
Proof.
  cbv zeta. unfold create_all.
  destruct (get_channel g category) as [cat |] eqn:Hcat.
  - pose proof (create_loop_run (sorted_by fst (map_to_list idx)) (g, init category) cat Hcat)
      as Hrun. cbv zeta in Hrun.
    destruct (create_loop (sorted_by fst (map_to_list idx)) (g, init category))
      as [[g' c'] res]. cbn [fst snd init category_id created_channels] in *.
    destruct Hrun as (_ & Hc & Hinv & Hrec & _).
    assert (Hfound : records_found (g', c')) by (apply Hinv; intros rec []).
    split.
    + intros rec Hin. split.
      * destruct (Hrec rec Hin) as [[] | (urls & Hitem)].
        apply sorted_items_lookup in Hitem. apply elem_of_dom. eauto.
      * apply (Hfound rec Hin).
    + intros rec1 rec2 H1 H2 Hname.
      destruct (Hfound rec1 H1) as (_ & ch1 & Hch1 & <-).
      destruct (Hfound rec2 H2) as (_ & ch2 & Hch2 & <-).
      cbn [fst snd] in Hch1, Hch2. rewrite Hname in Hch1. congruence.
  - destruct (decide (idx = ∅)) as [-> | Hne].
    + rewrite map_to_list_empty. cbn. split; [intros rec [] | intros rec1 rec2 []].
    + rewrite (create_loop_no_category _ g (init category) Hcat
                 (sorted_items_not_nil idx Hne)).
      cbn. split; [intros rec [] | intros rec1 rec2 []].
Qed.

(** The theorem at the resources [Shop] and [shop]: the channel created for
    the first is taken for the second. *)
Lemma same_name_same_channel_witness :
  let idx : gmap str (gset str) :=
    {[ lit "Shop" := {[ Sample.old_url ]}; lit "shop" := {[ Sample.other_url ]} ]} in
  let g := Sample.guild [Created 7 []; Created 0 Sample.new_url;
                         Created 0 Sample.new_url2] in
  map rec_resource (created_channels (snd (fst (create_all idx (g, init 1)))))
  = [lit "Shop"; lit "shop"] /\
  rec_id (mkChannelRecord (lit "shop-logs") 7 (lit "Shop") 1)
  = rec_id (mkChannelRecord (lit "shop-logs") 7 (lit "shop") 1).
Proof.
  cbv zeta. split; [vm_compute; reflexivity |].
  apply (proj2 (same_name_same_channel
                  {[ lit "Shop" := {[ Sample.old_url ]}; lit "shop" := {[ Sample.other_url ]} ]}
                  (Sample.guild [Created 7 []; Created 0 Sample.new_url;
                                 Created 0 Sample.new_url2]) 1)).
  - vm_compute. left. reflexivity.
  - vm_compute. right. left. reflexivity.
  - reflexivity.
Defined.

(** X13. The mapping of a run of a fresh creator has no key but the URLs of the
    index: no URL is mapped that the scan did not record. *)
Theorem mappings_come_from_index (idx : gmap str (gset str)) (g : Guild) (category : Z)
    (k : str) :
  In k (keys (webhook_mappings (snd (fst (create_all idx (g, init category)))))) ->
  exists r urls, idx !! r = Some urls /\ k ∈ urls.
Proof.
  unfold create_all.
  destruct (get_channel g category) as [cat |] eqn:Hcat.
  - pose proof (create_loop_run (sorted_by fst (map_to_list idx)) (g, init category) cat Hcat)
      as Hrun. cbv zeta in Hrun.
    destruct (create_loop (sorted_by fst (map_to_list idx)) (g, init category))
      as [[g' c'] res]. cbn [fst snd init webhook_mappings] in *.
    destruct Hrun as (_ & _ & _ & _ & Hkeys). intros Hk.
    destruct (Hkeys k Hk) as [[] | (r & urls & Hitem & Hu)].
    exists r, urls. split; [apply sorted_items_lookup, Hitem | exact Hu].
  - destruct (decide (idx = ∅)) as [-> | Hne].
    + rewrite map_to_list_empty. cbn. intros [].
    + rewrite (create_loop_no_category _ g (init category) Hcat
                 (sorted_items_not_nil idx Hne)).
      cbn. intros [].
Qed.

(** The theorem at a run that maps the URL of [shop]. *)
Lemma mappings_come_from_index_witness :
  exists r urls,
    ({[ lit "shop" := {[ Sample.old_url ]} ]} : gmap str (gset str)) !! r = Some urls /\
    Sample.old_url ∈ urls.
Proof.
  apply (mappings_come_from_index {[ lit "shop" := {[ Sample.old_url ]} ]}
           (Sample.guild [Created 7 []; Created 0 Sample.new_url]) 1 Sample.old_url).
  vm_compute. left. reflexivity.
Defined.

(** *** A platform that accepts every call *)

Lemma insert_by_length {A : Type} (key : A -> str) (x : A) (l : list A) :
  length (insert_by key x l) = S (length l).
Proof.
  induction l as [|y l IH]; cbn [insert_by length]; [reflexivity |].
  destruct (str_leb (key x) (key y)); cbn [length]; [reflexivity | rewrite IH; reflexivity].
Qed.

Lemma sorted_by_length {A : Type} (key : A -> str) (l : list A) :
  length (sorted_by key l) = length l.
Proof.
  induction l as [|x l IH]; cbn [sorted_by fold_right length]; [reflexivity |].
  rewrite insert_by_length. f_equal. exact IH.
Qed.

Lemma dict_get_keys {V : Type} (k : str) (d : list (str * V)) :
  is_Some (dict_get k d) <-> In k (map fst d).
Proof.
  induction d as [|[k0 v0] d IH]; cbn [dict_get map In fst].
  - split; [intros [x H]; discriminate H | intros []].
  - destruct (str_eqb k0 k) eqn:E.
    + apply str_eqb_true in E. split; [intros _; left; exact E | intros _; eauto].
    + rewrite IH. split; [intros H; right; exact H |].
      intros [H | H]; [|exact H]. apply str_eqb_true in H. congruence.
Qed.

Lemma Forall_skipn_created (n : nat) (rs : list response) :
  Forall is_created rs -> Forall is_created (skipn n rs).
Proof.
  revert rs. induction n as [|n IH]; intros rs H; [exact H |].
  destruct rs as [|r rs]; [constructor |]. cbn [skipn]. apply IH.
  inversion H; assumption.
Qed.

(** The inner loop when every call is accepted: it ends, and it has taken
    one answer for each URL. *)
Lemma create_webhooks_accepted (channel : Channel) (r : str) (n : nat) (urls : list str) :
  forall (idx : nat) (g : Guild) (c : Creator),
    Forall is_created (responses g) ->
    (length urls <= length (responses g))%nat ->
    let out := create_webhooks channel r n idx urls (g, c) in
    snd out = Ok tt /\
    responses (fst (fst out)) = skipn (length urls) (responses g).
Proof.
  induction urls as [|old_url urls IH]; intros idx g c Hall Hlen; cbv zeta.
  - cbn [create_webhooks]. rewrite run_ret. split; reflexivity.
  - cbn [create_webhooks]. rewrite run_bind, run_on_fst.
    unfold create_webhook, next_response, log_call. cbn [responses channels calls].
    destruct (responses g) as [|resp rs] eqn:Hrs; [cbn in Hlen; lia |].
    inversion Hall as [|? ? Hresp Hall']; subst.
    destruct resp as [e | id url]; [destruct Hresp |]. cbn [fst snd].
    rewrite run_bind.
    match goal with
    | |- context [set_mapping old_url url (?g1, c)] =>
        change (set_mapping old_url url (g1, c))
          with ((g1, add_mapping old_url url c), Ok tt);
        specialize (IH (S idx) g1 (add_mapping old_url url c))
    end.
    cbv beta iota. cbn [responses length] in IH, Hlen. cbv zeta in IH.
    destruct (IH Hall' ltac:(lia)) as (H1 & H2).
    split; [exact H1 | exact H2].
Qed.

(** One turn of the loop when every call is accepted: the record of the
    resource is added, every URL of the resource is a key of the mapping,
    no key is lost, and at most one answer more than the resource has URLs
    is taken. *)
Lemma provision_accepted (r : str) (urls : gset str) (s : State) (category : Channel) :
  get_channel (fst s) (category_id (snd s)) = Some category ->
  Forall is_created (responses (fst s)) ->
  (1 + size urls <= length (responses (fst s)))%nat ->
  let out := provision_or_skip (r, urls) s in
  let s' := fst out in
  snd out = Ok None /\
  category_id (snd s') = category_id (snd s) /\
  (exists added, channels (fst s') = channels (fst s) ++ added) /\
  (exists n, (n <= 1 + size urls)%nat /\
             responses (fst s') = skipn n (responses (fst s))) /\
  map rec_resource (created_channels (snd s'))
  = map rec_resource (created_channels (snd s)) ++ [r] /\
  (forall k, In k (keys (webhook_mappings (snd s))) \/ k ∈ urls ->
     In k (keys (webhook_mappings (snd s')))).
Proof.
  destruct s as [g c]. cbn [fst snd]. intros Hcat Hall Hlen. cbv zeta.
  unfold provision_or_skip, try_. cbn [fst snd].
  assert (Hsize : length (sorted_urls urls) = size urls).
  { unfold sorted_urls. rewrite sorted_by_length. reflexivity. }
  assert (Hfinish : forall (g0 : Guild) (n : notice) (ch : Channel) (added : list Channel)
                           (k0 : nat),
            channels g0 = channels g ++ added ->
            responses g0 = skipn k0 (responses g) ->
            (k0 <= 1)%nat ->
            let out := match record_and_create r urls ch (g0, add_notice n c) with
                       | (s', Ok a) => (s', Ok a)
                       | (s', Raise e) =>
                           (notify (Skipped r e) ≫= fun _ => mret (None : option bool)) s'
                       end in
            snd out = Ok None /\
            category_id (snd (fst out)) = category_id c /\
            (exists added, channels (fst (fst out)) = channels g ++ added) /\
            (exists n, (n <= 1 + size urls)%nat /\
                       responses (fst (fst out)) = skipn n (responses g)) /\
            map rec_resource (created_channels (snd (fst out)))
            = map rec_resource (created_channels c) ++ [r] /\
            (forall k, In k (keys (webhook_mappings c)) \/ k ∈ urls ->
               In k (keys (webhook_mappings (snd (fst out)))))).
  { intros g0 n ch added k0 Hch Hresp Hk0. cbv zeta. unfold record_and_create.
    cbn [fst snd].
    assert (Hall0 : Forall is_created (responses g0))
      by (rewrite Hresp; apply Forall_skipn_created, Hall).
    assert (Hlen0 : (length (sorted_urls urls) <= length (responses g0))%nat)
      by (rewrite Hresp, length_skipn, Hsize; lia).
    pose proof (create_webhooks_accepted ch r (size urls) (sorted_urls urls) 1 g0
                  (add_record (record_of r ch urls) (add_notice n c)) Hall0 Hlen0) as Hok.
    pose proof (create_webhooks_run ch r (size urls) (sorted_urls urls) 1 g0
                  (add_record (record_of r ch urls) (add_notice n c))) as Hrun.
    cbv zeta in Hok, Hrun.
    destruct (create_webhooks ch r (size urls) 1 (sorted_urls urls)
                (g0, add_record (record_of r ch urls) (add_notice n c)))
      as [[g2 c2] res].
    cbn [fst snd] in Hok, Hrun. destruct Hok as (-> & Hresp2).
    destruct Hrun as (H1 & _ & H3 & H4 & _ & (news & Hnews & Hmap)).
    cbn [fst snd add_record add_notice category_id created_channels webhook_mappings]
      in *.
    split; [reflexivity |]. split; [exact H3 |].
    split; [exists added; rewrite H1; exact Hch |].
    split; [exists (k0 + size urls)%nat; split; [lia |];
            rewrite Hresp2, Hresp, skipn_skipn, Hsize; f_equal; lia |].
    split; [rewrite H4, map_app; reflexivity |].
    intros k Hk. rewrite Hmap. apply set_all_keys.
    destruct Hk as [Hk | Hk]; [left; exact Hk |]. right.
    rewrite combine_keys_all by exact Hnews. apply sorted_urls_In, Hk. }
  destruct (get_text_channel g (channel_name r) (category_id c)) as [existing |] eqn:Hex.
  - rewrite (provision_reuse r urls g c category existing Hcat Hex).
    apply (Hfinish g (Reusing r) existing [] 0%nat);
      [rewrite app_nil_r; reflexivity | reflexivity | lia].
  - rewrite (provision_create r urls g c category Hcat Hex).
    unfold create_text_channel, next_response, log_call, add_channel.
    cbn [responses channels calls].
    destruct (responses g) as [|resp rs] eqn:Hrs; [cbn in Hlen; lia |].
    inversion Hall as [|? ? Hresp Hall']; subst.
    destruct resp as [e | id url]; [destruct Hresp |].
    match goal with
    | |- context [record_and_create r urls ?ch (?g1, _)] =>
        pose proof (Hfinish g1 (CreatedChannel r) ch [ch] 1%nat) as Hf
    end.
    apply Hf; [reflexivity | reflexivity | lia].
Qed.

Lemma create_loop_accepted (items : list (str * gset str)) :
  forall (s : State) (category : Channel),
    get_channel (fst s) (category_id (snd s)) = Some category ->
    Forall is_created (responses (fst s)) ->
    (calls_needed items <= length (responses (fst s)))%nat ->
    let out := create_loop items s in
    let s' := fst out in
    snd out = Ok true /\
    map rec_resource (created_channels (snd s'))
    = map rec_resource (created_channels (snd s)) ++ map fst items /\
    (forall k, In k (keys (webhook_mappings (snd s))) \/ In k (urls_of items) ->
       In k (keys (webhook_mappings (snd s')))).
Proof.
  induction items as [|[r urls] items IH]; intros s category Hcat Hall Hlen; cbv zeta.
  - cbn [create_loop]. rewrite run_ret. cbn [fst snd map].
    split; [reflexivity |]. split; [rewrite app_nil_r; reflexivity |].
    intros k [Hk | []]. exact Hk.
  - assert (Hneed : calls_needed ((r, urls) :: items)
                    = (1 + size urls + calls_needed items)%nat).
    { unfold calls_needed, urls_of. cbn [flat_map length snd].
      rewrite length_app. change (length (elements urls)) with (size urls). lia. }
    rewrite Hneed in Hlen.
    cbn [create_loop]. rewrite run_bind.
    pose proof (provision_accepted r urls s category Hcat Hall ltac:(lia)) as Hstep.
    cbv zeta in Hstep.
    destruct (provision_or_skip (r, urls) s) as [s1 res]. cbn [fst snd] in Hstep.
    destruct Hstep as (-> & Hc1 & (added & Hch1) & (n & Hn & Hresp1) & Hrec1 & Hkeys1).
    assert (Hcat1 : get_channel (fst s1) (category_id (snd s1)) = Some category).
    { rewrite Hc1. exact (get_channel_stable _ _ _ _ _ Hch1 Hcat). }
    assert (Hall1 : Forall is_created (responses (fst s1)))
      by (rewrite Hresp1; apply Forall_skipn_created, Hall).
    assert (Hlen1 : (calls_needed items <= length (responses (fst s1)))%nat)
      by (rewrite Hresp1, length_skipn; lia).
    specialize (IH s1 category Hcat1 Hall1 Hlen1). cbv zeta in IH.
    destruct IH as (Hres & Hrec2 & Hkeys2).
    split; [exact Hres |]. split.
    + rewrite Hrec2, Hrec1, <- app_assoc. reflexivity.
    + intros k Hk. apply Hkeys2. destruct Hk as [Hk | Hk].
      * left. apply Hkeys1. left. exact Hk.
      * unfold urls_of in Hk. cbn [flat_map snd] in Hk. apply in_app_or in Hk.
        destruct Hk as [Hk | Hk]; [|right; exact Hk].
        left. apply Hkeys1. right. apply elem_of_elements, list_elem_of_In, Hk.
Qed.

(** X14. When the category exists and the platform accepts every call, the run
    of a fresh creator is complete: it returns [True], it has one record
    for each resource, in the order of the resource names, and every URL
    of every resource has a new URL in the mapping. *)
Theorem provisioning_completes (idx : gmap str (gset str)) (g : Guild) (category : Z)
    (cat : Channel) :
  get_channel g category = Some cat ->
  Forall is_created (responses g) ->
  (calls_needed (sorted_by fst (map_to_list idx)) <= length (responses g))%nat ->
  let out := create_all idx (g, init category) in
  let c' := snd (fst out) in
  snd out = Ok true /\
  map rec_resource (created_channels c') = map fst (sorted_by fst (map_to_list idx)) /\
  (forall r urls u, idx !! r = Some urls -> u ∈ urls ->
     is_Some (dict_get u (webhook_mappings c'))).
Proof.
  intros Hcat Hall Hlen. cbv zeta. unfold create_all.
  destruct (create_loop_accepted (sorted_by fst (map_to_list idx)) (g, init category) cat
              Hcat Hall Hlen) as (Hres & Hrec & Hkeys).
  split; [exact Hres |]. split; [exact Hrec |].
  intros r urls u Hr Hu. apply dict_get_keys. apply Hkeys. right.
  unfold urls_of. apply in_flat_map. exists (r, urls).
  split; [apply sorted_items_lookup, Hr |].
  cbn [snd]. apply list_elem_of_In, elem_of_elements, Hu.
Qed.

(** The theorem at the resource [shop] with one URL. *)
Lemma provisioning_completes_witness :
  snd (create_all {[ lit "shop" := {[ Sample.old_url ]} ]}
         (Sample.guild [Created 7 []; Created 0 Sample.new_url], init 1))
  = Ok true.
Proof.
  refine (proj1 (provisioning_completes {[ lit "shop" := {[ Sample.old_url ]} ]}
                   (Sample.guild [Created 7 []; Created 0 Sample.new_url]) 1
                   Sample.category_channel _ _ _)).
  - reflexivity.
  - repeat constructor.
  - vm_compute. lia.
Defined.

End ProvisionMore.

(** ** The sanitized channel name *)
Module SanitizeFacts.
Import Py Spec PyFacts WebhookCreator SanitizeSpec RegexFacts.

(** *** Substitution of a class and of its runs *)

Lemma match_here_class (icase : bool) (p : ascii -> bool) (bef rst : str) :
  match_here icase (Class p) bef rst
  = match rst with
    | x :: _ => if p x then Some (1%nat, None) else None
    | [] => None
    end.
Proof.
  unfold match_here. cbn [run rest before group1].
  destruct rst as [|x rst]; [reflexivity |]. destruct (p x); [|reflexivity].
  cbn [length]. f_equal. f_equal. lia.
Qed.

(** [re.sub] of a class by nothing keeps the characters outside the class. *)
Lemma sub_class_filter (icase : bool) (p : ascii -> bool) (s : str) :
  forall bef, sub_from icase (Class p) [] 0 bef s = List.filter (fun c => negb (p c)) s.
Proof.
  induction s as [|c s IH]; intros bef; cbn [sub_from List.filter].
  - rewrite match_here_class. reflexivity.
  - rewrite match_here_class. destruct (p c); cbn [negb app]; rewrite IH; reflexivity.
Qed.

Lemma star_k_all {R : Type} (p : ascii -> bool) (k : str -> str -> option R) :
  (forall b r, k b r <> None) ->
  forall rst bef,
    star_k p bef rst k = k (rev (run_of p rst) ++ bef) (lstrip_by p rst).
Proof.
  intros Hk. induction rst as [|c rst IH]; intros bef; cbn [star_k run_of lstrip_by].
  - reflexivity.
  - destruct (p c); [|reflexivity].
    rewrite IH. cbn [rev]. rewrite <- app_assoc. cbn [app].
    destruct (k (rev (run_of p rst) ++ c :: bef) (lstrip_by p rst)) eqn:E; [reflexivity |].
    destruct (Hk _ _ E).
Qed.

Lemma match_here_plus (icase : bool) (p : ascii -> bool) (bef : str) (c : ascii)
    (rst : str) :
  match_here icase (Plus p) bef (c :: rst)
  = if p c then Some (S (length (run_of p rst)), None) else None.
Proof.
  unfold match_here. cbn [run rest before group1]. destruct (p c); [|reflexivity].
  rewrite star_k_all by (intros b r; discriminate).
  cbn [before group1]. f_equal. f_equal.
  rewrite length_app, length_rev. cbn [length]. lia.
Qed.

(** [re.sub] of the runs of a class: inside a run that has been replaced,
    and outside. *)
Lemma sub_plus_squeeze (icase : bool) (p : ascii -> bool) (repl : str) (s : str) :
  forall bef,
    sub_from icase (Plus p) repl (length (run_of p s)) bef s
    = squeeze_from p repl true s /\
    sub_from icase (Plus p) repl 0 bef s = squeeze_from p repl false s.
Proof.
  induction s as [|c s IH]; intros bef.
  - cbn. split; reflexivity.
  - assert (Hout : sub_from icase (Plus p) repl 0 bef (c :: s)
                   = squeeze_from p repl false (c :: s)).
    { cbn [sub_from squeeze_from]. rewrite match_here_plus. destruct (p c).
      - rewrite (proj1 (IH (c :: bef))). reflexivity.
      - rewrite (proj2 (IH (c :: bef))). reflexivity. }
    split; [|exact Hout].
    cbn [run_of]. destruct (p c) eqn:Hp.
    + cbn [length sub_from squeeze_from]. rewrite Hp. apply IH.
    + cbn [length]. rewrite Hout. cbn [squeeze_from]. rewrite Hp. reflexivity.
Qed.

(** *** The steps that shape the name *)

Lemma safe_not_unsafe (c : ascii) : negb (unsafe_c c) = safe_c c.
Proof. unfold unsafe_c, safe_c. apply negb_involutive. Qed.

Lemma filter_safe (s : str) :
  forallb safe_c (List.filter (fun c => negb (unsafe_c c)) s) = true.
Proof.
  apply forallb_forall. intros c Hc. apply filter_In in Hc.
  rewrite <- safe_not_unsafe. apply Hc.
Qed.

Lemma squeeze_safe (s : str) (inrun : bool) :
  forallb safe_c s = true -> forallb safe_c (squeeze_from hyphen_c (lit "-") inrun s) = true.
Proof.
  change (lit "-") with ["-"%char].
  revert inrun. induction s as [|c s IH]; intros inrun H; [reflexivity |].
  cbn [forallb] in H. apply andb_true_iff in H. destruct H as [Hc Hs].
  cbn [squeeze_from]. destruct (hyphen_c c).
  - destruct inrun; [apply IH, Hs |]. cbn [app forallb].
    rewrite (IH true Hs). reflexivity.
  - cbn [forallb]. rewrite Hc, (IH false Hs). reflexivity.
Qed.

Lemma single_cons (c d : ascii) (t : str) :
  single_hyphens (c :: d :: t) = negb (hyphen_c c && hyphen_c d) && single_hyphens (d :: t).
Proof. reflexivity. Qed.

Lemma squeeze_single (s : str) :
  forall inrun,
    single_hyphens (squeeze_from hyphen_c (lit "-") inrun s) = true /\
    (inrun = true ->
     no_leading_hyphen (squeeze_from hyphen_c (lit "-") inrun s) = true).
Proof.
  change (lit "-") with ["-"%char].
  induction s as [|c s IH]; intros inrun; [split; reflexivity |].
  cbn [squeeze_from]. destruct (hyphen_c c) eqn:Hc.
  - destruct inrun.
    + apply IH.
    + split; [|discriminate]. destruct (IH true) as [H1 H2]. specialize (H2 eq_refl).
      cbn [app].
      destruct (squeeze_from hyphen_c ["-"%char] true s) as [|d t] eqn:E; [reflexivity |].
      rewrite single_cons. cbn [no_leading_hyphen] in H2.
      apply negb_true_iff in H2. rewrite H2, andb_false_r. exact H1.
  - split; [|intros _; cbn [no_leading_hyphen]; rewrite Hc; reflexivity].
    destruct (IH false) as [H1 _].
    destruct (squeeze_from hyphen_c ["-"%char] false s) as [|d t] eqn:E; [reflexivity |].
    rewrite single_cons, Hc. exact H1.
Qed.

Lemma single_no_pair (s : str) :
  single_hyphens s = true -> contains (lit "--") s = false.
Proof.
  induction s as [|c s IH]; intros H; [reflexivity |].
  cbn [contains]. destruct s as [|d s].
  - cbn. rewrite andb_false_r. reflexivity.
  - rewrite single_cons in H. apply andb_true_iff in H. destruct H as [Hpair Hrest].
    rewrite (IH Hrest), orb_false_r.
    cbn [lit list_ascii_of_string startswith]. unfold hyphen_c in Hpair.
    rewrite (Ascii.eqb_sym "-" c), (Ascii.eqb_sym "-" d).
    apply negb_true_iff in Hpair. rewrite andb_true_r. exact Hpair.
Qed.

Lemma contains_false_substring (sub a b : str) :
  substring a b -> contains sub b = false -> contains sub a = false.
Proof.
  intros Hab Hb. destruct (contains sub a) eqn:E; [|reflexivity].
  apply contains_spec in E. rewrite <- Hb. symmetry.
  apply contains_spec. exact (substring_trans _ _ _ E Hab).
Qed.

Lemma forallb_substring (ok : ascii -> bool) (a b : str) :
  substring a b -> forallb ok b = true -> forallb ok a = true.
Proof.
  intros (x & y & ->). rewrite !forallb_app. intros H.
  apply andb_true_iff in H. destruct H as [_ H].
  apply andb_true_iff in H. apply H.
Qed.

(** *** Stripping *)

Lemma lstrip_suffix (p : ascii -> bool) (s : str) : exists x, s = x ++ lstrip_by p s.
Proof.
  induction s as [|c s IH]; [exists []; reflexivity |].
  cbn [lstrip_by]. destruct (p c); [|exists []; reflexivity].
  destruct IH as [x Hx]. exists (c :: x). cbn [app]. f_equal. exact Hx.
Qed.

Lemma lstrip_head (p : ascii -> bool) (s : str) (c : ascii) (t : str) :
  lstrip_by p s = c :: t -> p c = false.
Proof.
  induction s as [|d s IH]; cbn [lstrip_by]; [discriminate |].
  destruct (p d) eqn:E; [exact IH |]. intros H. injection H as <- _. exact E.
Qed.

(** The stripped text is a part of the text; it neither begins nor ends
    with a stripped character. *)
Lemma strip_by_shape (p : ascii -> bool) (s : str) :
  substring (strip_by p s) s /\
  (forall c t, strip_by p s = c :: t -> p c = false) /\
  (forall c t, rev (strip_by p s) = c :: t -> p c = false).
Proof.
  unfold strip_by.
  destruct (lstrip_suffix p s) as [x Hx].
  destruct (lstrip_suffix p (rev (lstrip_by p s))) as [y Hy].
  assert (Hcut : lstrip_by p s = rev (lstrip_by p (rev (lstrip_by p s))) ++ rev y).
  { rewrite <- rev_app_distr, <- Hy, rev_involutive. reflexivity. }
  split; [|split].
  - exists x, (rev y). rewrite <- Hcut. exact Hx.
  - intros c t E. rewrite E in Hcut. cbn [app] in Hcut. exact (lstrip_head _ _ _ _ Hcut).
  - intros c t. rewrite rev_involutive. apply lstrip_head.
Qed.

Lemma firstn_substring (n : nat) (s : str) : substring (firstn n s) s.
Proof. exists [], (skipn n s). cbn [app]. symmetry. apply firstn_skipn. Qed.

Lemma not_stripped (c : ascii) : in_chars c (lit "-") = false -> Ascii.eqb "-" c = false.
Proof.
  unfold in_chars. cbn [lit list_ascii_of_string existsb]. rewrite orb_false_r.
  rewrite Ascii.eqb_sym. trivial.
Qed.

(** The name given when nothing is left. *)
Lemma default_name_shape :
  lit "resource-logs" <> [] /\
  (length (lit "resource-logs") <= 100)%nat /\
  forallb safe_c (lit "resource-logs") = true /\
  contains (lit "--") (lit "resource-logs") = false /\
  startswith (lit "resource-logs") (lit "-") = false /\
  endswith (lit "resource-logs") (lit "-") = false.
Proof.
  split; [discriminate |]. split; [cbn; lia |].
  repeat split; vm_compute; reflexivity.
Qed.

(** X16. The name that [_sanitize_name] returns is a channel name: it is not
    empty, has at most 100 characters, all of them lower-case letters,
    digits or hyphens, has no two hyphens side by side and does not begin
    with a hyphen.  It does not end with a hyphen either unless it was cut
    at 100 characters.  Names that differ in the case of their letters
    only are sanitized alike. *)
Theorem sanitize_name_shape (nm : str) :
  let r := _sanitize_name nm in
  r <> [] /\
  (length r <= 100)%nat /\
  forallb safe_c r = true /\
  contains (lit "--") r = false /\
  startswith r (lit "-") = false /\
  ((length r < 100)%nat -> endswith r (lit "-") = false) /\
  (forall nm', lower nm' = lower nm -> _sanitize_name nm' = _sanitize_name nm).
Proof.
  cbv zeta.
  assert (Hcase : forall nm', lower nm' = lower nm -> _sanitize_name nm' = _sanitize_name nm).
  { intros nm' H. unfold _sanitize_name. rewrite H. reflexivity. }
  assert (Hr : exists nm5,
            forallb safe_c nm5 = true /\
            contains (lit "--") nm5 = false /\
            _sanitize_name nm
            = if truthy (strip_chars (lit "-") nm5)
              then firstn 100 (strip_chars (lit "-") nm5)
              else lit "resource-logs").
  { eexists. split; [|split].
    3:{ unfold _sanitize_name, re_sub.
        rewrite sub_class_filter, (proj2 (sub_plus_squeeze false hyphen_c (lit "-") _ [])).
        reflexivity. }
    - apply squeeze_safe, filter_safe.
    - apply single_no_pair, squeeze_single. }
  destruct Hr as (nm5 & Hsafe5 & Hpair5 & Hr). rewrite Hr in Hcase |- *. clear Hr.
  unfold strip_chars in *.
  destruct (strip_by_shape (fun c => in_chars c (lit "-")) nm5) as (Hsub & Hhead & Hlast).
  set (nm6 := strip_by (fun c => in_chars c (lit "-")) nm5) in *.
  destruct nm6 as [|c t] eqn:E6.
  - cbn [truthy]. destruct default_name_shape as (H1 & H2 & H3 & H4 & H5 & H6).
    split; [exact H1 |]. split; [exact H2 |]. split; [exact H3 |].
    split; [exact H4 |]. split; [exact H5 |]. split; [intros _; exact H6 | exact Hcase].
  - cbn [truthy].
    assert (Hsub' : substring (firstn 100 (c :: t)) nm5)
      by exact (substring_trans _ _ _ (firstn_substring 100 (c :: t)) Hsub).
    split; [cbn [firstn]; discriminate |].
    split; [rewrite length_firstn; lia |].
    split; [exact (forallb_substring _ _ _ Hsub' Hsafe5) |].
    split; [exact (contains_false_substring _ _ _ Hsub' Hpair5) |].
    split; [cbn [firstn lit list_ascii_of_string startswith];
            rewrite (not_stripped c (Hhead c t eq_refl)); reflexivity |].
    split; [|exact Hcase].
    intros Hlen. rewrite length_firstn in Hlen.
    rewrite firstn_all2 by lia. unfold endswith.
    destruct (rev (c :: t)) as [|d u] eqn:Er.
    + reflexivity.
    + cbn [lit list_ascii_of_string rev app startswith].
      rewrite (not_stripped d (Hlast d u eq_refl)). reflexivity.
Qed.

(** Three names in full.  The word [discord] is replaced where it stands
    between word boundaries; the underscore is a character of a word. *)
Example sanitize_name_samples :
  _sanitize_name (lit "My Discord Bot-logs") = lit "my-disc-bot-logs" /\
  _sanitize_name (lit "My Discord_Bot-logs") = lit "my-discord-bot-logs" /\
  _sanitize_name (lit "[!!!]") = lit "resource-logs".
Proof. repeat split; vm_compute; reflexivity. Qed.

End SanitizeFacts.

(** ** More on the rewrite *)
Module UpdateMore.
Import Py OS Spec PyFacts RewriteSpec FileUpdater OSFacts ReplaceFacts UpdateInv UpdateFacts
       UpdateSpec.

(** *** A file without a mapped URL *)

Lemma replace_all_absent (webhook_mappings : list (str * str)) (content : str) :
  (forall item, In item webhook_mappings -> contains (fst item) content = false) ->
  replace_all webhook_mappings content = (content, 0%nat).
Proof.
  unfold replace_all. induction webhook_mappings as [|[old new] l IH]; intros H.
  - reflexivity.
  - cbn [fold_left replace_one].
    rewrite (H (old, new) (or_introl eq_refl) : contains old content = false).
    apply IH. intros item Hin. apply H. right. exact Hin.
Qed.

(** X17. A file in which no mapped URL occurs is read and left alone: nothing is
    written, no backup is made and nothing is counted.  The same holds of a
    file that cannot be read. *)
Theorem file_without_url_is_left (config : Config) (file_path : path)
    (webhook_mappings : list (str * str)) (backup_dir : option path)
    (w : World) (st : Stats) :
  (forall content, snd (read_text file_path w) = Ok content ->
     forall item, In item webhook_mappings -> contains (fst item) content = false) ->
  _update_file config file_path webhook_mappings backup_dir (w, st)
  = ((fst (read_text file_path w), st), Ok tt) /\
  files (fst (read_text file_path w)) = files w /\
  io_log (fst (read_text file_path w)) = io_log w.
Proof.
  intros Habsent. destruct (read_text_run file_path w) as (Hf & _ & Hg & _).
  split; [|split; assumption].
  rewrite update_file_returns. unfold update_body. rewrite run_bind, run_on_fst.
  destruct (read_text file_path w) as [w1 [content | e]]; cbn [fst snd] in *;
    [|reflexivity].
  rewrite (replace_all_absent _ _ (Habsent content eq_refl)). reflexivity.
Qed.

(** The theorem at a file that mentions no webhook. *)
Lemma file_without_url_is_left_witness :
  let w := Sample.posix {[ Sample.config_lua := lit "print('hello')" ]} [] in
  _update_file (mkConfig true [lit "webhook_backups"]) Sample.config_lua
    [(Sample.old_url, Sample.new_url)] (Some Sample.backups) (w, init)
  = ((fst (read_text Sample.config_lua w), init), Ok tt).
Proof.
  cbv zeta.
  refine (proj1 (file_without_url_is_left (mkConfig true [lit "webhook_backups"])
                   Sample.config_lua [(Sample.old_url, Sample.new_url)]
                   (Some Sample.backups)
                   (Sample.posix {[ Sample.config_lua := lit "print('hello')" ]} [])
                   init _)).
  intros content H item [<- | []]. vm_compute in H. injection H as <-.
  vm_compute. reflexivity.
Defined.

(** *** The backup directory *)

(** X18. When the backup directory cannot be made, [update_all] raises before it
    looks at any file: no file is read or written and nothing is counted. *)
Theorem mkdir_failure_aborts (config : Config) (now : str)
    (webhook_mappings : list (str * str))
    (file_occurrences : gmap str (list (path * str))) (w : World) (st : Stats) :
  create_backups config = true ->
  refused w ->
  let out := update_all config now webhook_mappings file_occurrences (w, st) in
  snd out = Raise OSError /\
  files (fst (fst out)) = files w /\
  io_log (fst (fst out)) = io_log w /\
  faults (fst (fst out)) = tl (faults w) /\
  snd (fst out) = st.
Proof.
  intros Hcb (o & rest & Hfaults & Ho). cbv zeta. unfold update_all. rewrite Hcb.
  rewrite run_bind, run_bind, run_on_fst. cbn [fst snd].
  unfold mkdir, next_outcome. rewrite Hfaults.
  destruct o as [| | k]; [contradiction | |]; cbn [fst snd files io_log faults tl];
    repeat split.
Qed.

(** The theorem at a world that refuses the directory. *)
Lemma mkdir_failure_aborts_witness :
  snd (update_all (mkConfig true [lit "webhook_backups"]) (lit "20240101_120000")
         [(Sample.old_url, Sample.new_url)] ∅
         (Sample.posix {[ Sample.config_lua := Sample.assignment Sample.old_url ]}
            [FailOpen], init))
  = Raise OSError.
Proof.
  refine (proj1 (mkdir_failure_aborts (mkConfig true [lit "webhook_backups"])
                   (lit "20240101_120000") [(Sample.old_url, Sample.new_url)] ∅
                   (Sample.posix {[ Sample.config_lua := Sample.assignment Sample.old_url ]}
                      [FailOpen]) init eq_refl _)).
  exists FailOpen, []. split; [reflexivity | discriminate].
Defined.

(** *** The course of one rewrite *)

Lemma inplace_targets_app (l1 l2 : list event) :
  inplace_targets (l1 ++ l2) = inplace_targets l1 ++ inplace_targets l2.
Proof. apply flat_map_app. Qed.

(** The backup in full: not wanted; or wanted, with a new path of the
    backup directory that is written in full and counted, or not opened,
    or left with a part of the text. *)
Lemma backup_trace (config : Config) (file_path : path) (backup_dir : option path)
    (original : str) (w : World) (st : Stats) :
  let out := backup config file_path backup_dir original (w, st) in
  let w' := fst (fst out) in
  let st' := snd (fst out) in
  linesep w' = linesep w /\
  files_updated st' = files_updated st /\
  replacements st' = replacements st /\
  ((backing config backup_dir = false /\ out = ((w, st), Ok tt)) \/
   (backing config backup_dir = true /\
    exists b,
      files w !! b = None /\
      ((snd out = Ok tt /\
        io_log w' = io_log w ++ [Opened BackupWrite b; Written BackupWrite b original] /\
        files w' = <[b := newlines_out (linesep w) original]> (files w) /\
        files_backed_up st' = S (files_backed_up st)) \/
       ((exists e, snd out = Raise e) /\
        files_backed_up st' = files_backed_up st /\
        ((io_log w' = io_log w /\ files w' = files w) \/
         (exists k,
            io_log w' = io_log w ++ [Opened BackupWrite b] /\
            files w' = <[b := firstn k (newlines_out (linesep w) original)]> (files w))))))).
Proof.
  cbv zeta. unfold backup, backing.
  destruct backup_dir as [dir |];
    [|repeat (split; [reflexivity |]); left; split; reflexivity].
  destruct (create_backups config);
    [|repeat (split; [reflexivity |]); left; split; reflexivity].
  rewrite run_bind, run_on_fst.
  destruct (choose_backup_file_run dir file_path w) as (b & Hch & Hnone & _).
  rewrite Hch. cbn [fst snd]. rewrite run_bind, run_on_fst.
  destruct (write_text_run BackupWrite b original w) as [Hl Hw].
  destruct (write_text BackupWrite b original w) as [w2 [[] | e]]; cbn [fst snd] in *.
  - destruct Hw as [Hf Hg].
    change (count_backup (w2, st))
      with ((w2, mkStats (files_updated st) (replacements st) (S (files_backed_up st))),
            Ok tt : result unit).
    cbn [fst snd files_updated replacements files_backed_up].
    split; [exact Hl |]. split; [reflexivity |]. split; [reflexivity |].
    right. split; [reflexivity |]. exists b. split; [exact Hnone |].
    left. repeat split; assumption.
  - split; [exact Hl |]. split; [reflexivity |]. split; [reflexivity |].
    right. split; [reflexivity |]. exists b. split; [exact Hnone |].
    right. split; [exists e; reflexivity |]. split; [reflexivity |].
    destruct Hw as [[Hf Hg] | (k & Hf & Hg)]; [left; split; assumption |].
    right. exists k. split; assumption.
Qed.

(** The course of the [try] block for one file.  The file is opened for
    the rewrite at most once.  It is counted as updated only when it has
    been written in full, and then with at least one replacement.  Without
    backups nothing is opened for a backup and none is counted; with
    backups at most one is counted, and one is counted whenever the file is
    counted as updated.  With backups, when the file is opened for the
    rewrite, the text that was read has been written in full to a new path
    before, and is there at the end. *)
Lemma update_body_trace (config : Config) (file_path : path)
    (webhook_mappings : list (str * str)) (backup_dir : option path)
    (w : World) (st : Stats) :
  let out := update_body config file_path webhook_mappings backup_dir (w, st) in
  let w' := fst (fst out) in
  let st' := snd (fst out) in
  exists new,
    io_log w' = io_log w ++ new /\
    (inplace_targets new = [] \/ inplace_targets new = [file_path]) /\
    ((files_updated st' = files_updated st /\ replacements st' = replacements st) \/
     (files_updated st' = S (files_updated st) /\
      (replacements st < replacements st')%nat /\
      inplace_targets new = [file_path])) /\
    (backing config backup_dir = false ->
     files_backed_up st' = files_backed_up st /\ backup_targets new = []) /\
    (backing config backup_dir = true ->
     (files_backed_up st <= files_backed_up st' <= S (files_backed_up st))%nat /\
     (files_updated st' = S (files_updated st) ->
      files_backed_up st' = S (files_backed_up st))) /\
    (backing config backup_dir = true ->
     opens_in_place file_path new ->
     exists b raw rest,
       files w !! file_path = Some raw /\
       files w !! b = None /\
       new = Opened BackupWrite b :: Written BackupWrite b (newlines_in raw)
             :: Opened InPlaceWrite file_path :: rest /\
       files w' !! b = Some (newlines_out (linesep w) (newlines_in raw))).
Proof.
  cbv zeta.
  assert (Hnothing : forall w1, io_log w1 = io_log w ->
    exists new,
      io_log w1 = io_log w ++ new /\
      (inplace_targets new = [] \/ inplace_targets new = [file_path]) /\
      ((files_updated st = files_updated st /\ replacements st = replacements st) \/
       (files_updated st = S (files_updated st) /\
        (replacements st < replacements st)%nat /\
        inplace_targets new = [file_path])) /\
      (backing config backup_dir = false ->
       files_backed_up st = files_backed_up st /\ backup_targets new = []) /\
      (backing config backup_dir = true ->
       (files_backed_up st <= files_backed_up st <= S (files_backed_up st))%nat /\
       (files_updated st = S (files_updated st) ->
        files_backed_up st = S (files_backed_up st))) /\
      (backing config backup_dir = true ->
       opens_in_place file_path new ->
       exists b raw rest,
         files w !! file_path = Some raw /\
         files w !! b = None /\
         new = Opened BackupWrite b :: Written BackupWrite b (newlines_in raw)
               :: Opened InPlaceWrite file_path :: rest /\
         files w1 !! b = Some (newlines_out (linesep w) (newlines_in raw)))).
  { intros w1 Hg. exists []. rewrite app_nil_r. split; [exact Hg |].
    split; [left; reflexivity |]. split; [left; split; reflexivity |].
    split; [intros _; split; reflexivity |].
    split; [intros _; split; [lia | intros H; lia] |].
    intros _ []. }
  unfold update_body. rewrite run_bind, run_on_fst.
  destruct (read_text_run file_path w) as (Hf & Hl & Hg & Hc).
  destruct (read_text file_path w) as [w1 [content | e]]; cbn [fst snd] in *.
  2:{ apply Hnothing, Hg. }
  destruct (Hc content eq_refl) as (raw & Hraw & ->). clear Hc.
  destruct (replace_all webhook_mappings (newlines_in raw)) as [content' n].
  destruct (Nat.ltb_spec 0 n) as [Hn | Hn].
  2:{ rewrite run_ret. cbn [fst snd]. apply Hnothing, Hg. }
  rewrite run_bind.
  pose proof (backup_trace config file_path backup_dir (newlines_in raw) w1 st) as Hb.
  cbv zeta in Hb.
  destruct (backup config file_path backup_dir (newlines_in raw) (w1, st))
    as [[w2 st2] resb]; cbn [fst snd] in Hb.
  destruct Hb as (Hl2 & Hu2 & Hr2 & Hb).
  assert (Hfp : forall b, files w1 !! b = None -> b <> file_path).
  { intros b Hb1 ->. rewrite Hf, Hraw in Hb1. discriminate Hb1. }
  destruct Hb as [[Hoff Hsame] | (Hon & b & Hnone & Hb)].
  - injection Hsame as -> -> ->. rewrite run_bind, run_on_fst.
    destruct (write_text_run InPlaceWrite file_path content' w1) as [_ Hw3].
    destruct (write_text InPlaceWrite file_path content' w1) as [w3 [[] | e]];
      cbn [fst snd] in *.
    + destruct Hw3 as [Hf3 Hg3].
      change (count_update n (w3, st))
        with ((w3, mkStats (S (files_updated st)) (replacements st + n)
                     (files_backed_up st)), Ok tt : result unit).
      cbn [fst snd files_updated replacements files_backed_up].
      exists [Opened InPlaceWrite file_path; Written InPlaceWrite file_path content'].
      split; [rewrite Hg3, Hg; reflexivity |].
      split; [right; reflexivity |].
      split; [right; split; [reflexivity | split; [lia | reflexivity]] |].
      split; [intros _; split; reflexivity |].
      split; intros H; rewrite Hoff in H; discriminate H.
    + destruct Hw3 as [[Hf3 Hg3] | (k & Hf3 & Hg3)].
      * exists []. rewrite app_nil_r. split; [rewrite Hg3, Hg; reflexivity |].
        split; [left; reflexivity |]. split; [left; split; reflexivity |].
        split; [intros _; split; reflexivity |].
        split; intros H; rewrite Hoff in H; discriminate H.
      * exists [Opened InPlaceWrite file_path]. split; [rewrite Hg3, Hg; reflexivity |].
        split; [right; reflexivity |]. split; [left; split; reflexivity |].
        split; [intros _; split; reflexivity |].
        split; intros H; rewrite Hoff in H; discriminate H.
  - destruct Hb as [(-> & Hg2 & Hf2 & Hfb) | ((e & ->) & Hfb & Hb)].
    + rewrite run_bind, run_on_fst.
      destruct (write_text_run InPlaceWrite file_path content' w2) as [_ Hw3].
      pose proof (write_text_frame InPlaceWrite file_path b content' w2
                    (Hfp b Hnone)) as Hframe.
      assert (Hb2 : files w2 !! b
                    = Some (newlines_out (linesep w) (newlines_in raw))).
      { rewrite Hf2, lookup_insert_eq, Hl. reflexivity. }
      destruct (write_text InPlaceWrite file_path content' w2) as [w3 [[] | e]];
        cbn [fst snd] in *.
      * destruct Hw3 as [Hf3 Hg3].
        change (count_update n (w3, st2))
          with ((w3, mkStats (S (files_updated st2)) (replacements st2 + n)
                       (files_backed_up st2)), Ok tt : result unit).
        cbn [fst snd files_updated replacements files_backed_up].
        exists [Opened BackupWrite b; Written BackupWrite b (newlines_in raw);
                Opened InPlaceWrite file_path; Written InPlaceWrite file_path content'].
        split; [rewrite Hg3, Hg2, Hg, <- app_assoc; reflexivity |].
        split; [right; reflexivity |].
        split; [right; split; [congruence | split; [lia | reflexivity]] |].
        split; [intros H; rewrite Hon in H; discriminate H |].
        split; [intros _; split; [lia | intros _; exact Hfb] |].
        intros _ _. exists b, raw, [Written InPlaceWrite file_path content'].
        split; [exact Hraw |]. split; [rewrite <- Hf; exact Hnone |].
        split; [reflexivity |]. rewrite Hframe. exact Hb2.
      * destruct Hw3 as [[Hf3 Hg3] | (k & Hf3 & Hg3)].
        -- exists [Opened BackupWrite b; Written BackupWrite b (newlines_in raw)].
           split; [rewrite Hg3, Hg2, Hg; reflexivity |].
           split; [left; reflexivity |]. split; [left; split; assumption |].
           split; [intros H; rewrite Hon in H; discriminate H |].
           split; [intros _; split; [lia | intros H; lia] |].
           intros _ [H | [H | []]]; discriminate H.
        -- exists [Opened BackupWrite b; Written BackupWrite b (newlines_in raw);
                   Opened InPlaceWrite file_path].
           split; [rewrite Hg3, Hg2, Hg, <- app_assoc; reflexivity |].
           split; [right; reflexivity |]. split; [left; split; assumption |].
           split; [intros H; rewrite Hon in H; discriminate H |].
           split; [intros _; split; [lia | intros H; lia] |].
           intros _ _. exists b, raw, [].
           split; [exact Hraw |]. split; [rewrite <- Hf; exact Hnone |].
           split; [reflexivity |]. rewrite Hframe. exact Hb2.
    + cbv beta iota. cbn [fst snd]. destruct Hb as [[Hg2 Hf2] | (k & Hg2 & Hf2)].
      * exists []. rewrite app_nil_r. split; [rewrite Hg2, Hg; reflexivity |].
        split; [left; reflexivity |]. split; [left; split; assumption |].
        split; [intros H; rewrite Hon in H; discriminate H |].
        split; [intros _; split; [lia | intros H; lia] |].
        intros _ [].
      * exists [Opened BackupWrite b]. split; [rewrite Hg2, Hg; reflexivity |].
        split; [left; reflexivity |]. split; [left; split; assumption |].
        split; [intros H; rewrite Hon in H; discriminate H |].
        split; [intros _; split; [lia | intros H; lia] |].
        intros _ [H | []]. discriminate H.
Qed.

(** X19. With backups, a file is opened for the rewrite only after the text that
    was read from it has been written in full to a path of the backup
    directory that did not exist; that backup is still there when
    [_update_file] returns, whether the rewrite itself succeeds or breaks
    off. *)
Theorem backup_precedes_rewrite (config : Config) (file_path dir : path)
    (webhook_mappings : list (str * str)) (w : World) (st : Stats) (new : list event) :
  create_backups config = true ->
  let s' := fst (_update_file config file_path webhook_mappings (Some dir) (w, st)) in
  io_log (fst s') = io_log w ++ new ->
  opens_in_place file_path new ->
  exists b raw rest,
    files w !! file_path = Some raw /\
    files w !! b = None /\
    new = Opened BackupWrite b :: Written BackupWrite b (newlines_in raw)
          :: Opened InPlaceWrite file_path :: rest /\
    files (fst s') !! b = Some (newlines_out (linesep w) (newlines_in raw)).
Proof.
  intros Hcb s' Hlog Hopen. subst s'. rewrite update_file_returns in *. cbn [fst] in *.
  destruct (update_body_trace config file_path webhook_mappings (Some dir) w st)
    as (new0 & Hlog0 & _ & _ & _ & _ & Hback).
  rewrite Hlog in Hlog0. apply app_inv_head in Hlog0. subst new0.
  exact (Hback Hcb Hopen).
Qed.

(** The theorem at a rewrite that succeeds. *)
Lemma backup_precedes_rewrite_witness :
  exists b raw rest,
    (files (Sample.posix {[ Sample.config_lua := Sample.assignment Sample.old_url ]} []))
      !! Sample.config_lua = Some raw /\
    (files (Sample.posix {[ Sample.config_lua := Sample.assignment Sample.old_url ]} []))
      !! b = None /\
    [Opened BackupWrite (joinpath Sample.backups (lit "config.lua"));
     Written BackupWrite (joinpath Sample.backups (lit "config.lua"))
       (Sample.assignment Sample.old_url);
     Opened InPlaceWrite Sample.config_lua;
     Written InPlaceWrite Sample.config_lua (Sample.assignment Sample.new_url)]
    = Opened BackupWrite b :: Written BackupWrite b (newlines_in raw)
      :: Opened InPlaceWrite Sample.config_lua :: rest /\
    files (fst (fst (_update_file (mkConfig true [lit "webhook_backups"])
                       Sample.config_lua [(Sample.old_url, Sample.new_url)]
                       (Some Sample.backups)
                       (Sample.posix
                          {[ Sample.config_lua := Sample.assignment Sample.old_url ]} [],
                        init))))
      !! b
    = Some (newlines_out [LF] (newlines_in raw)).
Proof.
  apply (backup_precedes_rewrite (mkConfig true [lit "webhook_backups"])
           Sample.config_lua Sample.backups [(Sample.old_url, Sample.new_url)]
           (Sample.posix {[ Sample.config_lua := Sample.assignment Sample.old_url ]} [])
           init).
  - reflexivity.
  - vm_compute. reflexivity.
  - right. right. left. reflexivity.
Defined.

(** *** All the files *)

(** The loop over the files: what is opened and what is counted. *)
Lemma update_files_trace (config : Config) (files_to_update : list path)
    (webhook_mappings : list (str * str)) (backup_dir : option path) :
  forall (s : State),
    let s' := fst (update_files config files_to_update webhook_mappings backup_dir s) in
    exists new,
      io_log (fst s') = io_log (fst s) ++ new /\
      (forall p, In p (inplace_targets new) -> In p files_to_update) /\
      (NoDup files_to_update -> NoDup (inplace_targets new)) /\
      (forall q, is_Some (files (fst s) !! q) -> ~ In q files_to_update ->
         files (fst s') !! q = files (fst s) !! q) /\
      (files_updated (snd s) <= files_updated (snd s')
       <= files_updated (snd s) + length files_to_update)%nat /\
      (files_updated (snd s') + replacements (snd s)
       <= replacements (snd s') + files_updated (snd s))%nat /\
      (backing config backup_dir = false ->
       files_backed_up (snd s') = files_backed_up (snd s) /\ backup_targets new = []) /\
      (backing config backup_dir = true ->
       (files_backed_up (snd s') <= files_backed_up (snd s) + length files_to_update)%nat /\
       (files_updated (snd s') + files_backed_up (snd s)
        <= files_backed_up (snd s') + files_updated (snd s))%nat).
Proof.
  induction files_to_update as [|file_path others IH]; intros s; cbv zeta.
  - cbn [update_files for_each]. rewrite run_ret. cbn [fst snd length].
    exists []. rewrite app_nil_r. split; [reflexivity |].
    split; [intros p [] |]. split; [intros _; constructor |].
    split; [reflexivity |]. split; [lia |]. split; [lia |].
    split; [intros _; split; reflexivity | intros _; lia].
  - rewrite update_files_cons, update_file_returns. cbn [fst]. destruct s as [w st].
    pose proof (update_body_trace config file_path webhook_mappings backup_dir w st)
      as Hstep.
    pose proof (update_body_step config file_path webhook_mappings backup_dir w st)
      as Heff.
    cbv zeta in Hstep.
    destruct (update_body config file_path webhook_mappings backup_dir (w, st))
      as [[w1 st1] r1]. cbn [fst snd] in *.
    destruct Hstep as (new1 & Hg1 & Hin1 & Hcount1 & Hoff1 & Hon1 & _).
    destruct Heff as [new1' _ Hg1' _ _ _ Hothers1 Hkept1 _]. cbn [fst snd] in *.
    specialize (IH (w1, st1)). cbv zeta in IH.
    destruct (update_files config others webhook_mappings backup_dir (w1, st1))
      as [[w2 st2] r2]. cbn [fst snd] in *.
    destruct IH as (new2 & Hg2 & Hin2 & Hnd2 & Hframe2 & Hfu2 & Hr2 & Hoff2 & Hon2).
    exists (new1 ++ new2). rewrite inplace_targets_app, backup_targets_app.
    split; [rewrite Hg2, Hg1, app_assoc; reflexivity |].
    split; [|split; [|split; [|split; [|split; [|split]]]]].
    + intros p Hp. apply in_app_or in Hp. destruct Hp as [Hp | Hp].
      * left. destruct Hin1 as [E | E]; rewrite E in Hp; [destruct Hp |].
        destruct Hp as [<- | []]. reflexivity.
      * right. apply Hin2, Hp.
    + intros Hnd. apply NoDup_cons in Hnd. destruct Hnd as [Hfresh Hnd].
      apply NoDup_app. split; [destruct Hin1 as [-> | ->]; [constructor | apply NoDup_one] |].
      split; [|apply Hnd2, Hnd].
      intros p Hp1 Hp2. apply list_elem_of_In in Hp1, Hp2.
      destruct Hin1 as [E | E]; rewrite E in Hp1; [destruct Hp1 |].
      destruct Hp1 as [<- | []]. apply Hfresh, list_elem_of_In, Hin2, Hp2.
    + intros q Hq Hnot.
      assert (Hne : q <> file_path) by (intros ->; apply Hnot; left; reflexivity).
      rewrite Hframe2.
      * apply Hothers1; assumption.
      * apply Hkept1, Hq.
      * intros H. apply Hnot. right. exact H.
    + cbn [length]. destruct Hcount1 as [[H1 H2] | (H1 & H2 & _)]; lia.
    + destruct Hcount1 as [[H1 H2] | (H1 & H2 & _)]; lia.
    + intros Hoff. destruct (Hoff1 Hoff) as [H1 H2]. destruct (Hoff2 Hoff) as [H3 H4].
      split; [congruence | rewrite H2, H4; reflexivity].
    + intros Hon. destruct (Hon1 Hon) as [H1 H2]. destruct (Hon2 Hon) as [H3 H4].
      cbn [length]. split; [lia |].
      destruct Hcount1 as [[H5 H6] | (H5 & H6 & _)]; [lia |].
      specialize (H2 H5). lia.
Qed.

(** [update_all] from its beginning to the loop: the loop runs on the world
    that [mkdir] leaves, or is not reached. *)
Lemma update_all_run (config : Config) (now : str) (webhook_mappings : list (str * str))
    (file_occurrences : gmap str (list (path * str))) (w : World) (st : Stats) :
  let out := update_all config now webhook_mappings file_occurrences (w, st) in
  (snd out = Raise OSError /\ files (fst (fst out)) = files w /\
   io_log (fst (fst out)) = io_log w /\ snd (fst out) = st) \/
  (exists w1 dir,
     files w1 = files w /\ io_log w1 = io_log w /\
     backing config dir = create_backups config /\
     out = update_files config
             (elements (files_to_update webhook_mappings file_occurrences))
             webhook_mappings dir (w1, st)).
Proof.
  cbv zeta. unfold update_all. rewrite run_bind.
  destruct (create_backups config) eqn:Hcb.
  - rewrite run_bind, run_on_fst. cbn [fst snd]. unfold mkdir.
    destruct (next_outcome_world w) as (Hf & _ & Hg).
    destruct (next_outcome w) as [[| | k] w1]; cbn [fst snd] in *.
    + right. exists w1, (Some (joinpath (backup_dir config) now)).
      split; [exact Hf |]. split; [exact Hg |]. split; [exact Hcb | reflexivity].
    + left. repeat split; assumption.
    + left. repeat split; assumption.
  - rewrite run_ret. right. exists w, None. repeat split.
Qed.



(** X21. The counters of a run of [update_all] with a fresh updater.  A file is
    counted as updated with at least one replacement, and at most once for
    each file to update.  With backups, every file counted as updated has a
    backup counted; without, no backup is counted and none is opened. *)
Theorem update_counters (config : Config) (now : str)
    (webhook_mappings : list (str * str))
    (file_occurrences : gmap str (list (path * str))) (w : World) :
  let out := update_all config now webhook_mappings file_occurrences (w, init) in
  let st' := snd (fst out) in
  (files_updated st' <= replacements st')%nat /\
  (files_updated st' <= size (files_to_update webhook_mappings file_occurrences))%nat /\
  (create_backups config = true ->
   (files_updated st' <= files_backed_up st'
    <= size (files_to_update webhook_mappings file_occurrences))%nat) /\
  (create_backups config = false ->
   files_backed_up st' = 0%nat /\
   exists new, io_log (fst (fst out)) = io_log w ++ new /\ backup_targets new = []).
Proof.
  cbv zeta.
  destruct (update_all_run config now webhook_mappings file_occurrences w init)
    as [(_ & _ & Hg & ->) | (w1 & dir & _ & Hg & Hback & ->)].
  - cbn [init files_updated replacements files_backed_up].
    split; [lia |]. split; [lia |]. split; [intros _; lia |].
    intros _. split; [reflexivity |]. exists []. rewrite app_nil_r. split; [exact Hg | reflexivity].
  - destruct (update_files_trace config
                (elements (files_to_update webhook_mappings file_occurrences))
                webhook_mappings dir (w1, init))
      as (new & Hlog & _ & _ & _ & Hfu & Hr & Hoff & Hon).
    cbn [fst snd init files_updated replacements files_backed_up] in *.
    change (length (elements (files_to_update webhook_mappings file_occurrences)))
      with (size (files_to_update webhook_mappings file_occurrences)) in *.
    split; [lia |]. split; [lia |]. split.
    + intros Hcb. rewrite Hcb in Hback. destruct (Hon Hback). lia.
    + intros Hcb. rewrite Hcb in Hback. destruct (Hoff Hback) as [H1 H2].
      split; [exact H1 |]. exists new. split; [rewrite Hlog, Hg; reflexivity | exact H2].
Qed.

(** *** Line ends *)




End UpdateMore.

(** ** The configuration *)
Module ConfigFacts.
Import Py Configuration.

(** X24. [validate] accepts a configuration exactly when the four settings are
    given and the resources path exists.  It reports one error for each
    setting that is not given, and one more when the path is given and
    does not exist; the existence of the path is not asked for when the
    path is not given. *)
Theorem validate_spec (self : Config) (path_exists : str -> bool) :
  let valid := fst (validate self path_exists) in
  let errors := snd (validate self path_exists) in
  (valid = true <->
   bot_token self <> [] /\ guild_id self <> [] /\ qb_logs_category_id self <> [] /\
   fivem_path self <> [] /\ path_exists (fivem_path self) = true) /\
  (valid = true <-> errors = []) /\
  length errors
  = (missing self
     + if truthy (fivem_path self) && negb (path_exists (fivem_path self)) then 1 else 0)%nat /\
  (fivem_path self = [] ->
   forall other, validate self other = validate self path_exists).
Proof.
  cbv zeta. destruct self as [[|a1 t1] [|a2 t2] [|a3 t3] [|a4 t4]];
    unfold validate, missing;
    cbn [bot_token guild_id qb_logs_category_id fivem_path truthy negb app
         List.filter length Nat.eqb fst snd andb];
    try (destruct (path_exists (a4 :: t4)) eqn:E;
         cbn [negb app length Nat.eqb fst snd Nat.add]);
    (split; [split; [intros H; try discriminate H; repeat split; try discriminate;
                     try reflexivity
                    |intros (H1 & H2 & H3 & H4 & H5);
                     try contradiction; try discriminate H5; try reflexivity] |]);
    (split; [split; intros H; try discriminate H; reflexivity |]);
    (split; [reflexivity |]);
    intros H; try discriminate H; intros other; reflexivity.
Qed.

End ConfigFacts.

(** ** The command from the scan to the rewrite *)
Module CommandFacts.
Import Py OS Discord PyFacts EnhancedScanner ScanSpec ScanInv ScanAllFacts RewriteSpec
       UpdateSpec RecordInv Command.



(** The scan of the command. *)
Lemma command_scan (base : path) (t : tree) (w : World) :
  exists w1 sc,
    scan t (w, init base) = ((w1, sc), Ok (webhooks_by_resource sc)) /\
    files w1 = files w /\ io_log w1 = io_log w /\
    base_path sc = base /\
    consistent (_get_all_files base t) sc.
Proof.
  destruct (scan_files_world (_get_all_files base t) w (init base)) as (Hok & Hf & Hl & _).
  pose proof (scan_consistent base t w) as Hc. cbv zeta in Hc.
  pose proof (scan_run t w (init base) Hok) as Hrun. cbv zeta in Hrun.
  change (base_path (init base)) with base in Hrun.
  rewrite Hrun in Hc |- *. cbn [fst snd] in Hc.
  exists (fst (fst (for_each (_get_all_files base t) _scan_file (w, init base)))),
         (set_files_scanned (length (_get_all_files base t))
            (snd (fst (for_each (_get_all_files base t) _scan_file (w, init base))))).
  split; [reflexivity |]. split; [exact Hf |]. split; [exact Hl |].
  destruct Hc as (Hc & Hb & _). split; [exact Hb | exact Hc].
Qed.


(** X26. When the scan finds no webhook the command stops there: it makes no
    call to the platform and writes nothing.  It goes on to the
    provisioning exactly when the index of the scan is not empty. *)
Theorem nothing_found_nothing_done (config : FileUpdater.Config) (now : str)
    (base : path) (category : Z) (t : tree) (w : World) (g : Guild) :
  let out := scan_webhooks config now base category t w g in
  (result out = NoWebhooks <-> webhooks_by_resource (scanner out) = ∅) /\
  (result out = NoWebhooks ->
   guild out = g /\ mappings out = [] /\
   files (world out) = files w /\ io_log (world out) = io_log w).
Proof.
  cbv zeta. unfold scan_webhooks.
  destruct (command_scan base t w) as (w1 & sc & -> & Hf & Hl & _ & _).
  destruct (bool_decide (webhooks_by_resource sc = ∅)) eqn:E.
  - apply bool_decide_eq_true in E. cbn [result scanner guild mappings world].
    split; [split; [intros _; exact E | reflexivity] |].
    intros _. repeat split; assumption.
  - apply bool_decide_eq_false in E.
    destruct (WebhookCreator.create_all (webhooks_by_resource sc)
                (g, WebhookCreator.init category)) as [[g1 creator] [[|] | e]].
    + destruct (FileUpdater.update_all config now (WebhookCreator.webhook_mappings creator)
                  (file_occurrences sc) (w1, FileUpdater.init)) as [[w2 st] [[] | e]];
        cbn [result scanner]; (split; [split; [discriminate | contradiction] | discriminate]).
    + cbn [result scanner]. split; [split; [discriminate | contradiction] | discriminate].
    + cbn [result scanner]. split; [split; [discriminate | contradiction] | discriminate].
Qed.

(** The command on the sample tree: the URL of [shop] is found, a channel
    and a webhook are made, the file is rewritten and its original is in
    the backup directory of the run. *)
Example command_on_sample_tree :
  let out :=
    scan_webhooks (FileUpdater.mkConfig true [lit "webhook_backups"])
      (lit "20240101_120000") Sample.root 1 SampleTree.server
      (Sample.posix {[ Sample.config_lua := Sample.assignment Sample.old_url ]} [])
      (Sample.guild [Created 7 []; Created 0 Sample.new_url]) in
  result out = Updated (FileUpdater.mkStats 1 1 1) /\
  mappings out = [(Sample.old_url, Sample.new_url)] /\
  files (world out) !! Sample.config_lua = Some (Sample.assignment Sample.new_url) /\
  files (world out) !! joinpath Sample.backups (lit "config.lua")
  = Some (Sample.assignment Sample.old_url).
Proof. cbv zeta. repeat split; vm_compute; reflexivity. Qed.

End CommandFacts.

(** ** Attribution of any path *)
Module AttributionMore.
Import Py Spec PyFacts EnhancedScanner AttributionSpec AttributionFacts.

Lemma index_In {A : Type} (l : list A) (i : Z) (a : A) : index l i = Ok a -> In a l.
Proof.
  unfold index. destruct (_ || _); [discriminate |].
  destruct (nth_error l _) as [x |] eqn:E; [|discriminate].
  intros H. injection H as <-. exact (nth_error_In _ _ E).
Qed.

Lemma relative_to_spec (base p rel : path) : relative_to p base = Ok rel -> p = base ++ rel.
Proof.
  revert p. induction base as [|b base IH]; intros p H; cbn [relative_to] in H.
  - injection H as ->. reflexivity.
  - destruct p as [|x p]; [discriminate H |].
    destruct (str_eqb b x) eqn:E; [|discriminate H].
    apply str_eqb_true in E. subst x. cbn [app]. f_equal. exact (IH p H).
Qed.

(** The name is the sentinel or the cleaned form of a part of the path. *)
Lemma resource_of_parts_from (parts : list str) :
  match resource_of_parts parts with
  | Ok nm => nm = unknown \/ exists x, In x parts /\ nm = clean x
  | Raise _ => True
  end.
Proof.
  unfold resource_of_parts.
  destruct (negb (bool_decide (parts <> []))); [left; reflexivity |].
  set (first_choice := if existsb (str_eqb (lit "resources")) parts then _ else _).
  assert (H1 : match first_choice with
               | Ok (Some x) => In x parts
               | _ => True
               end).
  { unfold first_choice. destruct (existsb _ parts); [|exact I].
    destruct (list_index (lit "resources") parts) as [res_idx | e]; [|exact I].
    rewrite bind_Ok. destruct (_ <? _)%nat; [|exact I].
    destruct (index parts (Z.of_nat res_idx + 1)) as [x | e] eqn:E; [|exact I].
    rewrite bind_Ok. exact (index_In _ _ _ E). }
  destruct first_choice as [o1 | e]; [|exact I]. rewrite bind_Ok.
  set (second_choice := if negb (truthy_opt o1) && (1 <=? length parts)%nat then _ else _).
  assert (H2 : match second_choice with
               | Ok (Some x) => In x parts
               | _ => True
               end).
  { unfold second_choice. destruct (negb (truthy_opt o1) && _).
    - destruct (index parts 0) as [first | e] eqn:E0; [|exact I]. rewrite bind_Ok.
      pose proof (index_In _ _ _ E0) as Hfirst.
      destruct (startswith first (lit "[") && endswith first (lit "]")); [|exact Hfirst].
      destruct (2 <=? length parts)%nat; [|exact Hfirst].
      destruct (index parts 1) as [x | e] eqn:E1; [|exact I].
      rewrite bind_Ok. exact (index_In _ _ _ E1).
    - destruct o1; exact H1. }
  destruct second_choice as [o2 | e]; [|exact I]. rewrite bind_Ok.
  destruct o2 as [nm |]; [|left; reflexivity].
  rewrite finish_clean. right. exists nm. split; [exact H2 | reflexivity].
Qed.

(** X10. [_extract_resource_name] gives a name for every path, whatever its
    parts: the name is never empty; it is [unknown] for a path that is not
    under the base path; and otherwise it is [unknown] or the cleaned form
    of one of the parts of the path below the base path. *)
Theorem extract_resource_name_total (base file_path : path) :
  let nm := _extract_resource_name base file_path in
  nm <> [] /\
  ((forall rel, file_path <> base ++ rel) -> nm = unknown) /\
  (nm = unknown \/
   exists rel x, file_path = base ++ rel /\ In x rel /\ nm = clean x).
Proof.
  cbv zeta. unfold _extract_resource_name.
  destruct (relative_to file_path base) as [rel | e] eqn:Hrel.
  - apply relative_to_spec in Hrel. rewrite bind_Ok.
    pose proof (resource_of_parts_from rel) as H.
    destruct (resource_of_parts rel) as [nm | e]; cbn [try_except].
    + split; [destruct H as [-> | (x & _ & ->)]; [discriminate | apply clean_not_nil] |].
      split; [intros Hout; destruct (Hout rel Hrel) |].
      destruct H as [-> | (x & Hx & ->)]; [left; reflexivity |].
      right. exists rel, x. repeat split; assumption.
    + split; [discriminate |]. split; [reflexivity | left; reflexivity].
  - rewrite bind_Raise. cbn [try_except].
    split; [discriminate |]. split; [reflexivity | left; reflexivity].
Qed.

End AttributionMore.

(** ** The mapping is a function *)
Module MappingFacts.
Import Py Discord Spec PyFacts WebhookCreator ProvisionSpec ProvisionFacts RecordInv
       ProvisionMore.








End MappingFacts.

(** ** Line ends after a rewrite *)
Module LineEnds.
Import Py OS Spec PyFacts RewriteSpec FileUpdater OSFacts ReplaceFacts UpdateFacts.

Lemma newlines_in_no_cr (n : nat) :
  forall raw, (length raw <= n)%nat -> no_cr (newlines_in raw).
Proof.
  unfold no_cr. induction n as [|n IH]; intros raw Hlen.
  - destruct raw; [reflexivity | cbn in Hlen; lia].
  - destruct raw as [|c raw]; [reflexivity |]. cbn [length] in Hlen.
    cbn [newlines_in]. destruct (Ascii.eqb c CR) eqn:Hc.
    + destruct raw as [|d raw]; [reflexivity |].
      destruct (Ascii.eqb d LF); cbn [forallb];
        (rewrite IH; [reflexivity | cbn [length] in *; lia]).
    + cbn [forallb]. rewrite Hc. apply IH. lia.
Qed.

Lemma replace_from_keeps (ok : ascii -> bool) (old new : str) (s : str) :
  forallb ok new = true ->
  forall k, forallb ok s = true -> forallb ok (replace_from old new k s) = true.
Proof.
  intros Hnew. induction s as [|c s IH]; intros k Hs; [reflexivity |].
  cbn [forallb] in Hs. apply andb_true_iff in Hs. destruct Hs as [Hc Hs].
  cbn [replace_from]. destruct k as [|k]; [|apply IH, Hs].
  destruct (startswith (c :: s) old).
  - rewrite forallb_app, Hnew. apply IH, Hs.
  - cbn [forallb]. rewrite Hc. apply IH, Hs.
Qed.

Lemma replace_keeps (ok : ascii -> bool) (s old new : str) :
  forallb ok new = true -> forallb ok s = true -> forallb ok (replace s old new) = true.
Proof.
  intros Hnew Hs. unfold replace. destruct old as [|x old].
  - rewrite forallb_app, Hnew. cbn [andb].
    induction s as [|c s IH]; [reflexivity |].
    cbn [forallb] in Hs. apply andb_true_iff in Hs. destruct Hs as [Hc Hs].
    cbn [flat_map forallb app]. rewrite Hc, forallb_app, Hnew. exact (IH Hs).
  - apply replace_from_keeps; assumption.
Qed.

Lemma replace_all_keeps (ok : ascii -> bool) (webhook_mappings : list (str * str)) :
  (forall item, In item webhook_mappings -> forallb ok (snd item) = true) ->
  forall content n,
    forallb ok content = true ->
    forallb ok (fst (fold_left replace_one webhook_mappings (content, n))) = true.
Proof.
  induction webhook_mappings as [|[old new] l IH]; intros Hnew content n Hc;
    cbn [fold_left]; [exact Hc |].
  cbn [replace_one]. destruct (contains old content).
  - apply IH; [intros item Hin; apply Hnew; right; exact Hin |].
    apply replace_keeps; [exact (Hnew (old, new) (or_introl eq_refl)) | exact Hc].
  - apply IH; [intros item Hin; apply Hnew; right; exact Hin | exact Hc].
Qed.

(** Without failures the backup is made, and none is left to come. *)
Lemma backup_succeeds (config : Config) (file_path : path) (backup_dir : option path)
    (original : str) (w : World) (st : Stats) :
  faults w = [] ->
  exists w2 st2,
    backup config file_path backup_dir original (w, st) = ((w2, st2), Ok tt) /\
    faults w2 = [] /\ linesep w2 = linesep w.
Proof.
  intros Hfaults. unfold backup.
  destruct backup_dir as [dir |]; [|exists w, st; repeat split; assumption].
  destruct (create_backups config); [|exists w, st; repeat split; assumption].
  rewrite run_bind, run_on_fst.
  destruct (choose_backup_file_run dir file_path w) as (b & Hch & _).
  rewrite Hch. cbn [fst snd].
  rewrite run_bind, run_on_fst, (write_text_success _ _ _ _ Hfaults). cbn [fst snd].
  eexists _, _. split; [reflexivity |]. split; [exact Hfaults | reflexivity].
Qed.

(** X23. A rewrite sets the line ends anew.  Where the line separator is LF, a
    file that is rewritten has no carriage return left when the new URLs
    have none: every CR LF and every lone CR of the original has become a
    line feed, not only in the lines that held a URL. *)
Theorem rewrite_normalises_line_ends (config : Config) (file_path : path)
    (webhook_mappings : list (str * str)) (backup_dir : option path)
    (w : World) (st : Stats) (raw : str) :
  faults w = [] ->
  linesep w = [LF] ->
  files w !! file_path = Some raw ->
  (0 < snd (replace_all webhook_mappings (newlines_in raw)))%nat ->
  (forall item, In item webhook_mappings -> no_cr (snd item)) ->
  let s' := fst (_update_file config file_path webhook_mappings backup_dir (w, st)) in
  files (fst s') !! file_path = Some (fst (replace_all webhook_mappings (newlines_in raw))) /\
  no_cr (fst (replace_all webhook_mappings (newlines_in raw))).
Proof.
  intros Hfaults Hls Hraw Hn Hnew s'. subst s'. split.
  - rewrite update_file_returns. cbn [fst]. unfold update_body.
    rewrite run_bind, run_on_fst, (read_text_success _ _ _ Hfaults Hraw). cbn [fst snd].
    destruct (replace_all webhook_mappings (newlines_in raw)) as [content' n] eqn:Hrep.
    cbn [fst snd] in *. apply Nat.ltb_lt in Hn. rewrite Hn.
    rewrite run_bind.
    destruct (backup_succeeds config file_path backup_dir (newlines_in raw) w st Hfaults)
      as (w2 & st2 & -> & Hfaults2 & Hls2).
    rewrite run_bind, run_on_fst, write_text_success by exact Hfaults2. cbn [fst snd].
    match goal with
    | |- context [count_update ?m (?w3, ?st3)] =>
        change (count_update m (w3, st3))
          with ((w3, mkStats (S (files_updated st3)) (replacements st3 + m)
                       (files_backed_up st3)), Ok tt : result unit)
    end.
    cbn [fst snd log_event set_file files linesep io_log].
    rewrite lookup_insert_eq, Hls2, Hls, newlines_out_posix. reflexivity.
  - unfold no_cr, replace_all. apply replace_all_keeps; [exact Hnew |].
    exact (newlines_in_no_cr (length raw) raw (le_n _)).
Qed.

(** The theorem at a file of one line that ends with CR LF. *)
Lemma rewrite_normalises_line_ends_witness :
  files (fst (fst (_update_file (mkConfig true [lit "webhook_backups"]) Sample.config_lua
                     [(Sample.old_url, Sample.new_url)] (Some Sample.backups)
                     (Sample.posix
                        {[ Sample.config_lua := Sample.assignment Sample.old_url ++ [CR; LF] ]}
                        [], init))))
    !! Sample.config_lua
  = Some (fst (replace_all [(Sample.old_url, Sample.new_url)]
                 (newlines_in (Sample.assignment Sample.old_url ++ [CR; LF])))).
Proof.
  refine (proj1 (rewrite_normalises_line_ends (mkConfig true [lit "webhook_backups"])
                   Sample.config_lua [(Sample.old_url, Sample.new_url)]
                   (Some Sample.backups)
                   (Sample.posix
                      {[ Sample.config_lua := Sample.assignment Sample.old_url ++ [CR; LF] ]} [])
                   init (Sample.assignment Sample.old_url ++ [CR; LF]) _ _ _ _ _)).
  - reflexivity.
  - reflexivity.
  - reflexivity.
  - vm_compute. lia.
  - intros item [<- | []]. vm_compute. reflexivity.
Defined.

End LineEnds.
